(** * cc-dashboard: the analytics core of the covered-call dashboard

    A shallow embedding of the derived-analytics functions of
    [src/main.jsx] (the two dashboard variants share this code verbatim)
    and the properties the specification states about them.

    Modelling conventions.
    - A JavaScript number stored in a record is a rational [Q]; arithmetic
      on amounts is exact, so IEEE rounding is not part of the model.
      Equality of amounts is [Qeq] ([==]).  The properties of
      rounding to cents, of the risk bands and of the suggested
      strikes, where a product or quotient is rounded or compared with
      a threshold, are stated with an explicit allowance around the
      edge, inside which the outcome depends on the binary rounding of
      the code.
    - The numbers [Number] reads from the parts of a date string are
      doubles: the value of the literal rounded to 53 bits, see
      [binary64].
    - A field that may be [undefined] or [null] is an [option]; a result
      that may be [null] or [NaN] is an [option] as well, and each
      definition says which of the two its [None] stands for.
    - Date fields are strings.  The code only ever tests them for
      truthiness, so the empty string stands for an absent date too.
    - Strings are byte strings; on ASCII text they agree with JavaScript's
      UTF-16 strings on length, slicing and code-unit order.
    - [status] is one of its four values, an enumeration.
    - The wall clock read by [today()] and [new Date()] is an explicit
      input, see [Clock].
    - React's [useMemo] wrappers are dropped: each memo is the function
      of the data it is computed from. *)

From Stdlib Require Import ZArith QArith Qround.
From Stdlib Require Import String Ascii DecimalString List Bool Lia.
From Stdlib Require Import Permutation Lqa.
Import ListNotations.

Local Open Scope string_scope.

(** ** Data model *)

(** [status] is one of the four strings "open", "expired", "closed",
    "assigned". *)
Inductive Status : Set := StOpen | StExpired | StClosed | StAssigned.

Definition Status_eqb (a b : Status) : bool :=
  match a, b with
  | StOpen, StOpen | StExpired, StExpired
  | StClosed, StClosed | StAssigned, StAssigned => true
  | _, _ => false
  end.

Module Call.
Record t : Type := mk {
  id : Z;
  ticker : string;
  strike : Q;
  premium : Q;
  contracts : Q;
  dateOpened : string;
  expiration : string;
  status : Status;
  dateClosed : string;
  closePrice : option Q;
  totalPremium : option Q;
  totalCloseCost : option Q
}.

Definition with_totalPremium (o : option Q) (c : t) : t :=
  mk (id c) (ticker c) (strike c) (premium c) (contracts c) (dateOpened c)
     (expiration c) (status c) (dateClosed c) (closePrice c) o
     (totalCloseCost c).

Definition with_totalCloseCost (o : option Q) (c : t) : t :=
  mk (id c) (ticker c) (strike c) (premium c) (contracts c) (dateOpened c)
     (expiration c) (status c) (dateClosed c) (closePrice c)
     (totalPremium c) o.
End Call.

Module Position.
Record t : Type := mk {
  id : Z;
  ticker : string;
  shares : Q;
  costBasis : Q;
  dateAcquired : string
}.
End Position.

(** ** JavaScript value tests used by the code *)

(** Truthiness of a (non-NaN) number: every number but zero. *)
Definition truthy (x : Q) : bool := negb (Qeq_bool x 0).

(** [x || 0] for a numeric field that may be absent. *)
Definition orZero (x : option Q) : Q :=
  match x with
  | Some v => if truthy v then v else 0%Q
  | None => 0%Q
  end.

(** [s || t] on strings: the empty string is falsy. *)
Definition orElse (s t : string) : string :=
  match s with
  | EmptyString => t
  | _ => s
  end.

(** [Math.round]: the nearest integer, ties towards plus infinity. *)
Definition Math_round (x : Q) : Z := Qfloor (x + (1 # 2)).

(** ** Premium arithmetic (lines 110-112) *)

Definition grossPrem (c : Call.t) : Q :=
  match Call.totalPremium c with
  | Some t => t
  | None => (Call.premium c * Call.contracts c * 100)%Q
  end.

Definition closeCostOf (c : Call.t) : Q :=
  match Call.totalCloseCost c with
  | Some t => t
  | None =>
      match Call.status c with
      | StClosed => (orZero (Call.closePrice c) * Call.contracts c * 100)%Q
      | _ => 0%Q
      end
  end.

Definition netPrem (c : Call.t) : Q := (grossPrem c - closeCostOf c)%Q.

(** ** Snapshot totals (lines 503-511) *)

Definition isOpen (c : Call.t) : bool := Status_eqb (Call.status c) StOpen.

Definition closedCalls (calls : list Call.t) : list Call.t :=
  filter (fun c => negb (isOpen c)) calls.

(** The reducer of [totalPremiumCollected]: a closed call adds gross
    minus [closeCostOf], an open call adds nothing, any other call adds
    its gross premium. *)
Definition totalPremiumCollected_step (sum : Q) (c : Call.t) : Q :=
  let prem := grossPrem c in
  match Call.status c with
  | StClosed => (sum + prem - closeCostOf c)%Q
  | StOpen => sum
  | _ => (sum + prem)%Q
  end.

Definition totalPremiumCollected (calls : list Call.t) : Q :=
  fold_left totalPremiumCollected_step calls 0%Q.

Definition totalCapitalDeployed (positions : list Position.t) : Q :=
  fold_left (fun sum p => (sum + Position.costBasis p * Position.shares p)%Q)
            positions 0%Q.

(** ** Dates (lines 100-108)

    A [Date] object built by the code is a time value in milliseconds, or
    Invalid Date ([None]).  Local time is taken at a fixed offset from
    UTC, so local midnights are whole multiples of [msPerDay] apart; a
    daylight-saving shift moves a midnight by an hour at most, which the
    [Math.round] of [daysBetween] absorbs. *)

Definition msPerDay : Z := 86400000.

(** The ambient clock: the string [today()] returns and the time value
    of [new Date()]. *)
Record Clock : Type := mkClock { today : string; now : Z }.

Definition digit (a : ascii) : option Z :=
  let n := Z.of_N (N_of_ascii a) in
  if ((48 <=? n) && (n <=? 57))%Z then Some (n - 48)%Z else None.

Fixpoint digitsValue (acc : Z) (s : string) : option Z :=
  match s with
  | EmptyString => Some acc
  | String a r =>
      match digit a with
      | Some k => digitsValue (10 * acc + k)%Z r
      | None => None
      end
  end.

(** ** Numbers read from strings

    [Number] on a string, as the ECMAScript grammar of numeric strings
    has it. *)

(** White space and line terminators among the ASCII characters: tab,
    line feed, vertical tab, form feed, carriage return and space. *)
Definition isSpace (a : ascii) : bool :=
  let n := N_of_ascii a in
  ((n =? 32) || ((9 <=? n) && (n <=? 13)))%N.

Fixpoint trimStart (s : string) : string :=
  match s with
  | EmptyString => EmptyString
  | String a r => if isSpace a then trimStart r else s
  end.

Fixpoint trimEnd (s : string) : string :=
  match s with
  | EmptyString => EmptyString
  | String a r =>
      match trimEnd r with
      | EmptyString => if isSpace a then EmptyString else String a EmptyString
      | r' => String a r'
      end
  end.

(** [s.trim()], which is also the white space [Number] sets aside. *)
Definition trim (s : string) : string := trimEnd (trimStart s).

(** A number of the code: NaN, an infinity, or a finite value. *)
Inductive Num : Type :=
| NaN
| Infinite (negative : bool)
| Finite (q : Q).

(** The integer nearest to [q]; a tie goes to the even one. *)
Definition roundHalfEven (q : Q) : Z :=
  let f := Qfloor q in
  match (q - inject_Z f ?= 1 # 2)%Q with
  | Lt => f
  | Gt => (f + 1)%Z
  | Eq => if Z.even f then f else (f + 1)%Z
  end.

(** The exponent of the leading bit of a positive [q]. *)
Definition ilog2 (q : Q) : Z :=
  let k := (Z.log2 (Qnum q) - Z.log2 (Zpos (Qden q)))%Z in
  if Qle_bool (2 ^ k) q then k else (k - 1)%Z.

(** The double nearest to [q]: 53 bits, round to nearest with ties to
    even, gradual underflow, overflow to an infinity.  An integer of at
    most 2^53 in magnitude is a double as it stands. *)
Definition binary64 (q : Q) : Num :=
  if (Qden q =? 1)%positive && (Z.abs (Qnum q) <=? 9007199254740992)%Z
  then Finite q
  else
    let a := if Qle_bool 0 q then q else (- q)%Q in
    if Qeq_bool a 0 then Finite 0
    else
      let e := Z.max (ilog2 a - 52) (-1074) in
      let r := (inject_Z (roundHalfEven (a / 2 ^ e)) * 2 ^ e)%Q in
      if Qle_bool (2 ^ 1024) r then Infinite (negb (Qle_bool 0 q))
      else Finite (if Qle_bool 0 q then r else (- r)%Q).

Definition isDigit (a : ascii) : bool :=
  match digit a with
  | Some _ => true
  | None => false
  end.

(** The run of decimal digits a string starts with, and what follows. *)
Fixpoint spanDigits (s : string) : string * string :=
  match s with
  | EmptyString => (EmptyString, EmptyString)
  | String a r =>
      if isDigit a then
        let p := spanDigits r in (String a (fst p), snd p)
      else (EmptyString, s)
  end.

(** A digit of a literal in base 2, 8 or 16. *)
Definition digitIn (radix : Z) (a : ascii) : option Z :=
  let n := Z.of_N (N_of_ascii a) in
  let v := if ((48 <=? n) && (n <=? 57))%Z then (n - 48)%Z
           else if ((97 <=? n) && (n <=? 102))%Z then (n - 87)%Z
           else if ((65 <=? n) && (n <=? 70))%Z then (n - 55)%Z
           else radix in
  if (v <? radix)%Z then Some v else None.

Fixpoint radixValue (radix acc : Z) (s : string) : option Z :=
  match s with
  | EmptyString => Some acc
  | String a r =>
      match digitIn radix a with
      | Some k => radixValue radix (radix * acc + k)%Z r
      | None => None
      end
  end.

(** [0x], [0o] and [0b] literals, in either case of the letter. *)
Definition radixLiteral (s : string) : option Z :=
  match s with
  | String "0" (String c (String a r)) =>
      if Ascii.eqb c "x" || Ascii.eqb c "X" then radixValue 16 0 (String a r)
      else if Ascii.eqb c "o" || Ascii.eqb c "O" then radixValue 8 0 (String a r)
      else if Ascii.eqb c "b" || Ascii.eqb c "B" then radixValue 2 0 (String a r)
      else None
  | _ => None
  end.

(** The signed integer of an exponent part. *)
Definition signedInteger (s : string) : option Z :=
  match s with
  | String "+" (String a r) => digitsValue 0 (String a r)
  | String "-" (String a r) => option_map Z.opp (digitsValue 0 (String a r))
  | String a r => digitsValue 0 (String a r)
  | EmptyString => None
  end.

Definition exponentPart (s : string) : option Z :=
  match s with
  | EmptyString => Some 0%Z
  | String c r =>
      if Ascii.eqb c "e" || Ascii.eqb c "E" then signedInteger r else None
  end.

(** An unsigned decimal literal: digits, a fraction and an exponent, with
    a digit before or after the point; its exact value. *)
Definition unsignedDecimal (s : string) : option Q :=
  let sp := spanDigits s in
  let ip := fst sp in
  let r1 := snd sp in
  let fr := match r1 with
            | String "." r => spanDigits r
            | _ => (EmptyString, r1)
            end in
  match (ip ++ fst fr)%string with
  | EmptyString => None
  | digits =>
      match digitsValue 0 digits, exponentPart (snd fr) with
      | Some n, Some e =>
          Some (inject_Z n * 10 ^ (e - Z.of_nat (String.length (fst fr))))%Q
      | _, _ => None
      end
  end.

Definition unsignedLiteral (negative : bool) (s : string) : Num :=
  if String.eqb s "Infinity" then Infinite negative
  else
    match unsignedDecimal s with
    | Some v => binary64 (if negative then (- v)%Q else v)
    | None => NaN
    end.

(** [Number(s)]: the string read as a numeric literal between white
    space.  A run of decimal digits is its value and the empty string is
    0; the other literals are signed decimals with a fraction and an
    exponent, Infinity, and unsigned literals in base 16, 8 and 2. *)
Definition Number (s : string) : Num :=
  match digitsValue 0 s with
  | Some n => binary64 (inject_Z n)
  | None =>
      match trim s with
      | EmptyString => Finite 0
      | String "+" r => unsignedLiteral false r
      | String "-" r => unsignedLiteral true r
      | t =>
          match radixLiteral t with
          | Some n => binary64 (inject_Z n)
          | None => unsignedLiteral false t
          end
      end
  end.

(** [s.split("-")] *)
Fixpoint split_dash (s : string) : list string :=
  match s with
  | EmptyString => [EmptyString]
  | String a r =>
      if Ascii.eqb a "-" then EmptyString :: split_dash r
      else match split_dash r with
           | h :: t => String a h :: t
           | [] => [String a EmptyString]
           end
  end.

(** The k-th element of a destructured array of numbers; a missing
    element is [undefined], which every later use turns into NaN. *)
Definition component (k : nat) (l : list Num) : Num :=
  nth k l NaN.

Definition InLeapYear (y : Z) : bool :=
  (((y mod 4 =? 0) && negb (y mod 100 =? 0)) || (y mod 400 =? 0))%Z.

(** ECMAScript's DayFromYear: the day number of 1 January of year [y],
    counted from 1 January 1970. *)
Definition DayFromYear (y : Z) : Z :=
  (365 * (y - 1970) + (y - 1969) / 4 - (y - 1901) / 100 + (y - 1601) / 400)%Z.

(** Days of the year before the first of month [mn] (0 = January). *)
Definition monthStart (leap : bool) (mn : Z) : Z :=
  let l := if leap then 1%Z else 0%Z in
  (if mn =? 0 then 0 else if mn =? 1 then 31
   else if mn =? 2 then 59 + l else if mn =? 3 then 90 + l
   else if mn =? 4 then 120 + l else if mn =? 5 then 151 + l
   else if mn =? 6 then 181 + l else if mn =? 7 then 212 + l
   else if mn =? 8 then 243 + l else if mn =? 9 then 273 + l
   else if mn =? 10 then 304 + l else 334 + l)%Z.

(** ECMAScript's MakeDay on integral arguments: months and days out of
    range carry over. *)
Definition MakeDay (year month date : Z) : Z :=
  let ym := (year + month / 12)%Z in
  let mn := (month mod 12)%Z in
  (DayFromYear ym + monthStart (InLeapYear ym) mn + date - 1)%Z.

Definition TimeClip (t : Z) : option Z :=
  if (Z.abs t <=? 8640000000000000)%Z then Some t else None.

(** ECMAScript's ToIntegerOrInfinity on a finite value: the fraction is
    dropped. *)
Definition ToIntegerOrInfinity (q : Q) : Z :=
  if Qle_bool 0 q then Qfloor q else Qceiling q.

(** [new Date(y, m, d)]: an argument that is NaN or infinite gives
    Invalid Date, the arguments lose their fractions, and a year from 0
    to 99 means 1900 + year. *)
Definition newDate (y m d : Num) : option Z :=
  match y, m, d with
  | Finite y, Finite m, Finite d =>
      let yi := ToIntegerOrInfinity y in
      let yr := if ((0 <=? yi) && (yi <=? 99))%Z then (1900 + yi)%Z else yi in
      TimeClip (MakeDay yr (ToIntegerOrInfinity m) (ToIntegerOrInfinity d)
                * msPerDay)
  | _, _, _ => None
  end.

(** [m - 1] *)
Definition sub1 (m : Num) : Num :=
  match m with
  | Finite v => binary64 (v - 1)
  | _ => m
  end.

(** [!y] on a number: NaN and zero are falsy. *)
Definition falsyNum (y : Num) : bool :=
  match y with
  | NaN => true
  | Infinite _ => false
  | Finite q => Qeq_bool q 0
  end.

Definition parseLocalDate (clk : Clock) (s : string) : option Z :=
  match s with
  | EmptyString => Some (now clk)
  | _ =>
      let parts := map Number (split_dash s) in
      newDate (component 0 parts) (sub1 (component 1 parts)) (component 2 parts)
  end.

(** [daysBetween(a, b)]; [None] is NaN. *)
Definition daysBetween (clk : Clock) (a b : string) : option Z :=
  match parseLocalDate clk b, parseLocalDate clk a with
  | Some tb, Some ta =>
      Some (Math_round (inject_Z (tb - ta) / inject_Z msPerDay))
  | _, _ => None
  end.

(** ** Tax view (lines 559-572) *)

Inductive Treatment : Set := LongTerm | ShortTerm.

Definition Qltb (x y : Q) : bool := negb (Qle_bool y x).

(** [n > k] and [Math.abs(n) <= k] on a number that may be NaN: every
    comparison with NaN is false. *)
Definition gtNaN (n : option Z) (k : Z) : bool :=
  match n with
  | Some v => (k <? v)%Z
  | None => false
  end.

Definition absLeNaN (n : option Z) (k : Z) : bool :=
  match n with
  | Some v => (Z.abs v <=? k)%Z
  | None => false
  end.

Record TaxRow : Type := mkTaxRow {
  row_call : Call.t;
  held : option Z;
  net : Q;
  treatment : Treatment;
  washSaleRisk : bool
}.

Definition nearbyTrades (clk : Clock) (calls : list Call.t) (c : Call.t)
  : list Call.t :=
  filter (fun o =>
            negb (Call.id o =? Call.id c)%Z
            && String.eqb (Call.ticker o) (Call.ticker c)
            && absLeNaN (daysBetween clk (orElse (Call.dateClosed c) (today clk))
                                     (Call.dateOpened o)) 30)
         calls.

Definition taxRow (clk : Clock) (calls : list Call.t) (c : Call.t) : TaxRow :=
  let held := daysBetween clk (Call.dateOpened c)
                          (orElse (Call.dateClosed c) (today clk)) in
  let net := netPrem c in
  let treatment := if gtNaN held 365 then LongTerm else ShortTerm in
  let isLoss := Qltb net 0 in
  let nearby := nearbyTrades clk calls c in
  let washSaleRisk := isLoss && (0 <? length nearby)%nat in
  mkTaxRow c held net treatment washSaleRisk.

Definition taxData (clk : Clock) (calls : list Call.t) : list TaxRow :=
  map (taxRow clk calls) (closedCalls calls).

(** ** Annualized yield (lines 575-582) *)

(** [Array.prototype.sort()] without a comparator on an array of strings:
    a stable sort by code-unit order. *)
Fixpoint insert_sorted (s : string) (l : list string) : list string :=
  match l with
  | [] => [s]
  | h :: t => if (s <=? h)%string then s :: l else h :: insert_sorted s t
  end.

Definition sort (l : list string) : list string :=
  fold_right insert_sorted [] l.

Definition nonEmpty (s : string) : bool :=
  match s with
  | EmptyString => false
  | _ => true
  end.

(** The body of the memo, as a function of its dependencies; [None] is
    NaN. *)
Definition annualizedYield_of (clk : Clock) (totalPremium totalCapital : Q)
           (calls : list Call.t) : option Q :=
  if Qeq_bool totalCapital 0 then Some 0%Q
  else
    let allDates := sort (filter nonEmpty (map Call.dateOpened calls)) in
    match allDates with
    | [] => Some 0%Q
    | first :: _ =>
        match daysBetween clk first (today clk) with
        | None => None
        | Some daysSinceFirst =>
            if (daysSinceFirst <=? 0)%Z then Some 0%Q
            else Some ((totalPremium / totalCapital)
                       * (365 / inject_Z daysSinceFirst))%Q
        end
    end.

Definition annualizedYield (clk : Clock) (positions : list Position.t)
           (calls : list Call.t) : option Q :=
  annualizedYield_of clk (totalPremiumCollected calls)
                     (totalCapitalDeployed positions) calls.

(** ** Calendar fields of a time value

    On Invalid Date every getter returns NaN ([None]), and [setDate]
    with a NaN argument leaves Invalid Date. *)

(** Year, month (1-12) and day of month of a day number: the inverse of
    [MakeDay] on the proleptic Gregorian calendar. *)
Definition civil_from_days (day : Z) : Z * Z * Z :=
  let z := (day + 719468)%Z in
  let era := (z / 146097)%Z in
  let doe := (z - era * 146097)%Z in
  let yoe := ((doe - doe / 1460 + doe / 36524 - doe / 146096) / 365)%Z in
  let doy := (doe - (365 * yoe + yoe / 4 - yoe / 100))%Z in
  let mp := ((5 * doy + 2) / 153)%Z in
  let d := (doy - (153 * mp + 2) / 5 + 1)%Z in
  let m := if (mp <? 10)%Z then (mp + 3)%Z else (mp - 9)%Z in
  let y := (yoe + era * 400 + (if (m <=? 2)%Z then 1 else 0))%Z in
  (y, m, d).

Definition getFullYear (t : option Z) : option Z :=
  option_map (fun ms => fst (fst (civil_from_days (ms / msPerDay)))) t.

(** [getMonth() + 1] *)
Definition getMonth1 (t : option Z) : option Z :=
  option_map (fun ms => snd (fst (civil_from_days (ms / msPerDay)))) t.

Definition getDate (t : option Z) : option Z :=
  option_map (fun ms => snd (civil_from_days (ms / msPerDay))) t.

(** Day of the week, 0 = Sunday; 1 January 1970 was a Thursday. *)
Definition getDay (t : option Z) : option Z :=
  option_map (fun ms => ((ms / msPerDay + 4) mod 7)%Z) t.

Definition setDate (t v : option Z) : option Z :=
  match t, v with
  | Some ms, Some v =>
      let '(y, m, _) := civil_from_days (ms / msPerDay) in
      TimeClip (MakeDay y (m - 1) v * msPerDay + ms mod msPerDay)
  | _, _ => None
  end.

Definition subNaN (a b : option Z) : option Z :=
  match a, b with
  | Some x, Some y => Some (x - y)%Z
  | _, _ => None
  end.

(** [String(n)] of an integral number or NaN. *)
Definition String_of (n : option Z) : string :=
  match n with
  | Some v => NilZero.string_of_int (Z.to_int v)
  | None => "NaN"
  end.

(** [s.padStart(2, "0")] *)
Definition padStart2 (s : string) : string :=
  match s with
  | EmptyString => "00"
  | String a EmptyString => String "0" s
  | _ => s
  end.

(** [s.slice(a)] and [s.slice(0, b)] for non-negative bounds. *)
Fixpoint slice_from (a : nat) (s : string) : string :=
  match a, s with
  | O, _ => s
  | S a', EmptyString => EmptyString
  | S a', String _ r => slice_from a' r
  end.

Definition slice_to (b : nat) (s : string) : string := substring 0 b s.

(** ** Time series (lines 520-556) *)

(** [Math.round(x * 100) / 100], the product and the quotient taken
    exactly. *)
Definition round2 (x : Q) : Q := (inject_Z (Math_round (x * 100)) / 100)%Q.

(** [m[key] = (m[key] || 0) + net] on an object used as a map, kept in
    insertion order. *)
Fixpoint bump (key : string) (amount : Q) (m : list (string * Q))
  : list (string * Q) :=
  match m with
  | [] => [(key, (0 + amount)%Q)]
  | (k, v) :: r =>
      if String.eqb k key
      then (k, ((if truthy v then v else 0) + amount)%Q) :: r
      else (k, v) :: bump key amount r
  end.

Record Bucket : Type := mkBucket {
  label : string;
  amount : Q;
  cumulative : Q
}.

Section TimeSeries.

(** [a.localeCompare(b)] depends on the host's locale and is an input:
    negative, zero or positive. *)
Variable localeCompare : string -> string -> Z.

Fixpoint insert_entry (e : string * Q) (l : list (string * Q))
  : list (string * Q) :=
  match l with
  | [] => [e]
  | h :: t =>
      if (localeCompare (fst e) (fst h) <=? 0)%Z then e :: l
      else h :: insert_entry e t
  end.

(** [Object.entries(m).sort(([a], [b]) => a.localeCompare(b))] *)
Definition sortEntries (m : list (string * Q)) : list (string * Q) :=
  fold_right insert_entry [] m.

(** The closing [map] with its running [cum]. *)
Fixpoint running (relabel : string -> string) (cum : Q)
         (l : list (string * Q)) : list Bucket :=
  match l with
  | [] => []
  | (k, a) :: r =>
      let cum' := (cum + a)%Q in
      mkBucket (relabel k) (round2 a) (round2 cum') :: running relabel cum' r
  end.

Definition weekKey (c : Call.t) : option string :=
  let dateStr := orElse (Call.dateClosed c) (Call.dateOpened c) in
  let parts := map Number (split_dash dateStr) in
  let y := component 0 parts in
  let m := component 1 parts in
  let d := component 2 parts in
  if falsyNum y then None
  else
    let dt := newDate y (sub1 m) d in
    let weekStart := setDate dt (subNaN (getDate dt) (getDay dt)) in
    Some (String_of (getFullYear weekStart) ++ "-"
          ++ padStart2 (String_of (getMonth1 weekStart)) ++ "-"
          ++ padStart2 (String_of (getDate weekStart))).

Definition weekStep (weeks : list (string * Q)) (c : Call.t)
  : list (string * Q) :=
  match weekKey c with
  | None => weeks
  | Some key => bump key (netPrem c) weeks
  end.

Definition weeksOf (calls : list Call.t) : list (string * Q) :=
  fold_left weekStep (closedCalls calls) [].

Definition premiumByWeek (calls : list Call.t) : list Bucket :=
  running (slice_from 5) 0 (sortEntries (weeksOf calls)).

Definition monthKey (c : Call.t) : option string :=
  let dateStr := orElse (Call.dateClosed c) (Call.dateOpened c) in
  let key := slice_to 7 dateStr in
  if negb (nonEmpty key) || (String.length key <? 7)%nat then None
  else Some key.

Definition monthStep (months : list (string * Q)) (c : Call.t)
  : list (string * Q) :=
  match monthKey c with
  | None => months
  | Some key => bump key (netPrem c) months
  end.

Definition monthsOf (calls : list Call.t) : list (string * Q) :=
  fold_left monthStep (closedCalls calls) [].

Definition premiumByMonth (calls : list Call.t) : list Bucket :=
  running (fun k => k) 0 (sortEntries (monthsOf calls)).

End TimeSeries.

(** ** Strategy comparator (lines 1351-1403) *)

(** [toUpperCase] on ASCII letters; other bytes are left as they are. *)
Definition upper_ascii (a : ascii) : ascii :=
  let n := N_of_ascii a in
  if ((97 <=? n) && (n <=? 122))%N then ascii_of_N (n - 32) else a.

Fixpoint toUpperCase (s : string) : string :=
  match s with
  | EmptyString => EmptyString
  | String a r => String (upper_ascii a) (toUpperCase r)
  end.

(** [livePrices[ticker]] on the price map, an object keyed by ticker. *)
Fixpoint lookup (k : string) (m : list (string * Q)) : option Q :=
  match m with
  | [] => None
  | (k', v) :: r => if String.eqb k' k then Some v else lookup k r
  end.

(** [[...new Set(l)]]: the distinct elements in order of first
    occurrence. *)
Fixpoint uniq (seen : list string) (l : list string) : list string :=
  match l with
  | [] => []
  | s :: r =>
      if existsb (String.eqb s) seen then uniq seen r
      else s :: uniq (s :: seen) r
  end.

Definition sumQ {A : Type} (f : A -> Q) (l : list A) : Q :=
  fold_left (fun s x => (s + f x)%Q) l 0%Q.

(** [v ? f(v) : null] on a value that is a number or [null]: zero is
    falsy as well. *)
Definition whenTruthy (v : option Q) (f : Q -> Q) : option Q :=
  match v with
  | Some x => if truthy x then Some (f x) else None
  | None => None
  end.

(** The fields of a comparison row that do not involve percentages or
    holding days. *)
Record Comparison : Type := mkComparison {
  cmp_ticker : string;
  totalShares : Q;
  currentShares : Q;
  totalCost : Q;
  mktPrice : option Q;
  netPremium : Q;
  grossPremium : Q;
  assignedShares : Q;
  assignmentProceeds : Q;
  buyHoldReturn : option Q;
  ccReturn : option Q;
  alpha : option Q
}.

Definition isAssigned (c : Call.t) : bool :=
  Status_eqb (Call.status c) StAssigned.

Definition comparison (positions : list Position.t) (calls : list Call.t)
           (livePrices : list (string * Q)) (ticker : string) : Comparison :=
  let positions :=
    filter (fun p => String.eqb (toUpperCase (Position.ticker p)) ticker)
           positions in
  let totalShares := sumQ Position.shares positions in
  let totalCost :=
    sumQ (fun p => Position.costBasis p * Position.shares p)%Q positions in
  let mktPrice := whenTruthy (lookup ticker livePrices) (fun v => v) in
  let tickerCalls :=
    filter (fun c => String.eqb (toUpperCase (Call.ticker c)) ticker) calls in
  let grossPremium := sumQ grossPrem tickerCalls in
  let closeCosts := sumQ closeCostOf tickerCalls in
  let netPremium := (grossPremium - closeCosts)%Q in
  let assignedShares :=
    sumQ (fun c => Call.contracts c * 100)%Q (filter isAssigned tickerCalls) in
  let currentShares := (totalShares - assignedShares)%Q in
  let assignmentProceeds :=
    sumQ (fun c => Call.strike c * Call.contracts c * 100)%Q
         (filter isAssigned tickerCalls) in
  let buyHoldValue := whenTruthy mktPrice (fun v => totalShares * v)%Q in
  let buyHoldReturn := whenTruthy buyHoldValue (fun v => v - totalCost)%Q in
  let ccValue :=
    whenTruthy mktPrice
      (fun v => currentShares * v + assignmentProceeds + netPremium)%Q in
  let ccReturn := whenTruthy ccValue (fun v => v - totalCost)%Q in
  let alpha :=
    match ccReturn, buyHoldReturn with
    | Some cc, Some bh => Some (cc - bh)%Q
    | _, _ => None
    end in
  mkComparison ticker totalShares currentShares totalCost mktPrice netPremium
               grossPremium assignedShares assignmentProceeds buyHoldReturn
               ccReturn alpha.

Definition tickers (positions : list Position.t) : list string :=
  uniq [] (map (fun p => toUpperCase (Position.ticker p)) positions).

Definition comparisons (positions : list Position.t) (calls : list Call.t)
           (livePrices : list (string * Q)) : list Comparison :=
  map (comparison positions calls livePrices) (tickers positions).

(** ** Trade post-mortem (lines 1692-1733) *)

(** The verdict strings "Full Win", "Assigned", "Partial Win", "Loss"
    and the empty string an open call is left with. *)
Inductive Verdict : Set := FullWin | Assigned | PartialWin | Loss | NoVerdict.

(** Which of the insight texts is chosen; the wording is presentation. *)
Inductive Insight : Set :=
| ExpiredWorthless
| AssignedAboveBasis
| AssignedBelowBasis
| AssignedUnknownBasis
| ClosedEarly
| ClosedAtLoss
| NoInsight.

(** The post-mortem without [annualizedReturn] and [verdictColor]. *)
Record PostMortem : Type := mkPostMortem {
  pm_gross : Q;
  pm_closeCost : Q;
  pm_net : Q;
  pm_held : option Z;
  premiumRetained : Q;
  verdict : Verdict;
  insight : Insight;
  pm_costBasis : option Q
}.

(** [positions.find(p => p.ticker.toUpperCase() === c.ticker.toUpperCase())] *)
Definition findPosition (positions : list Position.t) (c : Call.t)
  : option Position.t :=
  find (fun p => String.eqb (toUpperCase (Position.ticker p))
                            (toUpperCase (Call.ticker c)))
       positions.

(** [costBasis && x] as a condition: the cost basis is neither [null]
    nor zero. *)
Definition basisTruthy (cb : option Q) : bool :=
  match cb with
  | Some v => truthy v
  | None => false
  end.

Definition getPostMortem (clk : Clock) (positions : list Position.t)
           (c : Call.t) : PostMortem :=
  let gross := grossPrem c in
  let closeCost := closeCostOf c in
  let net := (gross - closeCost)%Q in
  let held := daysBetween clk (Call.dateOpened c)
                          (orElse (Call.dateClosed c) (Call.expiration c)) in
  let premiumRetained :=
    if Qltb 0 gross then (net / gross * 100)%Q else 0%Q in
  let costBasis := option_map Position.costBasis (findPosition positions c) in
  let outcome :=
    match Call.status c with
    | StExpired => (FullWin, ExpiredWorthless)
    | StAssigned =>
        (Assigned,
         match costBasis with
         | Some cb =>
             if truthy cb && Qle_bool cb (Call.strike c)
             then AssignedAboveBasis
             else if truthy cb then AssignedBelowBasis
             else AssignedUnknownBasis
         | None => AssignedUnknownBasis
         end)
    | StClosed =>
        if Qltb 0 net then (PartialWin, ClosedEarly) else (Loss, ClosedAtLoss)
    | StOpen => (NoVerdict, NoInsight)
    end in
  mkPostMortem gross closeCost net held premiumRetained (fst outcome)
               (snd outcome) costBasis.

(** ** Calendar dates as the specification reads them

    These definitions are not taken from the code: they say what a
    well-formed date string is and which day it names, so that the
    code's date arithmetic can be compared against them. *)

Definition two_digits (a b : ascii) : option Z :=
  match digit a, digit b with
  | Some x, Some y => Some (10 * x + y)%Z
  | _, _ => None
  end.

Definition four_digits (a b c d : ascii) : option Z :=
  match two_digits a b, two_digits c d with
  | Some x, Some y => Some (100 * x + y)%Z
  | _, _ => None
  end.

(** Year, month and day of a string of the shape YYYY-MM-DD. *)
Definition civil_of_string (s : string) : option (Z * Z * Z) :=
  match s with
  | String y1 (String y2 (String y3 (String y4 (String s1
      (String m1 (String m2 (String s2 (String d1 (String d2
        EmptyString))))))))) =>
      if Ascii.eqb s1 "-" && Ascii.eqb s2 "-" then
        match four_digits y1 y2 y3 y4, two_digits m1 m2, two_digits d1 d2 with
        | Some y, Some m, Some d => Some (y, m, d)
        | _, _, _ => None
        end
      else None
  | _ => None
  end.

Definition daysInMonth (y m : Z) : Z :=
  if (m =? 2)%Z then (if InLeapYear y then 29 else 28)%Z
  else if ((m =? 4) || (m =? 6) || (m =? 9) || (m =? 11))%Z then 30%Z
  else 31%Z.

(** A day that exists in the calendar.  Years below 100 are left out:
    [new Date] reads them as 1900 + year. *)
Definition validCivil (y m d : Z) : bool :=
  ((100 <=? y) && (1 <=? m) && (m <=? 12) && (1 <=? d)
   && (d <=? daysInMonth y m))%Z.

Definition isCalendarDate (s : string) : bool :=
  match civil_of_string s with
  | Some (y, m, d) => validCivil y m d
  | None => false
  end.

(** The number of the day (y, m, d), counted from 1 January 1970. *)
Definition dayNumber (y m d : Z) : Z :=
  (DayFromYear y + monthStart (InLeapYear y) (m - 1) + d - 1)%Z.

Definition dayOf (s : string) : Z :=
  match civil_of_string s with
  | Some (y, m, d) => dayNumber y m d
  | None => 0%Z
  end.

(** The day after (y, m, d). *)
Definition nextDay (y m d : Z) : Z * Z * Z :=
  if (d <? daysInMonth y m)%Z then (y, m, d + 1)%Z
  else if (m <? 12)%Z then (y, m + 1, 1)%Z
  else (y + 1, 1, 1)%Z.

(** The shape of a well-formed date string, digit by digit. *)
Inductive DateShape : string -> Z -> Z -> Z -> Prop :=
| date_shape (y1 y2 y3 y4 m1 m2 d1 d2 : ascii) (a b c d e f g h : Z) :
    digit y1 = Some a -> digit y2 = Some b ->
    digit y3 = Some c -> digit y4 = Some d ->
    digit m1 = Some e -> digit m2 = Some f ->
    digit d1 = Some g -> digit d2 = Some h ->
    DateShape
      (String y1 (String y2 (String y3 (String y4 (String "-"
        (String m1 (String m2 (String "-" (String d1 (String d2
          EmptyString))))))))))
      (100 * (10 * a + b) + (10 * c + d))%Z (10 * e + f)%Z (10 * g + h)%Z.

(** ** Quantities the specification names *)

(** The close date of a call as the specification reads it: the date
    the call carries, and today's date when it carries none. *)
Definition closeOrToday (clk : Clock) (c : Call.t) : string :=
  if String.eqb (Call.dateClosed c) "" then today clk else Call.dateClosed c.

(** A date string that is there but has fewer than three parts between
    dashes, such as 01/15/2025 or 20250115. *)
Definition lacksParts (s : string) : bool :=
  nonEmpty s && (List.length (split_dash s) <? 3)%nat.

(** The first position of the list on the ticker of a call, letter case
    set aside: the positions before it are on other tickers. *)
Definition firstOnTicker (positions : list Position.t) (c : Call.t)
           (p : Position.t) : Prop :=
  exists before after,
    positions = (before ++ p :: after)%list
    /\ toUpperCase (Position.ticker p) = toUpperCase (Call.ticker c)
    /\ forall q, In q before ->
                 toUpperCase (Position.ticker q) <> toUpperCase (Call.ticker c).

(** The open dates that are present, as [annualizedYield] collects them. *)
Definition openDates (calls : list Call.t) : list string :=
  filter nonEmpty (map Call.dateOpened calls).

(** What a call adds to [totalPremiumCollected]. *)
Definition collected (c : Call.t) : Q :=
  match Call.status c with
  | StClosed => netPrem c
  | StOpen => 0%Q
  | _ => grossPrem c
  end.

(** The realized premium of a call as the specification words it: its
    net premium once it is closed, expired or assigned, nothing while it
    is open. *)
Definition realized (c : Call.t) : Q :=
  if isOpen c then 0%Q else netPrem c.

(** Premium retained as the specification words it: net / gross x 100,
    and 0 when gross is 0. *)
Definition retainedWhenNonzero (c : Call.t) : Q :=
  if Qeq_bool (grossPrem c) 0 then 0%Q
  else (netPrem c / grossPrem c * 100)%Q.

(** ** Sample records *)

Definition sampleClock : Clock := mkClock "2024-06-01" (19875 * msPerDay + 1).

(** A call bought back at 1.50 a share. *)
Definition closedCall : Call.t :=
  Call.mk 1 "XYZ" 55 2 1 "2024-01-05" "2024-02-02" StClosed "2024-01-20"
          (Some (3 # 2)) None None.

(** A closed call whose two totals are overridden with zero. *)
Definition zeroOverrideCall : Call.t :=
  Call.mk 2 "XYZ" 55 2 1 "2024-01-05" "2024-02-02" StClosed "2024-01-20"
          (Some (3 # 2)) (Some 0%Q) (Some 0%Q).

(** An expired call that carries a total close cost of 50. *)
Definition expiredWithCloseCost : Call.t :=
  Call.mk 3 "XYZ" 55 2 1 "2024-01-05" "2024-02-02" StExpired "2024-02-02"
          None None (Some 50%Q).

(** One hundred shares bought at 50, a call on them bought back at a
    loss of 100, and a market price of 1. *)
Definition heldPosition : Position.t :=
  Position.mk 10 "XYZ" 100 50 "2024-01-01".

Definition losingCall : Call.t :=
  Call.mk 11 "XYZ" 55 1 1 "2024-01-05" "2024-02-02" StClosed "2024-01-20"
          (Some 2%Q) None None.

Definition lowPrices : list (string * Q) := [("XYZ", 1%Q)].

(** The comparator example of the specification: 100 shares that cost
    5000, a market price of 60 and an expired call that brought 300. *)
Definition expiredCall300 : Call.t :=
  Call.mk 12 "XYZ" 55 3 1 "2024-01-05" "2024-02-02" StExpired "2024-02-02"
          None None None.

Definition prices60 : list (string * Q) := [("XYZ", 60%Q)].

(** Calls whose close date is no calendar date. *)
Definition callClosedOn (i : Z) (closedOn : string) : Call.t :=
  Call.mk i "XYZ" 55 2 1 "2024-01-05" "2024-02-02" StExpired closedOn
          None None None.

(** Calls opened on 1 January 2023 and closed 365 and 366 days later. *)
Definition heldFor (i : Z) (closedOn : string) : Call.t :=
  Call.mk i "XYZ" 55 2 1 "2023-01-01" "2024-01-19" StClosed closedOn
          (Some 1%Q) None None.

(** The wash-sale example: call A closed on 10 January 2024 at a net
    premium of -50, and a second call on the same ticker. *)
Definition callA : Call.t :=
  Call.mk 30 "XYZ" 55 1 1 "2024-01-02" "2024-01-19" StClosed "2024-01-10"
          (Some (3 # 2)) None None.

Definition callB (openedOn : string) : Call.t :=
  Call.mk 31 "XYZ" 60 1 1 openedOn "2024-03-15" StOpen "" None None None.

(** Call A without a close date. *)
Definition callAUndated : Call.t :=
  Call.mk 32 "XYZ" 55 1 1 "2024-01-02" "2024-01-19" StClosed ""
          (Some (3 # 2)) None None.

(** A call opened 73 days before the day of [sampleClock]. *)
Definition callOpened73 : Call.t :=
  Call.mk 50 "XYZ" 55 10 1 "2024-03-20" "2024-04-19" StExpired "2024-04-19"
          None None None.

Definition position10000 : Position.t :=
  Position.mk 51 "XYZ" 100 100 "2024-01-01".

(** The post-mortem scenario of the specification. *)
Definition positionXYZ : Position.t :=
  Position.mk 60 "XYZ" 100 50 "2024-01-01".

Definition callXYZ : Call.t :=
  Call.mk 61 "XYZ" 55 2 1 "2024-01-05" "2024-02-02" StExpired "" None None None.

(** Calls on xyz, written in lower case, that were assigned at a given
    strike, and a second lot of XYZ bought at 70. *)
Definition assignedAt (strike : Q) : Call.t :=
  Call.mk 63 "xyz" strike 2 1 "2024-01-05" "2024-02-02" StAssigned "2024-02-02"
          None None None.

Definition positionABC : Position.t :=
  Position.mk 64 "ABC" 100 20 "2024-01-01".

Definition secondLotXYZ : Position.t :=
  Position.mk 65 "XYZ" 100 70 "2024-01-15".

(** An expired call booked with a total premium of -100. *)
Definition negativeGrossCall : Call.t :=
  Call.mk 62 "XYZ" 55 2 1 "2024-01-05" "2024-02-02" StExpired "2024-02-02"
          None (Some (-100)%Q) None.

(** * Further parts of the dashboard *)

(** Whether an optional value is there; for a bucket key, whether the
    call is filed or skipped. *)
Definition filed {A : Type} (o : option A) : bool :=
  match o with
  | Some _ => true
  | None => false
  end.

(** ** Concentration and capital utilization (lines 606-632) *)

Inductive Level : Set := High | Medium.

(** An entry of [grouped]: the ticker as first written and the value
    added up so far. *)
Record Group : Type := mkGroup { g_ticker : string; g_value : Q }.

(** An entry of the result's [positions]. *)
Record Share : Type := mkShare { sh_ticker : string; sh_value : Q; pct : Q }.

(** [if (!grouped[t]) grouped[t] = { ticker, value: 0 };
    grouped[t].value += v] on an object kept in insertion order. *)
Fixpoint addToGroup (t ticker : string) (v : Q) (grouped : list (string * Group))
  : list (string * Group) :=
  match grouped with
  | [] => [(t, mkGroup ticker (0 + v))]
  | (k, g) :: r =>
      if String.eqb k t then (k, mkGroup (g_ticker g) (g_value g + v)) :: r
      else (k, g) :: addToGroup t ticker v r
  end.

Definition groupStep (grouped : list (string * Group)) (p : Position.t)
  : list (string * Group) :=
  addToGroup (toUpperCase (Position.ticker p)) (Position.ticker p)
             (Position.costBasis p * Position.shares p) grouped.

(** Whether a property key is an array index: the canonical decimal form
    of an integer from 0 to 2^32 - 2. *)
Definition arrayIndex (s : string) : option Z :=
  match s with
  | EmptyString => None
  | String a r =>
      if Ascii.eqb a "0" && nonEmpty r then None
      else match digitsValue 0 s with
           | Some n => if (n <=? 4294967294)%Z then Some n else None
           | None => None
           end
  end.

Fixpoint insert_index {V : Type} (e : Z * V) (l : list (Z * V)) : list (Z * V) :=
  match l with
  | [] => [e]
  | h :: t => if (fst e <=? fst h)%Z then e :: l else h :: insert_index e t
  end.

Fixpoint indexed {V : Type} (m : list (string * V)) : list (Z * V) :=
  match m with
  | [] => []
  | (k, v) :: r =>
      match arrayIndex k with
      | Some n => (n, v) :: indexed r
      | None => indexed r
      end
  end.

(** [Object.values(m)]: the values under array-index keys in ascending
    order of the index, then the others in insertion order. *)
Definition Object_values {V : Type} (m : list (string * V)) : list V :=
  (map snd (fold_right insert_index [] (indexed m))
   ++ map snd (filter (fun e => negb (filed (arrayIndex (fst e)))) m))%list.

Definition withPct (total : Q) (g : Group) : Share :=
  mkShare (g_ticker g) (g_value g)
          (if Qltb 0 total then (g_value g / total)%Q else 0%Q).

(** [sort((a, b) => b.pct - a.pct)], a stable sort. *)
Fixpoint insert_share (e : Share) (l : list Share) : list Share :=
  match l with
  | [] => [e]
  | h :: t =>
      if Qle_bool (pct h - pct e) 0 then e :: l else h :: insert_share e t
  end.

(** The result of the memo.  In the branch for no positions the object
    has neither [utilizationPct] nor [coveredCount] nor [totalUnique];
    the warning is kept as its level and the ticker it names. *)
Record Concentration : Type := mkConcentration {
  conc_positions : list Share;
  maxPct : Q;
  utilizationPct : option Q;
  coveredCount : option nat;
  totalUnique : option nat;
  warning : option (Level * string)
}.

Definition hasOpenCall (calls : list Call.t) (t : string) : bool :=
  existsb (fun c => isOpen c && String.eqb (toUpperCase (Call.ticker c)) t) calls.

Definition concentration_of (activePositions : list Position.t) (total : Q)
           (calls : list Call.t) : Concentration :=
  match activePositions with
  | [] => mkConcentration [] 0 None None None None
  | _ =>
      let grouped := fold_left groupStep activePositions [] in
      let positions :=
        fold_right insert_share [] (map (withPct total) (Object_values grouped)) in
      let maxPct :=
        match positions with
        | first :: _ => if truthy (pct first) then pct first else 0%Q
        | [] => 0%Q
        end in
      let uniqueTickers := tickers activePositions in
      let coveredCount := List.length (filter (hasOpenCall calls) uniqueTickers) in
      let utilizationPct :=
        if (0 <? List.length uniqueTickers)%nat
        then (inject_Z (Z.of_nat coveredCount)
              / inject_Z (Z.of_nat (List.length uniqueTickers)))%Q
        else 0%Q in
      let warning :=
        match positions with
        | first :: _ =>
            if Qltb (6 # 10) maxPct then Some (High, sh_ticker first)
            else if Qltb (4 # 10) maxPct then Some (Medium, sh_ticker first)
            else None
        | [] => None
        end in
      mkConcentration positions maxPct (Some utilizationPct) (Some coveredCount)
                      (Some (List.length uniqueTickers)) warning
  end.

Definition concentration (positions : list Position.t) (calls : list Call.t)
  : Concentration :=
  concentration_of positions (totalCapitalDeployed positions) calls.

(** ** Position rows (lines 808-814 and 990-996) *)

(** [data.calls.filter((c) => c.ticker === p.ticker)]: the tickers are
    compared as written. *)
Definition positionCalls (calls : list Call.t) (p : Position.t) : list Call.t :=
  filter (fun c => String.eqb (Call.ticker c) (Position.ticker p)) calls.

Definition pOpen (calls : list Call.t) (p : Position.t) : nat :=
  List.length (filter isOpen (positionCalls calls p)).

Definition earned (calls : list Call.t) (p : Position.t) : Q :=
  fold_left (fun s c => let net := netPrem c in (s + net)%Q)
            (filter (fun c => negb (isOpen c)) (positionCalls calls p)) 0%Q.

Definition effectiveBasis (calls : list Call.t) (p : Position.t) : Q :=
  if Qltb 0 (Position.shares p)
  then ((Position.costBasis p * Position.shares p - earned calls p)
        / Position.shares p)%Q
  else Position.costBasis p.

(** ** Open calls: expiry and assignment risk (lines 896-909) *)

Definition leNaN (n : option Z) (k : Z) : bool :=
  match n with
  | Some v => (v <=? k)%Z
  | None => false
  end.

Definition dte (clk : Clock) (c : Call.t) : option Z :=
  daysBetween clk (today clk) (Call.expiration c).

Definition expired (clk : Clock) (c : Call.t) : bool := leNaN (dte clk c) 0.

(** [livePrices[c.ticker] || c.currentPrice || null]; [currentPrice] is
    a field of the stored call that [Call.t] does not carry and is
    passed beside it. *)
Definition openCallPrice (livePrices : list (string * Q))
           (currentPrice : option Q) (c : Call.t) : option Q :=
  match whenTruthy (lookup (Call.ticker c) livePrices) (fun v => v) with
  | Some v => Some v
  | None => whenTruthy currentPrice (fun v => v)
  end.

(** [mktPrice && c.strike ? ((c.strike - mktPrice) / mktPrice) * 100 : null],
    the quotient taken exactly; the code's value is the double next to
    it. *)
Definition distancePct (mktPrice : option Q) (strike : Q) : option Q :=
  match mktPrice with
  | Some p =>
      if truthy p && truthy strike then Some ((strike - p) / p * 100)%Q
      else None
  | None => None
  end.

Inductive RiskLevel : Set :=
  RiskUnknown | RiskItm | RiskHigh | RiskMedium | RiskLow.

Definition riskLevel (distance : option Q) : RiskLevel :=
  match distance with
  | None => RiskUnknown
  | Some d =>
      if Qltb d 0 then RiskItm
      else if Qltb d 2 then RiskHigh
      else if Qltb d 5 then RiskMedium
      else RiskLow
  end.

Definition openCallRisk (livePrices : list (string * Q))
           (currentPrice : option Q) (c : Call.t) : RiskLevel :=
  riskLevel (distancePct (openCallPrice livePrices currentPrice c)
                         (Call.strike c)).

(** ** The snapshot and its mutators (lines 442-499 and 1659-1663)

    Every mutator builds the next snapshot from [data], the snapshot of
    the current render, and hands it to [save].  A watchlist entry or an
    event is kept as its id and the rest of its fields. *)

Module Snapshot.
Record t (W E : Type) : Type := mk {
  positions : list Position.t;
  calls : list Call.t;
  watchlist : list (Z * W);
  events : list (Z * E);
  nextId : Z
}.
Arguments mk {W E}.
Arguments positions {W E}.
Arguments calls {W E}.
Arguments watchlist {W E}.
Arguments events {W E}.
Arguments nextId {W E}.
End Snapshot.

(** [{ ...pos, id }] and [{ ...call, id }] *)
Definition Position_withId (i : Z) (p : Position.t) : Position.t :=
  Position.mk i (Position.ticker p) (Position.shares p) (Position.costBasis p)
              (Position.dateAcquired p).

Definition Call_withId (i : Z) (c : Call.t) : Call.t :=
  Call.mk i (Call.ticker c) (Call.strike c) (Call.premium c) (Call.contracts c)
          (Call.dateOpened c) (Call.expiration c) (Call.status c)
          (Call.dateClosed c) (Call.closePrice c) (Call.totalPremium c)
          (Call.totalCloseCost c).

Definition Call_withStatus (st : Status) (c : Call.t) : Call.t :=
  Call.mk (Call.id c) (Call.ticker c) (Call.strike c) (Call.premium c)
          (Call.contracts c) (Call.dateOpened c) (Call.expiration c) st
          (Call.dateClosed c) (Call.closePrice c) (Call.totalPremium c)
          (Call.totalCloseCost c).

(** [{ ...c, status: action, dateClosed, closePrice }] *)
Definition Call_closed (action : Status) (closedOn : string) (price : Q)
           (c : Call.t) : Call.t :=
  Call.mk (Call.id c) (Call.ticker c) (Call.strike c) (Call.premium c)
          (Call.contracts c) (Call.dateOpened c) (Call.expiration c) action
          closedOn (Some price) (Call.totalPremium c) (Call.totalCloseCost c).

Section Mutators.

Context {W E : Type}.
Local Abbreviation Data := (Snapshot.t W E).

Definition addPosition (data : Data) (pos : Position.t) : Data :=
  let id := Snapshot.nextId data in
  Snapshot.mk (Snapshot.positions data ++ [Position_withId id pos])%list
              (Snapshot.calls data) (Snapshot.watchlist data)
              (Snapshot.events data) (id + 1)%Z.

(** [updates] stands for the spread [{ ...p, ...updates }]. *)
Definition updatePosition (data : Data) (id : Z)
           (updates : Position.t -> Position.t) : Data :=
  Snapshot.mk (map (fun p => if (Position.id p =? id)%Z then updates p else p)
                   (Snapshot.positions data))
              (Snapshot.calls data) (Snapshot.watchlist data)
              (Snapshot.events data) (Snapshot.nextId data).

Definition removePosition (data : Data) (id : Z) : Data :=
  Snapshot.mk (filter (fun p => negb (Position.id p =? id)%Z)
                      (Snapshot.positions data))
              (Snapshot.calls data) (Snapshot.watchlist data)
              (Snapshot.events data) (Snapshot.nextId data).

Definition addCall (data : Data) (call : Call.t) : Data :=
  let id := Snapshot.nextId data in
  Snapshot.mk (Snapshot.positions data)
              (Snapshot.calls data
               ++ [Call_withStatus StOpen (Call_withId id call)])%list
              (Snapshot.watchlist data) (Snapshot.events data) (id + 1)%Z.

Definition addPastCall (data : Data) (call : Call.t) : Data :=
  let id := Snapshot.nextId data in
  Snapshot.mk (Snapshot.positions data)
              (Snapshot.calls data ++ [Call_withId id call])%list
              (Snapshot.watchlist data) (Snapshot.events data) (id + 1)%Z.

Definition updateCall (data : Data) (id : Z) (updates : Call.t -> Call.t)
  : Data :=
  Snapshot.mk (Snapshot.positions data)
              (map (fun c => if (Call.id c =? id)%Z then updates c else c)
                   (Snapshot.calls data))
              (Snapshot.watchlist data) (Snapshot.events data)
              (Snapshot.nextId data).

(** [closePrice] is what [parseFloat] made of the argument, NaN being
    [None]. *)
Definition closeCall (clk : Clock) (data : Data) (id : Z) (action : Status)
           (closePrice : option Q) : Data :=
  Snapshot.mk (Snapshot.positions data)
              (map (fun c =>
                      if (Call.id c =? id)%Z
                      then Call_closed action (today clk) (orZero closePrice) c
                      else c)
                   (Snapshot.calls data))
              (Snapshot.watchlist data) (Snapshot.events data)
              (Snapshot.nextId data).

Definition addWatchlistItem (data : Data) (item : W) : Data :=
  let id := Snapshot.nextId data in
  Snapshot.mk (Snapshot.positions data) (Snapshot.calls data)
              (Snapshot.watchlist data ++ [(id, item)])%list
              (Snapshot.events data) (id + 1)%Z.

Definition removeWatchlistItem (data : Data) (id : Z) : Data :=
  Snapshot.mk (Snapshot.positions data) (Snapshot.calls data)
              (filter (fun w => negb (fst w =? id)%Z) (Snapshot.watchlist data))
              (Snapshot.events data) (Snapshot.nextId data).

Definition addEvent (data : Data) (event : E) : Data :=
  let id := Snapshot.nextId data in
  Snapshot.mk (Snapshot.positions data) (Snapshot.calls data)
              (Snapshot.watchlist data)
              (Snapshot.events data ++ [(id, event)])%list (id + 1)%Z.

Definition removeEvent (data : Data) (id : Z) : Data :=
  Snapshot.mk (Snapshot.positions data) (Snapshot.calls data)
              (Snapshot.watchlist data)
              (filter (fun e => negb (fst e =? id)%Z) (Snapshot.events data))
              (Snapshot.nextId data).

(** The roll handler: [closeCall(...)] and [addCall(newCall)] run one
    after the other in the same render, so both start from the same
    [data]; the result is the snapshots handed to [save], in order. *)
Definition onRoll (clk : Clock) (data : Data) (id : Z) (closePrice : option Q)
           (newCall : Call.t) : list Data :=
  [closeCall clk data id StClosed closePrice; addCall data newCall].

(** All identifiers of a snapshot. *)
Definition allIds (data : Data) : list Z :=
  (map Position.id (Snapshot.positions data)
   ++ map Call.id (Snapshot.calls data)
   ++ map fst (Snapshot.watchlist data)
   ++ map fst (Snapshot.events data))%list.

(** Identifiers are pairwise distinct and below the counter. *)
Definition idsFresh (data : Data) : Prop :=
  NoDup (allIds data) /\ forall i, In i (allIds data) -> (i < Snapshot.nextId data)%Z.

End Mutators.

(** ** The write-call calculator (lines 2248-2260) *)

Definition Math_ceil (x : Q) : Z := Qceiling x.

(** [Math.ceil((currentPrice * factor) * 2) / 2], the product taken
    exactly.  The code's product is a double, which can fall to either
    side of a half dollar that the exact product meets or comes within
    one part in 10^15 of. *)
Definition suggestedStrike (currentPrice factor : Q) : Q :=
  (inject_Z (Math_ceil (currentPrice * factor * 2)) / 2)%Q.

(** The suggestions as label and strike; [currentPrice] is what
    [parseFloat(form.currentPrice) || 0] gave. *)
Definition suggestedStrikes (currentPrice : Q) : list (string * Q) :=
  if Qltb 0 currentPrice then
    [ ("Conservative", suggestedStrike currentPrice (108 # 100));
      ("Moderate", suggestedStrike currentPrice (104 # 100));
      ("Aggressive", suggestedStrike currentPrice (101 # 100)) ]
  else [].

(** ** The volatility score (second variant, lines 2908-2922) *)

Definition Math_min (a b : Q) : Q := if Qle_bool a b then a else b.

Definition Math_abs (x : Q) : Q := if Qle_bool 0 x then x else (- x)%Q.

(** [x >= y] *)
Definition Qgeb (x y : Q) : bool := Qle_bool y x.

(** [x || d] on a number. *)
Definition orNumber (x d : Q) : Q := if truthy x then x else d.

(** The fields are numbers, as [enrichFromFMP] passes them;
    [daysToEarnings] is [None] for [null]. *)
Definition computeVolScore (price yearHigh yearLow beta move30dPct volume
                            avgVolume : Q) (daysToEarnings : option Q) : Z :=
  let rangePct :=
    if Qltb 0 price then ((yearHigh - yearLow) / price * 100)%Q else 0%Q in
  let rangeScore := Math_min 25 (rangePct * (25 # 100)) in
  let absMov := Math_abs (orNumber move30dPct 0) in
  let momentumScore := Math_min 20 (absMov * (67 # 100)) in
  let b := orNumber beta 1 in
  let betaScore : Q :=
    if Qgeb b 2 then 20 else if Qgeb b (15 # 10) then 16
    else if Qgeb b (12 # 10) then 12 else if Qgeb b 1 then 8
    else if Qgeb b (7 # 10) then 4 else 2 in
  let catalystScore : Q :=
    match daysToEarnings with
    | Some d =>
        if Qgeb d 0 then
          if Qle_bool d 3 then 20 else if Qle_bool d 7 then 16
          else if Qle_bool d 14 then 12 else if Qle_bool d 30 then 6 else 0
        else 0
    | None => 0
    end in
  let volRatio := if Qltb 0 avgVolume then (volume / avgVolume)%Q else 1%Q in
  let volumeScore : Q :=
    if Qgeb volRatio 3 then 15 else if Qgeb volRatio 2 then 12
    else if Qgeb volRatio (15 # 10) then 9 else if Qgeb volRatio 1 then 5
    else 2 in
  Math_round (rangeScore + momentumScore + betaScore + catalystScore
              + volumeScore).

(** ** The household code on the client (lines 295-301 and 330) *)

Definition lower_ascii (a : ascii) : ascii :=
  let n := N_of_ascii a in
  if ((65 <=? n) && (n <=? 90))%N then ascii_of_N (n + 32) else a.

Fixpoint toLowerCase (s : string) : string :=
  match s with
  | EmptyString => EmptyString
  | String a r => String (lower_ascii a) (toLowerCase r)
  end.

(** The class [[a-z0-9-]] *)
Definition codeChar (a : ascii) : bool :=
  let n := N_of_ascii a in
  (((97 <=? n) && (n <=? 122)) || ((48 <=? n) && (n <=? 57)) || (n =? 45))%N.

(** [replace(/[^a-z0-9-]/g, "")] *)
Fixpoint keepCodeChars (s : string) : string :=
  match s with
  | EmptyString => EmptyString
  | String a r =>
      if codeChar a then String a (keepCodeChars r) else keepCodeChars r
  end.

(** The [onChange] of the code input: the text of the box becomes
    [codeInput]. *)
Definition onCodeChange (value : string) : string :=
  keepCodeChars (toLowerCase value).

(** [handleJoin]: the household code that is set, [None] when the handler
    returns without joining. *)
Definition handleJoin (codeInput : string) : option string :=
  let code := toLowerCase (trim codeInput) in
  if (String.length code <? 2)%nat then None else Some code.

(** ** The storage endpoint (unnamed/part_000) *)

Inductive Method : Set := GET | POST | OtherMethod.

(** A value of the request as far as the handler looks at it: a string,
    or something else ([undefined], [null], a number, an array), which is
    truthy or not. *)
Inductive Value : Set := Str (s : string) | NotStr (isTruthy : bool).

Definition undefined : Value := NotStr false.

Definition valueTruthy (v : Value) : bool :=
  match v with
  | Str s => nonEmpty s
  | NotStr b => b
  end.

(** [a || b] *)
Definition orValue (a b : Value) : Value := if valueTruthy a then a else b.

(** [req.body]: absent, or a value whose [code] and [data] properties
    read as given. [data] is [None] when the property is falsy. *)
Inductive Body (D : Type) : Type :=
  | NoBody
  | Fields (code : Value) (data : option D).
Arguments NoBody {D}.
Arguments Fields {D}.

Record Request (D : Type) : Type := mkRequest {
  method : Method;
  query_code : Value;
  body : Body D
}.
Arguments mkRequest {D}.
Arguments method {D}.
Arguments query_code {D}.
Arguments body {D}.

Inductive Payload (D : Type) : Type :=
  | Data (data : option D)
  | OkTrue
  | Error (error : string).
Arguments Data {D}.
Arguments OkTrue {D}.
Arguments Error {D}.

Record Response (D : Type) : Type := mkResponse {
  res_status : Z;
  res_json : Payload D
}.
Arguments mkResponse {D}.
Arguments res_status {D}.
Arguments res_json {D}.

(** [req.body?.code] *)
Definition body_code {D : Type} (b : Body D) : Value :=
  match b with
  | NoBody => undefined
  | Fields code _ => code
  end.

(** [req.query.code || req.body?.code] *)
Definition requestCode {D : Type} (req : Request D) : Value :=
  orValue (query_code req) (body_code (body req)).

(** The check on the code: [Some] of the code when it passes. *)
Definition acceptedCode (code : Value) : option string :=
  match code with
  | Str s =>
      if negb (nonEmpty s) || (String.length s <? 2)%nat
         || (50 <? String.length s)%nat
      then None else Some s
  | NotStr _ => None
  end.

Definition storageKey (code : string) : string :=
  "cc:" ++ trim (toLowerCase code).

(** [kv.set(key, data)] on the store, a map from keys to the truthy
    values kept under them. *)
Definition kv_set {D : Type} (key : string) (data : D)
           (kv : string -> option D) : string -> option D :=
  fun k => if String.eqb k key then Some data else kv k.

(** The handler on a store: the response and the store it leaves.  [up]
    is false when the call to the store throws. *)
Definition handler {D : Type} (up : bool) (kv : string -> option D)
           (req : Request D) : Response D * (string -> option D) :=
  match acceptedCode (requestCode req) with
  | None => (mkResponse 400 (Error "Invalid household code"), kv)
  | Some code =>
      let key := storageKey code in
      match method req with
      | GET =>
          if up then (mkResponse 200 (Data (kv key)), kv)
          else (mkResponse 500 (Error "Failed to read data"), kv)
      | POST =>
          match body req with
          | NoBody => (mkResponse 500 (Error "Failed to save data"), kv)
          | Fields _ None => (mkResponse 400 (Error "No data provided"), kv)
          | Fields _ (Some data) =>
              if up then (mkResponse 200 OkTrue, kv_set key data kv)
              else (mkResponse 500 (Error "Failed to save data"), kv)
          end
      | OtherMethod =>
          (mkResponse 405 (Error "Method not allowed"), kv)
      end
  end.

(** ** The client's requests (lines 265-292)

    The load is [GET /api/data?code=...]; the save posts the code and
    the snapshot as a JSON body. *)

Definition loadRequest {D : Type} (householdCode : string) : Request D :=
  mkRequest GET (Str householdCode) NoBody.

Definition saveRequest {D : Type} (householdCode : string) (newData : D)
  : Request D :=
  mkRequest POST undefined (Fields (Str householdCode) (Some newData)).

(** What the load makes of the answer: [if (json.data) setData(json.data)],
    [None] when the snapshot is left as it was. *)
Definition loaded {D : Type} (r : Response D) : option D :=
  match res_json r with
  | Data d => d
  | _ => None
  end.

(** ** Further sample records *)

(** Three calls for the time series: two closed out in January 2024 and
    one in February 2024. *)
Definition seriesCalls : list Call.t :=
  [ Call.mk 70 "XYZ" 55 2 1 "2024-01-02" "2024-01-19" StExpired "2024-01-19"
            None None None;
    Call.mk 71 "XYZ" 55 1 1 "2024-01-22" "2024-02-16" StClosed "2024-01-30"
            (Some (1 # 2)) None None;
    Call.mk 72 "ABC" 20 1 2 "2024-02-01" "2024-02-16" StAssigned "2024-02-16"
            None None None ].

(** Two tickers in three lots; the second lot of XYZ is written in lower
    case. *)
Definition mixedPositions : list Position.t :=
  [ Position.mk 80 "XYZ" 100 50 "2024-01-01";
    Position.mk 81 "ABC" 200 10 "2024-01-01";
    Position.mk 82 "xyz" 100 30 "2024-02-01" ].

Definition openCallOn (i : Z) (tk : string) : Call.t :=
  Call.mk i tk 60 1 1 "2024-05-20" "2024-06-21" StOpen "" None None None.

(** A snapshot with one position, one open call and one event. *)
Definition sampleData : Snapshot.t string string :=
  Snapshot.mk [Position.mk 1 "XYZ" 100 50 "2024-01-01"]
              [openCallOn 2 "XYZ"] [] [(3%Z, "earnings")] 4.

(** The call a roll opens in place of the sample call. *)
Definition rolledCall : Call.t :=
  Call.mk 0 "XYZ" 65 2 1 "2024-06-01" "2024-07-19" StOpen "" None None None.

(** * Properties *)

(** ** Arithmetic of days *)

Lemma Math_round_inject (n : Z) : Math_round (inject_Z n) = n.
Proof.
  unfold Math_round.
  assert (H : (inject_Z n <= inject_Z n + (1 # 2))%Q).
  { rewrite <- (Qplus_0_r (inject_Z n)) at 1.
    apply Qplus_le_r. discriminate. }
  assert (H' : (inject_Z n + (1 # 2) < inject_Z (n + 1))%Q).
  { rewrite inject_Z_plus. apply Qplus_lt_r. reflexivity. }
  apply Qfloor_resp_le in H. rewrite Qfloor_Z in H.
  pose proof (Qfloor_le (inject_Z n + (1 # 2))) as Hle.
  assert (Hlt : (inject_Z (Qfloor (inject_Z n + (1 # 2))) < inject_Z (n + 1))%Q).
  { eapply Qle_lt_trans; eauto. }
  rewrite <- Zlt_Qlt in Hlt. lia.
Qed.

Lemma Math_round_days (n : Z) :
  Math_round (inject_Z (n * msPerDay) / inject_Z msPerDay) = n.
Proof.
  assert (E : (inject_Z (n * msPerDay) / inject_Z msPerDay == inject_Z n)%Q).
  { rewrite inject_Z_mult. field. discriminate. }
  unfold Math_round. rewrite E. apply Math_round_inject.
Qed.

(** ** Reading a date string *)

Lemma digit_range (a : ascii) (k : Z) : digit a = Some k -> (0 <= k <= 9)%Z.
Proof.
  unfold digit.
  destruct (_ && _)%bool eqn:E; intros [= <-].
  apply andb_true_iff in E. destruct E as [E1 E2].
  apply Z.leb_le in E1. apply Z.leb_le in E2. lia.
Qed.

Lemma digit_not_dash (a : ascii) (k : Z) :
  digit a = Some k -> Ascii.eqb a "-" = false.
Proof.
  intros H. destruct (Ascii.eqb a "-") eqn:E; [|reflexivity].
  apply Ascii.eqb_eq in E. subst a. vm_compute in H. discriminate.
Qed.

Lemma civil_shape (s : string) (y m d : Z) :
  civil_of_string s = Some (y, m, d) -> DateShape s y m d.
Proof.
  unfold civil_of_string.
  do 10 (destruct s as [|? s]; [discriminate|]).
  destruct s; [|discriminate].
  destruct (Ascii.eqb a3 "-") eqn:E1; [|discriminate].
  destruct (Ascii.eqb a6 "-") eqn:E2; [|discriminate].
  apply Ascii.eqb_eq in E1. apply Ascii.eqb_eq in E2. subst a3 a6.
  unfold four_digits, two_digits. cbn [andb].
  destruct (digit a) eqn:D1; [|discriminate].
  destruct (digit a0) eqn:D2; [|discriminate].
  destruct (digit a1) eqn:D3; [|discriminate].
  destruct (digit a2) eqn:D4; [|discriminate].
  destruct (digit a4) eqn:D5; [|destruct (digit a5); discriminate].
  destruct (digit a5) eqn:D6; [|discriminate].
  destruct (digit a7) eqn:D7; [|destruct (digit a8); discriminate].
  destruct (digit a8) eqn:D8; [|discriminate].
  intros [= <- <- <-]. now constructor.
Qed.

(** Integers up to 2^53 are numbers of the code as they stand. *)
Lemma binary64_small (n : Z) :
  (Z.abs n <= 9007199254740992)%Z -> binary64 (inject_Z n) = Finite (inject_Z n).
Proof.
  intros H. unfold binary64, inject_Z. cbn [Qden Qnum].
  apply Z.leb_le in H. now rewrite Pos.eqb_refl, H.
Qed.

Lemma ToIntegerOrInfinity_Z (q : Q) (n : Z) :
  (q == inject_Z n)%Q -> ToIntegerOrInfinity q = n.
Proof.
  intros H. unfold ToIntegerOrInfinity. destruct (Qle_bool 0 q).
  - rewrite (Qfloor_comp _ _ H). apply Qfloor_Z.
  - rewrite (Qceiling_comp _ _ H). apply Qceiling_Z.
Qed.

Lemma sub1_small (m : Z) :
  (Z.abs (m - 1) <= 9007199254740992)%Z ->
  exists q, sub1 (Finite (inject_Z m)) = Finite q
            /\ ToIntegerOrInfinity q = (m - 1)%Z.
Proof.
  intros H. exists (inject_Z m - 1)%Q. split.
  - unfold sub1, binary64, inject_Z, Qminus, Qplus, Qopp. cbn [Qden Qnum].
    cbn [Pos.mul Pos.eqb andb].
    replace (Z.abs _ <=? _)%Z with true; [reflexivity|].
    symmetry. apply Z.leb_le. lia.
  - apply ToIntegerOrInfinity_Z. unfold Qeq, inject_Z, Qminus, Qplus, Qopp.
    cbn [Qden Qnum]. lia.
Qed.

Lemma split_shape (s : string) (y m d : Z) :
  DateShape s y m d ->
  map Number (split_dash s)
  = [Finite (inject_Z y); Finite (inject_Z m); Finite (inject_Z d)].
Proof.
  intros [y1 y2 y3 y4 m1 m2 d1 d2 a b c d' e f g h H1 H2 H3 H4 H5 H6 H7 H8].
  cbn [split_dash].
  rewrite (digit_not_dash _ _ H1), (digit_not_dash _ _ H2),
    (digit_not_dash _ _ H3), (digit_not_dash _ _ H4),
    (digit_not_dash _ _ H5), (digit_not_dash _ _ H6),
    (digit_not_dash _ _ H7), (digit_not_dash _ _ H8).
  change (Ascii.eqb "-" "-") with true. cbn iota.
  unfold Number. cbn [map digitsValue].
  rewrite H1, H2, H3, H4, H5, H6, H7, H8.
  apply digit_range in H1, H2, H3, H4, H5, H6, H7, H8.
  rewrite !binary64_small by lia.
  replace (10 * (10 * (10 * (10 * 0 + a) + b) + c) + d')%Z
    with (100 * (10 * a + b) + (10 * c + d'))%Z by lia.
  replace (10 * (10 * 0 + e) + f)%Z with (10 * e + f)%Z by lia.
  replace (10 * (10 * 0 + g) + h)%Z with (10 * g + h)%Z by lia.
  reflexivity.
Qed.

Lemma shape_nonempty (s : string) (y m d : Z) :
  DateShape s y m d -> nonEmpty s = true.
Proof. now intros []. Qed.

(** On a well-formed date no carry happens in [MakeDay], the year is
    taken as written and the time value is in range. *)
Lemma newDate_valid (y m d : Z) :
  validCivil y m d = true -> (y <= 9999)%Z ->
  newDate (Finite (inject_Z y)) (sub1 (Finite (inject_Z m)))
          (Finite (inject_Z d))
  = Some (dayNumber y m d * msPerDay)%Z.
Proof.
  unfold validCivil. intros V Hy.
  repeat (apply andb_true_iff in V; destruct V as [V ?]).
  repeat match goal with H : (_ <=? _)%Z = true |- _ => apply Z.leb_le in H end.
  destruct (sub1_small m) as (q & -> & Tq); [lia|].
  unfold newDate.
  rewrite Tq, (ToIntegerOrInfinity_Z (inject_Z y) y),
    (ToIntegerOrInfinity_Z (inject_Z d) d) by reflexivity.
  replace ((0 <=? y) && (y <=? 99))%Z with false
    by (symmetry; apply andb_false_iff; right; apply Z.leb_gt; lia).
  unfold MakeDay, dayNumber.
  replace ((m - 1) / 12)%Z with 0%Z by (symmetry; apply Z.div_small; lia).
  replace ((m - 1) mod 12)%Z with (m - 1)%Z by (symmetry; apply Z.mod_small; lia).
  rewrite Z.add_0_r.
  assert (B : (0 <= monthStart (InLeapYear y) (m - 1) <= 335)%Z).
  { unfold monthStart.
    repeat match goal with |- context [(?a =? ?b)%Z] => destruct (a =? b)%Z end;
      destruct (InLeapYear y); lia. }
  assert (Dm : (d <= 31)%Z).
  { unfold daysInMonth in *.
    repeat match goal with H : context [if ?b then _ else _] |- _ => destruct b end;
      lia. }
  unfold TimeClip.
  replace (Z.abs _ <=? _)%Z with true; [reflexivity|].
  symmetry. apply Z.leb_le. unfold DayFromYear, msPerDay in *.
  Z.to_euclidean_division_equations. lia.
Qed.


Lemma shape_year_bound (s : string) (y m d : Z) :
  DateShape s y m d -> (0 <= y <= 9999)%Z.
Proof.
  intros [y1 y2 y3 y4 m1 m2 d1 d2 a b c d' e f g h H1 H2 H3 H4 _ _ _ _].
  apply digit_range in H1, H2, H3, H4. lia.
Qed.

Lemma isCalendarDate_inv (s : string) :
  isCalendarDate s = true ->
  exists y m d,
    civil_of_string s = Some (y, m, d) /\ validCivil y m d = true.
Proof.
  unfold isCalendarDate.
  destruct (civil_of_string s) as [[[y m] d]|]; [|discriminate].
  intros V. now exists y, m, d.
Qed.

Lemma parseLocalDate_valid (clk : Clock) (s : string) :
  isCalendarDate s = true ->
  parseLocalDate clk s = Some (dayOf s * msPerDay)%Z.
Proof.
  intros V. destruct (isCalendarDate_inv s V) as (y & m & d & E & Vc).
  pose proof (civil_shape _ _ _ _ E) as Sh.
  unfold parseLocalDate, dayOf. rewrite E.
  pose proof (shape_nonempty _ _ _ _ Sh) as NE.
  destruct s as [|a0 s0]; [discriminate|].
  rewrite (split_shape _ _ _ _ Sh). cbn [component nth].
  apply newDate_valid; [assumption|].
  apply (shape_year_bound _ _ _ _ Sh).
Qed.

(** On well-formed dates [daysBetween] is the difference of the day
    numbers. *)
Lemma daysBetween_valid (clk : Clock) (a b : string) :
  isCalendarDate a = true -> isCalendarDate b = true ->
  daysBetween clk a b = Some (dayOf b - dayOf a)%Z.
Proof.
  intros Va Vb. unfold daysBetween.
  rewrite (parseLocalDate_valid clk a Va), (parseLocalDate_valid clk b Vb).
  rewrite <- Z.mul_sub_distr_r, Math_round_days. reflexivity.
Qed.

(** ** The day number counts calendar days *)

Lemma DayFromYear_succ (y : Z) :
  DayFromYear (y + 1) = (DayFromYear y + (if InLeapYear y then 366 else 365))%Z.
Proof.
  unfold DayFromYear, InLeapYear.
  destruct (Z.eqb_spec (y mod 4) 0); destruct (Z.eqb_spec (y mod 100) 0);
    destruct (Z.eqb_spec (y mod 400) 0); cbn [andb orb negb];
    Z.to_euclidean_division_equations; lia.
Qed.

Lemma DayFromYear_mono (y y' : Z) :
  (y <= y')%Z -> (DayFromYear y <= DayFromYear y')%Z.
Proof.
  intros H. unfold DayFromYear. Z.to_euclidean_division_equations. lia.
Qed.

Lemma validCivil_bounds (y m d : Z) :
  validCivil y m d = true ->
  (100 <= y /\ 1 <= m <= 12 /\ 1 <= d <= daysInMonth y m)%Z.
Proof.
  unfold validCivil. intros V.
  repeat (apply andb_true_iff in V; destruct V as [V ?]).
  repeat match goal with H : (_ <=? _)%Z = true |- _ => apply Z.leb_le in H end.
  lia.
Qed.

Ltac month_cases m :=
  let H := fresh in
  assert (H : (m = 1 \/ m = 2 \/ m = 3 \/ m = 4 \/ m = 5 \/ m = 6 \/ m = 7
               \/ m = 8 \/ m = 9 \/ m = 10 \/ m = 11 \/ m = 12)%Z) by lia;
  repeat (destruct H as [H|H]; [subst m|]); [..|subst m].

Lemma monthStart_next (y m : Z) :
  (1 <= m <= 11)%Z ->
  monthStart (InLeapYear y) m
  = (monthStart (InLeapYear y) (m - 1) + daysInMonth y m)%Z.
Proof.
  intros H. unfold daysInMonth.
  month_cases m; try lia; destruct (InLeapYear y); reflexivity.
Qed.

Lemma monthStart_last (y : Z) :
  (monthStart (InLeapYear y) 11 + daysInMonth y 12
   = if InLeapYear y then 366 else 365)%Z.
Proof. unfold daysInMonth. destruct (InLeapYear y); reflexivity. Qed.

Lemma monthStart_mono (l : bool) (m m' : Z) :
  (0 <= m <= m')%Z -> (m' <= 11)%Z -> (monthStart l m <= monthStart l m')%Z.
Proof.
  intros H H'.
  assert (E : exists k k', m = (k - 1)%Z /\ m' = (k' - 1)%Z
                           /\ (1 <= k <= 12)%Z /\ (1 <= k' <= 12)%Z).
  { exists (m + 1)%Z, (m' + 1)%Z. lia. }
  destruct E as (k & k' & -> & -> & Hk & Hk').
  month_cases k; month_cases k'; try lia; destruct l; cbn; lia.
Qed.

(** Stepping to the next calendar day adds one to the day number, and
    the count starts at 1 January 1970. *)
Lemma dayNumber_nextDay (y m d : Z) :
  validCivil y m d = true ->
  let '(y', m', d') := nextDay y m d in
  dayNumber y' m' d' = (dayNumber y m d + 1)%Z.
Proof.
  intros V. apply validCivil_bounds in V. destruct V as (Hy & Hm & Hd).
  unfold nextDay, dayNumber.
  destruct (Z.ltb_spec d (daysInMonth y m)); [lia|].
  destruct (Z.ltb_spec m 12).
  - replace (m + 1 - 1)%Z with m by lia.
    rewrite monthStart_next by lia. lia.
  - assert (m = 12%Z) by lia. subst m.
    rewrite DayFromYear_succ. pose proof (monthStart_last y) as L.
    change (12 - 1)%Z with 11%Z. change (1 - 1)%Z with 0%Z.
    change (monthStart (InLeapYear (y + 1)) 0) with 0%Z. lia.
Qed.

Lemma dayNumber_epoch : dayNumber 1970 1 1 = 0%Z.
Proof. reflexivity. Qed.

Lemma dayNumber_year_range (y m d : Z) :
  validCivil y m d = true ->
  (DayFromYear y <= dayNumber y m d < DayFromYear (y + 1))%Z.
Proof.
  intros V. apply validCivil_bounds in V. destruct V as (Hy & Hm & Hd).
  rewrite DayFromYear_succ. unfold dayNumber.
  pose proof (monthStart_mono (InLeapYear y) 0 (m - 1)) as L0.
  pose proof (monthStart_mono (InLeapYear y) (m - 1) 11) as L1.
  pose proof (monthStart_last y) as L.
  change (monthStart (InLeapYear y) 0) with 0%Z in L0.
  destruct (Z.eq_dec m 12) as [->|Hne].
  - change (12 - 1)%Z with 11%Z in *. lia.
  - pose proof (monthStart_next y m) as N.
    pose proof (monthStart_mono (InLeapYear y) m 11) as L2.
    assert (0 < daysInMonth y 12)%Z by (unfold daysInMonth; cbn; lia).
    lia.
Qed.

(** Dates in calendar order have day numbers in the same order. *)
Lemma dayNumber_mono (y m d y' m' d' : Z) :
  validCivil y m d = true -> validCivil y' m' d' = true ->
  (y < y' \/ (y = y' /\ (m < m' \/ (m = m' /\ d <= d'))))%Z ->
  (dayNumber y m d <= dayNumber y' m' d')%Z.
Proof.
  intros V V' [Hy|[-> [Hm|[-> Hd]]]].
  - pose proof (dayNumber_year_range _ _ _ V).
    pose proof (dayNumber_year_range _ _ _ V').
    pose proof (DayFromYear_mono (y + 1) y'). lia.
  - apply validCivil_bounds in V, V'.
    unfold dayNumber.
    pose proof (monthStart_next y' m).
    pose proof (monthStart_mono (InLeapYear y') m (m' - 1)). lia.
  - unfold dayNumber. lia.
Qed.

(** ** Code-unit order of date strings *)

Lemma ascii_compare_digit (a b : ascii) (x y : Z) :
  digit a = Some x -> digit b = Some y -> Ascii.compare a b = (x ?= y)%Z.
Proof.
  unfold digit, Ascii.compare.
  destruct (_ && _)%bool; [|discriminate]. intros [= <-].
  destruct (_ && _)%bool; [|discriminate]. intros [= <-].
  rewrite <- N2Z.inj_compare.
  destruct (Z.compare_spec (Z.of_N (N_of_ascii a)) (Z.of_N (N_of_ascii b)));
    symmetry;
    [apply Z.compare_eq_iff | apply Z.compare_lt_iff | apply Z.compare_gt_iff];
    lia.
Qed.

(** Two well-formed dates in code-unit order are in calendar order. *)
Lemma leb_dayOf (s t : string) :
  isCalendarDate s = true -> isCalendarDate t = true ->
  (s <=? t)%string = true -> (dayOf s <= dayOf t)%Z.
Proof.
  intros Vs Vt.
  destruct (isCalendarDate_inv s Vs) as (y & m & d & E & V).
  destruct (isCalendarDate_inv t Vt) as (y' & m' & d' & E' & V').
  unfold dayOf. rewrite E, E'.
  pose proof (civil_shape _ _ _ _ E) as Sh.
  pose proof (civil_shape _ _ _ _ E') as Sh'.
  clear E E' Vs Vt.
  destruct Sh as [y1 y2 y3 y4 m1 m2 d1 d2 a b c d0 e f g h
                     H1 H2 H3 H4 H5 H6 H7 H8].
  destruct Sh' as [z1 z2 z3 z4 n1 n2 e1 e2 a' b' c' d0' e' f' g' h'
                      K1 K2 K3 K4 K5 K6 K7 K8].
  unfold String.leb. cbn [String.compare].
  rewrite (ascii_compare_digit _ _ _ _ H1 K1), (ascii_compare_digit _ _ _ _ H2 K2),
    (ascii_compare_digit _ _ _ _ H3 K3), (ascii_compare_digit _ _ _ _ H4 K4),
    (ascii_compare_digit _ _ _ _ H5 K5), (ascii_compare_digit _ _ _ _ H6 K6),
    (ascii_compare_digit _ _ _ _ H7 K7), (ascii_compare_digit _ _ _ _ H8 K8).
  change (Ascii.compare "-" "-") with Eq. cbn iota.
  apply digit_range in H1, H2, H3, H4, H5, H6, H7, H8.
  apply digit_range in K1, K2, K3, K4, K5, K6, K7, K8.
  intros L. apply dayNumber_mono; try assumption.
  repeat match type of L with
         | context [(?x ?= ?y)%Z] => destruct (Z.compare_spec x y)
         end; try discriminate; lia.
Qed.

Lemma insert_sorted_not_nil (s : string) (l : list string) :
  insert_sorted s l <> [].
Proof. destruct l; cbn; [|destruct (_ <=? _)%string]; discriminate. Qed.

Lemma sort_nil (l : list string) : sort l = [] -> l = [].
Proof.
  destruct l; [reflexivity|]. cbn.
  intros H. now apply insert_sorted_not_nil in H.
Qed.

(** The first element of the sorted array of well-formed dates is a
    date of the array, and no date of the array is earlier. *)
Lemma sort_head_earliest (l : list string) (first : string) (rest : list string) :
  (forall s, In s l -> isCalendarDate s = true) ->
  sort l = first :: rest ->
  In first l /\ forall s, In s l -> (dayOf first <= dayOf s)%Z.
Proof.
  revert first rest. induction l as [|x l IH]; intros first rest V; [discriminate|].
  cbn [sort fold_right]. fold (sort l).
  assert (Vl : forall s, In s l -> isCalendarDate s = true)
    by (intros; apply V; now right).
  destruct (sort l) as [|h t] eqn:S.
  - apply sort_nil in S. subst l. cbn. intros [= <- <-].
    split; [now left|]. intros s [<-|[]]. lia.
  - destruct (IH h t Vl eq_refl) as [Hin Hmin].
    cbn [insert_sorted].
    destruct (x <=? h)%string eqn:L; intros [= <- <-].
    + split; [now left|].
      assert (dayOf x <= dayOf h)%Z
        by (apply leb_dayOf; auto; apply V; now left).
      intros s [<-|Hs]; [lia|]. specialize (Hmin s Hs). lia.
    + split; [now right|].
      assert (dayOf h <= dayOf x)%Z.
      { apply leb_dayOf; auto; [apply V; now left|].
        destruct (String.leb_total x h); congruence. }
      intros s [<-|Hs]; auto.
Qed.

(** ** Premium arithmetic *)

Lemma orZero_number (p : Q) : (orZero (Some p) == p)%Q.
Proof.
  unfold orZero, truthy.
  destruct (Qeq_bool p 0) eqn:E; cbn [negb]; [|reflexivity].
  apply Qeq_bool_eq in E. now symmetry.
Qed.

(** C1: gross premium is the totalPremium override when there is one and
    premium x contracts x 100 otherwise; close cost is the totalCloseCost
    override when there is one, otherwise closePrice x contracts x 100
    for a closed call and 0 for every other status; net premium is gross
    premium minus close cost. *)
Theorem premium_arithmetic (c : Call.t) :
  (forall t, Call.totalPremium c = Some t -> grossPrem c == t)%Q
  /\ (Call.totalPremium c = None ->
      grossPrem c == Call.premium c * Call.contracts c * 100)%Q
  /\ (forall t, Call.totalCloseCost c = Some t -> closeCostOf c == t)%Q
  /\ (forall p, Call.totalCloseCost c = None -> Call.status c = StClosed ->
      Call.closePrice c = Some p ->
      closeCostOf c == p * Call.contracts c * 100)%Q
  /\ (Call.totalCloseCost c = None -> Call.status c <> StClosed ->
      closeCostOf c == 0)%Q
  /\ (netPrem c == grossPrem c - closeCostOf c)%Q.
Proof.
  unfold netPrem, grossPrem, closeCostOf.
  refine (conj _ (conj _ (conj _ (conj _ (conj _ _))))).
  - intros t ->. reflexivity.
  - intros ->. reflexivity.
  - intros t ->. reflexivity.
  - intros p -> -> ->. now rewrite orZero_number.
  - intros -> H. destruct (Call.status c); try reflexivity. now elim H.
  - reflexivity.
Qed.

Lemma premium_arithmetic_witness :
  (closeCostOf closedCall == 150)%Q /\ (netPrem closedCall == 50)%Q.
Proof.
  destruct (premium_arithmetic closedCall) as (_ & G & _ & C & _ & N).
  split.
  - rewrite (C (3 # 2)); reflexivity.
  - rewrite N, G, (C (3 # 2)); reflexivity.
Defined.

(** A closed call without a close price costs nothing to close. *)
Lemma closeCostOf_no_price (c : Call.t) :
  Call.totalCloseCost c = None -> Call.closePrice c = None ->
  (closeCostOf c == 0)%Q.
Proof.
  unfold closeCostOf. intros -> ->.
  destruct (Call.status c); cbn [orZero]; try reflexivity; ring.
Qed.

(** C10: an override is present when it is not null or undefined, so an
    override of zero is honoured: a totalPremium of 0 makes the gross
    premium 0, a totalCloseCost of 0 on a closed call makes the close
    cost 0, and either differs from what the call yields with the
    override absent whenever the per-share formula is not zero. *)
Theorem zero_override_honoured (c : Call.t) :
  (forall z, z == 0 -> Call.totalPremium c = Some z -> grossPrem c == 0)%Q
  /\ (forall z, z == 0 -> Call.status c = StClosed ->
      Call.totalCloseCost c = Some z -> closeCostOf c == 0)%Q
  /\ (~ Call.premium c * Call.contracts c * 100 == 0 ->
      ~ grossPrem (Call.with_totalPremium (Some 0) c)
        == grossPrem (Call.with_totalPremium None c))%Q
  /\ (Call.status c = StClosed ->
      ~ orZero (Call.closePrice c) * Call.contracts c * 100 == 0 ->
      ~ closeCostOf (Call.with_totalCloseCost (Some 0) c)
        == closeCostOf (Call.with_totalCloseCost None c))%Q.
Proof.
  unfold grossPrem, closeCostOf.
  refine (conj _ (conj _ (conj _ _))).
  - intros z Hz ->. exact Hz.
  - intros z Hz _ ->. exact Hz.
  - cbn. intros H E. apply H. now symmetry.
  - cbn. intros -> H E. apply H. now symmetry.
Qed.

Lemma zero_override_honoured_witness :
  (grossPrem zeroOverrideCall == 0)%Q
  /\ (closeCostOf zeroOverrideCall == 0)%Q
  /\ (~ grossPrem (Call.with_totalPremium (Some 0) zeroOverrideCall)
        == grossPrem (Call.with_totalPremium None zeroOverrideCall))%Q.
Proof.
  destruct (zero_override_honoured zeroOverrideCall) as (G & C & D & _).
  split; [|split].
  - apply (G 0%Q); reflexivity.
  - apply (C 0%Q); reflexivity.
  - apply D. vm_compute. discriminate.
Defined.

(** ** Total premium collected *)

Lemma fold_left_Qplus {A : Type} (f : A -> Q) (l : list A) (a b : Q) :
  (a == b)%Q ->
  (fold_left (fun s x => s + f x) l a == fold_left (fun s x => s + f x) l b)%Q.
Proof.
  revert a b. induction l as [|x l IH]; intros a b E; cbn; [exact E|].
  apply IH. now rewrite E.
Qed.

Lemma sumQ_acc {A : Type} (f : A -> Q) (l : list A) (a : Q) :
  (fold_left (fun s x => s + f x) l a == a + sumQ f l)%Q.
Proof.
  unfold sumQ. revert a. induction l as [|x l IH]; intros a; cbn [fold_left].
  - ring.
  - rewrite (IH (a + f x)%Q), (IH (0 + f x)%Q). ring.
Qed.

Lemma sumQ_cons {A : Type} (f : A -> Q) (x : A) (l : list A) :
  (sumQ f (x :: l) == f x + sumQ f l)%Q.
Proof.
  unfold sumQ at 1. cbn [fold_left]. rewrite sumQ_acc. ring.
Qed.

Lemma totalPremiumCollected_acc (calls : list Call.t) (a : Q) :
  (fold_left totalPremiumCollected_step calls a == a + sumQ collected calls)%Q.
Proof.
  revert a. induction calls as [|c calls IH]; intros a; cbn [fold_left].
  - unfold sumQ. cbn. ring.
  - rewrite IH, sumQ_cons.
    unfold totalPremiumCollected_step, collected, netPrem.
    destruct (Call.status c); ring.
Qed.

(** What the reducer adds up: net premium for a closed call, gross
    premium for an expired or assigned one, nothing for an open one. *)
Lemma totalPremiumCollected_sum (calls : list Call.t) :
  (totalPremiumCollected calls == sumQ collected calls)%Q.
Proof.
  unfold totalPremiumCollected. rewrite totalPremiumCollected_acc. ring.
Qed.

Lemma sumQ_ext {A : Type} (f g : A -> Q) (l : list A) :
  (forall x, In x l -> f x == g x)%Q -> (sumQ f l == sumQ g l)%Q.
Proof.
  induction l as [|x l IH]; intros H; [reflexivity|].
  rewrite !sumQ_cons, IH, (H x) by (intros; try apply H; cbn; auto).
  reflexivity.
Qed.

(** When no expired or assigned call carries a close-cost override, the
    total is the realized net premium. *)
Lemma totalPremiumCollected_realized (calls : list Call.t) :
  (forall c, In c calls -> Call.status c <> StClosed ->
             Call.totalCloseCost c = None) ->
  (totalPremiumCollected calls == sumQ realized calls)%Q.
Proof.
  intros H. rewrite totalPremiumCollected_sum. apply sumQ_ext.
  intros c Hc. specialize (H c Hc).
  unfold collected, realized, isOpen, netPrem, closeCostOf.
  destruct (Call.status c); cbn [Status_eqb]; try reflexivity;
    rewrite H by discriminate; ring.
Qed.

(** C2, at an expired call with a total close cost of 50: its net
    premium is 150, yet the total premium collected counts its gross
    premium of 200. *)
Theorem totalPremiumCollected_expired_override :
  Call.status expiredWithCloseCost = StExpired
  /\ (netPrem expiredWithCloseCost == 150)%Q
  /\ (totalPremiumCollected [expiredWithCloseCost] == 200)%Q
  /\ ~ (totalPremiumCollected [expiredWithCloseCost]
        == sumQ realized [expiredWithCloseCost])%Q.
Proof.
  split; [reflexivity|]. split; [reflexivity|]. split; [reflexivity|].
  vm_compute. discriminate.
Qed.

(** ** Strategy comparator *)

Section Comparator.

Variables (positions : list Position.t) (calls : list Call.t).
Variables (livePrices : list (string * Q)) (ticker : string).

Local Abbreviation row := (comparison positions calls livePrices ticker).

Lemma mktPrice_eq :
  mktPrice row = whenTruthy (lookup ticker livePrices) (fun v => v).
Proof. reflexivity. Qed.

Lemma buyHoldReturn_eq :
  buyHoldReturn row
  = whenTruthy (whenTruthy (mktPrice row) (fun v => totalShares row * v)%Q)
               (fun v => v - totalCost row)%Q.
Proof. reflexivity. Qed.

Lemma ccReturn_eq :
  ccReturn row
  = whenTruthy
      (whenTruthy (mktPrice row)
         (fun v => currentShares row * v + assignmentProceeds row
                   + netPremium row)%Q)
      (fun v => v - totalCost row)%Q.
Proof. reflexivity. Qed.

Lemma alpha_eq :
  alpha row = match ccReturn row, buyHoldReturn row with
              | Some cc, Some bh => Some (cc - bh)%Q
              | _, _ => None
              end.
Proof. reflexivity. Qed.

(** Without a price every return is null. *)
Lemma comparison_no_price :
  lookup ticker livePrices = None ->
  mktPrice row = None /\ buyHoldReturn row = None
  /\ ccReturn row = None /\ alpha row = None.
Proof.
  intros H. rewrite alpha_eq, ccReturn_eq, buyHoldReturn_eq, mktPrice_eq, H.
  cbn. auto.
Qed.

(** Alpha is a number exactly when both returns are. *)
Lemma alpha_defined_iff :
  alpha row <> None <-> ccReturn row <> None /\ buyHoldReturn row <> None.
Proof.
  rewrite alpha_eq.
  destruct (ccReturn row), (buyHoldReturn row); split;
    [ intros _; split; discriminate | intros _; discriminate
    | intros H; now elim H | intros [_ H]; now elim H
    | intros H; now elim H | intros [H _]; now elim H
    | intros H; now elim H | intros [H _]; now elim H ].
Qed.

(** Shares still held and assignment proceeds: every assigned call of
    the ticker takes contracts x 100 shares away and brings
    strike x contracts x 100. *)
Lemma comparison_assignments :
  let assigned :=
    filter isAssigned
      (filter (fun c => String.eqb (toUpperCase (Call.ticker c)) ticker)
              calls) in
  (currentShares row
   == totalShares row - sumQ (fun c => Call.contracts c * 100) assigned)%Q
  /\ (assignmentProceeds row
      == sumQ (fun c => Call.strike c * Call.contracts c * 100) assigned)%Q.
Proof. split; reflexivity. Qed.

(** With a price, the two returns follow the formulas as long as
    neither the value of the original shares nor the value of the
    covered-call position is zero. *)
Lemma comparison_formulas (p : Q) :
  lookup ticker livePrices = Some p ->
  (~ p == 0)%Q ->
  (~ totalShares row * p == 0)%Q ->
  (~ currentShares row * p + assignmentProceeds row + netPremium row == 0)%Q ->
  buyHoldReturn row = Some (totalShares row * p - totalCost row)%Q
  /\ ccReturn row
     = Some (currentShares row * p + assignmentProceeds row + netPremium row
             - totalCost row)%Q.
Proof.
  intros H Hp Hb Hc.
  assert (T : forall x, (~ x == 0)%Q -> truthy x = true).
  { intros x Hx. unfold truthy. destruct (Qeq_bool x 0) eqn:E; [|reflexivity].
    apply Qeq_bool_eq in E. contradiction. }
  rewrite ccReturn_eq, buyHoldReturn_eq, mktPrice_eq, H.
  cbn [whenTruthy]. rewrite (T _ Hp). cbn [whenTruthy].
  rewrite (T _ Hp). cbn [whenTruthy].
  rewrite (T _ Hb), (T _ Hc). split; reflexivity.
Qed.

Lemma whenTruthy_none (v : option Q) (f : Q -> Q) :
  whenTruthy v f = None <-> v = None \/ exists x, v = Some x /\ (x == 0)%Q.
Proof.
  unfold whenTruthy, truthy. destruct v as [x|].
  - destruct (Qeq_bool x 0) eqn:E; cbn [negb]; split.
    + intros _. right. exists x. split; [reflexivity|]. now apply Qeq_bool_eq.
    + reflexivity.
    + discriminate.
    + intros [H|[y [[= <-] H]]]; [discriminate|].
      apply Qeq_eq_bool in H. congruence.
  - split; [now left|reflexivity].
Qed.

(** The covered-call return is null exactly when there is no price, the
    price is zero, or the value of the covered-call position is zero. *)
Lemma ccReturn_none_iff :
  ccReturn row = None
  <-> mktPrice row = None
      \/ exists p, mktPrice row = Some p
                   /\ (currentShares row * p + assignmentProceeds row
                       + netPremium row == 0)%Q.
Proof.
  rewrite ccReturn_eq, whenTruthy_none.
  destruct (mktPrice row) as [p|] eqn:M.
  - pose proof M as M'. rewrite mktPrice_eq in M'.
    assert (T : truthy p = true).
    { unfold whenTruthy in M'. destruct (lookup ticker livePrices); [|discriminate].
      destruct (truthy q) eqn:Tq; [|discriminate]. now injection M' as <-. }
    cbn [whenTruthy]. rewrite T. split.
    + intros [H|[x [[= <-] H]]]; [discriminate|].
      right. now exists p.
    + intros [H|[q [[= <-] H]]]; [discriminate|].
      right. eexists. split; [reflexivity|exact H].
  - cbn [whenTruthy]. split; intros _; now left.
Qed.

End Comparator.

(** The comparator example of the specification. *)
Lemma comparison_spec_example :
  let r := comparison [heldPosition] [expiredCall300] prices60 "XYZ" in
  (totalShares r == 100)%Q /\ (totalCost r == 5000)%Q
  /\ (netPremium r == 300)%Q /\ (assignedShares r == 0)%Q
  /\ (exists bh cc a,
        buyHoldReturn r = Some bh /\ ccReturn r = Some cc /\ alpha r = Some a
        /\ bh == 1000 /\ cc == 1300 /\ a == 300)%Q.
Proof.
  cbv zeta. repeat (split; [reflexivity|]).
  eexists _, _, _. repeat (split; [reflexivity|]). reflexivity.
Qed.

(** C3, for 100 shares at a market price of 1 and a call closed at a
    loss of 100: the price is in the map and the buy-and-hold return is
    a number, yet the covered-call return and alpha are null, because
    the value of the covered-call position is exactly zero. *)
Theorem comparison_null_with_price :
  let r := comparison [heldPosition] [losingCall] lowPrices "XYZ" in
  tickers [heldPosition] = ["XYZ"]
  /\ lookup "XYZ" lowPrices = Some 1%Q
  /\ (exists bh, buyHoldReturn r = Some bh /\ bh == -4900)%Q
  /\ ccReturn r = None
  /\ alpha r = None.
Proof.
  cbv zeta. split; [reflexivity|]. split; [reflexivity|].
  split; [eexists; split; reflexivity|]. split; reflexivity.
Qed.

(** C4, at the same input: market price x shares still held + assignment
    proceeds + net premium - total cost is -5000, and the comparator
    reports no covered-call return at all. *)
Theorem comparison_ccReturn_missing :
  let r := comparison [heldPosition] [losingCall] lowPrices "XYZ" in
  mktPrice r = Some 1%Q
  /\ (1 * currentShares r + assignmentProceeds r + netPremium r - totalCost r
      == -5000)%Q
  /\ ccReturn r = None.
Proof. cbv zeta. split; [reflexivity|]. split; reflexivity. Qed.

(** ** Time series *)

(** [civil_from_days] against the day number, around a leap day and a
    change of year. *)
Lemma civil_from_days_examples :
  civil_from_days (dayNumber 2024 2 28) = (2024, 2, 28)%Z
  /\ civil_from_days (dayNumber 2024 2 28 + 1) = (2024, 2, 29)%Z
  /\ civil_from_days (dayNumber 2024 2 28 + 2) = (2024, 3, 1)%Z
  /\ civil_from_days (dayNumber 2023 2 28 + 1) = (2023, 3, 1)%Z
  /\ civil_from_days (dayNumber 2024 12 31 + 1) = (2025, 1, 1)%Z
  /\ civil_from_days 0 = (1970, 1, 1)%Z
  /\ civil_from_days (-1) = (1969, 12, 31)%Z.
Proof. repeat split; reflexivity. Qed.

(** The week of a date starts on the Sunday on or before it. *)
Lemma weekKey_examples :
  weekKey (callClosedOn 22 "2024-01-10") = Some "2024-01-07"
  /\ weekKey (callClosedOn 22 "2024-01-07") = Some "2024-01-07"
  /\ weekKey (callClosedOn 22 "2024-03-02") = Some "2024-02-25"
  /\ weekKey (callClosedOn 22 "2025-01-01") = Some "2024-12-29".
Proof. repeat split; reflexivity. Qed.

(** The weekly series skips a call exactly when the part of its date
    before the first dash reads as 0 or as NaN. *)
Lemma weekKey_none_iff (c : Call.t) :
  weekKey c = None
  <-> let y := component 0 (map Number (split_dash
                 (orElse (Call.dateClosed c) (Call.dateOpened c)))) in
      y = NaN \/ exists q, y = Finite q /\ (q == 0)%Q.
Proof.
  unfold weekKey. cbv zeta.
  destruct (component 0 _) as [|b|q]; cbn [falsyNum].
  - split; [now left|reflexivity].
  - split; [discriminate|]. intros [H|(q & H & _)]; discriminate.
  - destruct (Qeq_bool q 0) eqn:E.
    + split; [|reflexivity]. intros _. right. exists q.
      split; [reflexivity|now apply Qeq_bool_eq].
    + split; [discriminate|]. intros [H|(q' & [= <-] & H)]; [discriminate|].
      apply Qeq_eq_bool in H. congruence.
Qed.

Lemma length_slice_to (n : nat) (s : string) :
  String.length (slice_to n s) = Nat.min n (String.length s).
Proof.
  unfold slice_to. revert s. induction n as [|n IH]; intros s.
  - destruct s; reflexivity.
  - destruct s as [|a s]; [reflexivity|]. cbn. now rewrite IH.
Qed.

Lemma nonEmpty_length (s : string) :
  nonEmpty s = (0 <? String.length s)%nat.
Proof. destruct s; reflexivity. Qed.

(** The monthly series skips a call exactly when its date has fewer
    than seven characters. *)
Lemma monthKey_none_iff (c : Call.t) :
  monthKey c = None
  <-> (String.length (orElse (Call.dateClosed c) (Call.dateOpened c)) < 7)%nat.
Proof.
  unfold monthKey. cbv zeta. set (s := orElse _ _).
  rewrite nonEmpty_length, length_slice_to.
  destruct (Nat.min_spec 7 (String.length s)) as [[M ->]|[M ->]].
  - cbn [Nat.ltb Nat.leb negb orb]. split; [discriminate|lia].
  - destruct (Nat.ltb_spec (String.length s) 7) as [L|L].
    + rewrite orb_true_r. split; [intros _; exact L|reflexivity].
    + replace (String.length s) with 7%nat by lia.
      cbn [Nat.ltb Nat.leb negb orb]. split; [discriminate|lia].
Qed.

(** C5, at two closed-out calls with malformed close dates: the monthly
    series files "not-a-date" under the bucket "not-a-d", and the weekly
    series files "2024-xx-yy" under the bucket "NaN-NaN-NaN". *)
Theorem malformed_date_bucketed (localeCompare : string -> string -> Z) :
  isCalendarDate "not-a-date" = false
  /\ monthsOf [callClosedOn 20 "not-a-date"]
     = [("not-a-d", (0 + netPrem (callClosedOn 20 "not-a-date"))%Q)]
  /\ (exists b, premiumByMonth localeCompare [callClosedOn 20 "not-a-date"] = [b]
                /\ label b = "not-a-d" /\ (amount b == 200)%Q)
  /\ isCalendarDate "2024-xx-yy" = false
  /\ weeksOf [callClosedOn 21 "2024-xx-yy"]
     = [("NaN-NaN-NaN", (0 + netPrem (callClosedOn 21 "2024-xx-yy"))%Q)]
  /\ (exists b, premiumByWeek localeCompare [callClosedOn 21 "2024-xx-yy"] = [b]
                /\ (amount b == 200)%Q).
Proof.
  split; [reflexivity|]. split; [reflexivity|].
  split; [eexists; split; [reflexivity|split; reflexivity]|].
  split; [reflexivity|]. split; [reflexivity|].
  eexists; split; reflexivity.
Qed.

(** ** Tax view *)

Lemma taxRow_in_taxData (clk : Clock) (calls : list Call.t) (c : Call.t) :
  In c calls -> isOpen c = false -> In (taxRow clk calls c) (taxData clk calls).
Proof.
  intros Hin Ho. unfold taxData, closedCalls. apply in_map.
  apply filter_In. split; [assumption|]. now rewrite Ho.
Qed.

Lemma closeOrToday_eq (clk : Clock) (c : Call.t) :
  orElse (Call.dateClosed c) (today clk) = closeOrToday clk c.
Proof. unfold closeOrToday. now destruct (Call.dateClosed c). Qed.

(** C7: the holding period of a non-open call is the number of calendar
    days from its open date to its close date, and to today when the
    call carries no close date; the treatment is long-term exactly when
    that number exceeds 365; 365 days held is short-term, 366
    long-term.  On 1 June 2024 a call without a close date that was
    opened on 1 January 2023 has been held 517 days and is long-term,
    and one opened on 5 January 2024 has been held 148 days and is
    short-term. *)
Theorem holding_period_treatment :
  (forall (clk : Clock) (calls : list Call.t) (c : Call.t),
      In c calls -> isOpen c = false ->
      isCalendarDate (Call.dateOpened c) = true ->
      isCalendarDate (closeOrToday clk c) = true ->
      let r := taxRow clk calls c in
      let days := (dayOf (closeOrToday clk c) - dayOf (Call.dateOpened c))%Z in
      In r (taxData clk calls)
      /\ held r = Some days
      /\ (treatment r = LongTerm <-> (365 < days)%Z)
      /\ (treatment r = ShortTerm <-> (days <= 365)%Z)
      /\ (Call.dateClosed c = "" ->
          held r = Some (dayOf (today clk) - dayOf (Call.dateOpened c))%Z)
      /\ (Call.dateClosed c <> "" ->
          held r = Some (dayOf (Call.dateClosed c)
                         - dayOf (Call.dateOpened c))%Z))
  /\ (let r := taxRow sampleClock [heldFor 40 "2024-01-01"]
                      (heldFor 40 "2024-01-01") in
      held r = Some 365%Z /\ treatment r = ShortTerm)
  /\ (let r := taxRow sampleClock [heldFor 41 "2024-01-02"]
                      (heldFor 41 "2024-01-02") in
      held r = Some 366%Z /\ treatment r = LongTerm)
  /\ (let r := taxRow sampleClock [heldFor 42 ""] (heldFor 42 "") in
      held r = Some 517%Z /\ treatment r = LongTerm)
  /\ (let r := taxRow sampleClock [callClosedOn 43 ""] (callClosedOn 43 "") in
      held r = Some 148%Z /\ treatment r = ShortTerm).
Proof.
  split; [|repeat (split; [split; reflexivity|]); split; reflexivity].
  intros clk calls c Hin Ho Vo Vc. cbv zeta.
  split; [now apply taxRow_in_taxData|].
  unfold taxRow. cbn [held treatment]. rewrite closeOrToday_eq.
  rewrite (daysBetween_valid clk _ _ Vo Vc). cbn [gtNaN].
  split; [reflexivity|].
  refine (conj _ (conj _ (conj _ _))).
  - destruct (Z.ltb_spec 365 (dayOf (closeOrToday clk c)
                              - dayOf (Call.dateOpened c)));
      split; intros; try reflexivity; try discriminate; lia.
  - destruct (Z.ltb_spec 365 (dayOf (closeOrToday clk c)
                              - dayOf (Call.dateOpened c)));
      split; intros; try reflexivity; try discriminate; lia.
  - intros E. unfold closeOrToday. now rewrite E.
  - intros N. unfold closeOrToday.
    destruct (String.eqb_spec (Call.dateClosed c) ""); [contradiction|].
    reflexivity.
Qed.

Lemma holding_period_treatment_witness :
  held (taxRow sampleClock [heldFor 42 ""] (heldFor 42 ""))
  = Some (dayOf "2024-06-01" - dayOf "2023-01-01")%Z
  /\ treatment (taxRow sampleClock [heldFor 42 ""] (heldFor 42 "")) = LongTerm.
Proof.
  destruct holding_period_treatment as [H _].
  destruct (H sampleClock [heldFor 42 ""] (heldFor 42 ""))
    as (_ & _ & Hl & _ & Ht & _).
  - left. reflexivity.
  - reflexivity.
  - reflexivity.
  - reflexivity.
  - split.
    + apply Ht. reflexivity.
    + apply Hl. vm_compute. reflexivity.
Defined.

Lemma Qltb_lt (x y : Q) : Qltb x y = true <-> (x < y)%Q.
Proof.
  unfold Qltb. rewrite negb_true_iff. split.
  - intros H. apply Qnot_le_lt. intros L.
    apply Qle_bool_iff in L. congruence.
  - intros H. destruct (Qle_bool y x) eqn:E; [|reflexivity].
    apply Qle_bool_iff in E. exfalso. exact (Qlt_not_le _ _ H E).
Qed.

Lemma length_pos_exists {A : Type} (l : list A) :
  (0 <? length l)%nat = true <-> exists x, In x l.
Proof.
  destruct l as [|x l]; cbn; split.
  - discriminate.
  - intros [x []].
  - intros _. exists x. now left.
  - reflexivity.
Qed.

(** The trades near the close of [c]: the other calls on its ticker
    opened at most 30 days before or after it. *)
Lemma nearbyTrades_spec (clk : Clock) (calls : list Call.t) (c o : Call.t) :
  isCalendarDate (closeOrToday clk c) = true ->
  (forall x, In x calls -> Call.id x <> Call.id c ->
             Call.ticker x = Call.ticker c ->
             isCalendarDate (Call.dateOpened x) = true) ->
  In o (nearbyTrades clk calls c)
  <-> In o calls /\ Call.id o <> Call.id c /\ Call.ticker o = Call.ticker c
      /\ (Z.abs (dayOf (Call.dateOpened o) - dayOf (closeOrToday clk c)) <= 30)%Z.
Proof.
  intros Vc Vo. unfold nearbyTrades. rewrite filter_In.
  rewrite closeOrToday_eq.
  split.
  - intros [Hin P]. split; [assumption|].
    apply andb_true_iff in P. destruct P as [P D].
    apply andb_true_iff in P. destruct P as [I T].
    apply negb_true_iff, Z.eqb_neq in I. apply String.eqb_eq in T.
    rewrite (daysBetween_valid clk _ _ Vc (Vo o Hin I T)) in D.
    cbn [absLeNaN] in D. apply Z.leb_le in D. auto.
  - intros (Hin & I & T & D). split; [assumption|].
    rewrite (daysBetween_valid clk _ _ Vc (Vo o Hin I T)).
    apply andb_true_iff. split; [apply andb_true_iff; split|].
    + now apply negb_true_iff, Z.eqb_neq.
    + now apply String.eqb_eq.
    + cbn [absLeNaN]. now apply Z.leb_le.
Qed.

(** C6: a non-open call is flagged for wash-sale risk exactly when its
    net premium is negative and another call on the same ticker was
    opened within 30 days, before or after, of its close date, and of
    today when the call carries no close date.  Call A, closed on
    10 January 2024 at a net premium of -50, is flagged next to a call
    opened on 25 January 2024 and not next to one opened on 1 March
    2024.  On 1 June 2024 the same call without a close date is flagged
    next to a call opened on 20 May 2024, and neither next to one opened
    on 25 January 2024 nor next to one opened on 1 March 2024. *)
Theorem wash_sale_flag :
  (forall (clk : Clock) (calls : list Call.t) (c : Call.t),
      In c calls -> isOpen c = false ->
      isCalendarDate (closeOrToday clk c) = true ->
      (forall x, In x calls -> Call.id x <> Call.id c ->
                 Call.ticker x = Call.ticker c ->
                 isCalendarDate (Call.dateOpened x) = true) ->
      In (taxRow clk calls c) (taxData clk calls)
      /\ (washSaleRisk (taxRow clk calls c) = true
          <-> (netPrem c < 0)%Q
              /\ exists o, In o calls /\ Call.id o <> Call.id c
                           /\ Call.ticker o = Call.ticker c
                           /\ (Z.abs (dayOf (Call.dateOpened o)
                                      - dayOf (closeOrToday clk c)) <= 30)%Z)
      /\ (Call.dateClosed c = "" ->
          (washSaleRisk (taxRow clk calls c) = true
           <-> (netPrem c < 0)%Q
               /\ exists o, In o calls /\ Call.id o <> Call.id c
                            /\ Call.ticker o = Call.ticker c
                            /\ (Z.abs (dayOf (Call.dateOpened o)
                                       - dayOf (today clk)) <= 30)%Z)))
  /\ (netPrem callA == -50)%Q
  /\ washSaleRisk (taxRow sampleClock [callA; callB "2024-01-25"] callA) = true
  /\ washSaleRisk (taxRow sampleClock [callA; callB "2024-03-01"] callA) = false
  /\ (netPrem callAUndated == -50)%Q
  /\ washSaleRisk (taxRow sampleClock [callAUndated; callB "2024-05-20"]
                          callAUndated) = true
  /\ washSaleRisk (taxRow sampleClock [callAUndated; callB "2024-01-25"]
                          callAUndated) = false
  /\ washSaleRisk (taxRow sampleClock [callAUndated; callB "2024-03-01"]
                          callAUndated) = false.
Proof.
  split; [|repeat (split; [reflexivity|]); reflexivity].
  intros clk calls c Hin Ho Vc Vo.
  split; [now apply taxRow_in_taxData|].
  assert (F : washSaleRisk (taxRow clk calls c) = true
              <-> (netPrem c < 0)%Q
                  /\ exists o, In o calls /\ Call.id o <> Call.id c
                               /\ Call.ticker o = Call.ticker c
                               /\ (Z.abs (dayOf (Call.dateOpened o)
                                          - dayOf (closeOrToday clk c))
                                   <= 30)%Z).
  { unfold taxRow. cbn [washSaleRisk].
    rewrite andb_true_iff, Qltb_lt, length_pos_exists.
    split; intros [L [o Hn]]; (split; [exact L|]); exists o;
      now apply (nearbyTrades_spec clk calls c o Vc Vo). }
  split; [exact F|].
  intros E. rewrite F. unfold closeOrToday. rewrite E. reflexivity.
Qed.

Lemma wash_sale_flag_witness :
  washSaleRisk (taxRow sampleClock [callAUndated; callB "2024-05-20"]
                       callAUndated) = true.
Proof.
  destruct wash_sale_flag as [H _].
  destruct (H sampleClock [callAUndated; callB "2024-05-20"] callAUndated)
    as [_ [_ F]].
  - left. reflexivity.
  - reflexivity.
  - reflexivity.
  - intros x [<-|[<-|[]]] _ _; reflexivity.
  - apply (F eq_refl). split; [reflexivity|].
    exists (callB "2024-05-20"). split; [right; left; reflexivity|].
    split; [discriminate|]. split; [reflexivity|].
    vm_compute. discriminate.
Defined.

(** ** Annualized yield *)

Lemma openDates_none (calls : list Call.t) :
  (forall c, In c calls -> Call.dateOpened c = "") -> openDates calls = [].
Proof.
  unfold openDates. induction calls as [|c calls IH]; intros H; [reflexivity|].
  cbn [map filter]. rewrite (H c) by now left. cbn [nonEmpty].
  apply IH. intros x Hx. apply H. now right.
Qed.

(** The body of the yield memo on any two totals. *)
Lemma annualizedYield_of_cases (clk : Clock) (tpc tcd : Q)
      (calls : list Call.t) :
  isCalendarDate (today clk) = true ->
  (forall s, In s (openDates calls) -> isCalendarDate s = true) ->
  (tcd == 0 -> annualizedYield_of clk tpc tcd calls = Some 0)%Q
  /\ ((forall c, In c calls -> Call.dateOpened c = "") ->
      annualizedYield_of clk tpc tcd calls = Some 0%Q)
  /\ (forall earliest,
        In earliest (openDates calls) ->
        (forall s, In s (openDates calls) -> (dayOf earliest <= dayOf s)%Z) ->
        let days := (dayOf (today clk) - dayOf earliest)%Z in
        ((days <= 0)%Z -> annualizedYield_of clk tpc tcd calls = Some 0%Q)
        /\ (~ (tcd == 0)%Q -> (0 < days)%Z ->
            annualizedYield_of clk tpc tcd calls
            = Some (tpc / tcd * (365 / inject_Z days))%Q)).
Proof.
  intros Vt Vd.
  unfold annualizedYield_of. fold (openDates calls).
  destruct (Qeq_bool tcd 0) eqn:E.
  - apply Qeq_bool_eq in E.
    split; [reflexivity|]. split; [reflexivity|].
    intros earliest _ _. cbv zeta. split; [reflexivity|].
    intros N. contradiction.
  - split; [intros Z; apply Qeq_eq_bool in Z; congruence|].
    split.
    + intros H. now rewrite (openDates_none calls H).
    + intros earliest Hin Hmin. cbv zeta.
      destruct (sort (openDates calls)) as [|first rest] eqn:S.
      { apply sort_nil in S. rewrite S in Hin. destruct Hin. }
      destruct (sort_head_earliest _ _ _ Vd S) as [Hf Hfm].
      rewrite (daysBetween_valid clk first (today clk) (Vd _ Hf) Vt).
      assert (D : dayOf first = dayOf earliest).
      { specialize (Hmin _ Hf). specialize (Hfm _ Hin). lia. }
      rewrite D.
      destruct (Z.leb_spec (dayOf (today clk) - dayOf earliest) 0);
        split; intros; try reflexivity; lia.
Qed.



(** ** Trade post-mortem *)

Lemma Qle_bool_true (x y : Q) : (x <= y)%Q -> Qle_bool x y = true.
Proof. intros H. now apply Qle_bool_iff. Qed.

Lemma Qltb_false (x y : Q) : (y <= x)%Q -> Qltb x y = false.
Proof.
  intros H. destruct (Qltb x y) eqn:E; [|reflexivity].
  apply Qltb_lt in E. exfalso. exact (Qlt_not_le _ _ E H).
Qed.

Lemma truthy_nonzero (x : Q) : (~ x == 0)%Q -> truthy x = true.
Proof.
  intros H. unfold truthy. destruct (Qeq_bool x 0) eqn:E; [|reflexivity].
  apply Qeq_bool_eq in E. contradiction.
Qed.

(** C9, against the wording "0 when gross = 0": an expired call booked
    with a total premium of -100 has a gross premium that is not 0 and
    net / gross x 100 = 100, and its premium retained is 0. *)
Lemma premiumRetained_negative_gross :
  let pm := getPostMortem sampleClock [positionXYZ] negativeGrossCall in
  (~ pm_gross pm == 0)%Q
  /\ (retainedWhenNonzero negativeGrossCall == 100)%Q
  /\ (premiumRetained pm == 0)%Q
  /\ (~ premiumRetained pm == retainedWhenNonzero negativeGrossCall)%Q.
Proof.
  cbv zeta. split; [vm_compute; discriminate|].
  split; [reflexivity|]. split; [reflexivity|].
  vm_compute. discriminate.
Qed.

Lemma findPosition_first (positions : list Position.t) (c : Call.t)
      (p : Position.t) :
  firstOnTicker positions c p -> findPosition positions c = Some p.
Proof.
  intros (before & after & -> & T & N). unfold findPosition.
  induction before as [|q before IH]; cbn [app find].
  - rewrite T. now rewrite String.eqb_refl.
  - destruct (String.eqb_spec (toUpperCase (Position.ticker q))
                              (toUpperCase (Call.ticker c))) as [Eq|_].
    + exfalso. apply (N q); [now left|exact Eq].
    + apply IH. intros r Hr. apply N. now right.
Qed.

Lemma findPosition_none (positions : list Position.t) (c : Call.t) :
  (forall q, In q positions ->
             toUpperCase (Position.ticker q) <> toUpperCase (Call.ticker c)) ->
  findPosition positions c = None.
Proof.
  intros N. unfold findPosition.
  induction positions as [|q positions IH]; [reflexivity|]. cbn [find].
  destruct (String.eqb_spec (toUpperCase (Position.ticker q))
                            (toUpperCase (Call.ticker c))) as [Eq|_].
  - exfalso. apply (N q); [now left|exact Eq].
  - apply IH. intros r Hr. apply N. now right.
Qed.

(** C9, as the code has it: the verdict of a non-open call is FullWin
    when it expired, Assigned when it was assigned, PartialWin when it
    was closed at a positive net premium and Loss when it was closed at
    a net premium of zero or less.  An assigned call is read against the
    first position on its ticker, letter case set aside: it is marked
    above basis when the strike reaches the cost basis of that
    position, below basis when it does not (for a cost basis other than
    zero), and unknown when no position is on its ticker.  Premium
    retained is net / gross x 100 when gross is positive and 0 when
    gross is zero or negative.  The expired XYZ call has gross 200, net
    200, verdict FullWin and 100 per cent retained; a call on xyz
    assigned at 55 is above the basis of 50 of the first XYZ lot, not
    below the 70 of the second, assigned at 45 it is below basis, and
    next to a position on ABC alone its basis is unknown. *)
Theorem post_mortem_verdict :
  (forall (clk : Clock) (positions : list Position.t) (c : Call.t),
      let pm := getPostMortem clk positions c in
      (Call.status c = StExpired -> verdict pm = FullWin)
      /\ (Call.status c = StAssigned ->
          verdict pm = Assigned
          /\ ((forall q, In q positions ->
                         toUpperCase (Position.ticker q)
                         <> toUpperCase (Call.ticker c)) ->
              pm_costBasis pm = None /\ insight pm = AssignedUnknownBasis)
          /\ (forall p, firstOnTicker positions c p ->
                        pm_costBasis pm = Some (Position.costBasis p)
                        /\ (~ (Position.costBasis p == 0)%Q ->
                            ((Position.costBasis p <= Call.strike c)%Q ->
                             insight pm = AssignedAboveBasis)
                            /\ ((Call.strike c < Position.costBasis p)%Q ->
                                insight pm = AssignedBelowBasis))))
      /\ (Call.status c = StClosed -> (0 < netPrem c)%Q ->
          verdict pm = PartialWin)
      /\ (Call.status c = StClosed -> (netPrem c <= 0)%Q -> verdict pm = Loss)
      /\ ((0 < grossPrem c)%Q ->
          (premiumRetained pm == netPrem c / grossPrem c * 100)%Q)
      /\ ((grossPrem c <= 0)%Q -> (premiumRetained pm == 0)%Q))
  /\ (let pm := getPostMortem sampleClock [positionXYZ] callXYZ in
      (pm_gross pm == 200)%Q /\ (pm_net pm == 200)%Q
      /\ verdict pm = FullWin /\ (premiumRetained pm == 100)%Q)
  /\ (let pm := getPostMortem sampleClock
                              [positionABC; positionXYZ; secondLotXYZ]
                              (assignedAt 55) in
      verdict pm = Assigned /\ insight pm = AssignedAboveBasis)
  /\ (let pm := getPostMortem sampleClock
                              [positionABC; positionXYZ; secondLotXYZ]
                              (assignedAt 45) in
      verdict pm = Assigned /\ insight pm = AssignedBelowBasis)
  /\ (let pm := getPostMortem sampleClock [positionABC] (assignedAt 55) in
      verdict pm = Assigned /\ insight pm = AssignedUnknownBasis).
Proof.
  split; [|cbv zeta; repeat split; reflexivity].
  intros clk positions c. cbv zeta.
  refine (conj _ (conj _ (conj _ (conj _ (conj _ _))))).
  - unfold getPostMortem. intros ->. reflexivity.
  - intros A. split; [unfold getPostMortem; now rewrite A|]. split.
    + intros N. unfold getPostMortem.
      rewrite (findPosition_none positions c N), A. split; reflexivity.
    + intros p Fp. unfold getPostMortem.
      rewrite (findPosition_first positions c p Fp), A.
      cbn [option_map pm_costBasis insight snd]. split; [reflexivity|].
      intros Hnz. rewrite (truthy_nonzero _ Hnz). cbn [andb]. split; intros H.
      * now rewrite (Qle_bool_true _ _ H).
      * destruct (Qle_bool (Position.costBasis p) (Call.strike c)) eqn:E;
          [|reflexivity].
        apply Qle_bool_iff in E. exfalso. exact (Qlt_not_le _ _ H E).
  - unfold getPostMortem. fold (netPrem c).
    intros -> H. apply Qltb_lt in H. cbn [verdict]. fold (netPrem c).
    now rewrite H.
  - unfold getPostMortem. fold (netPrem c).
    intros -> H. cbn [verdict]. fold (netPrem c).
    now rewrite (Qltb_false _ _ H).
  - unfold getPostMortem. fold (netPrem c).
    intros H. cbn [premiumRetained]. apply Qltb_lt in H. rewrite H.
    unfold netPrem. reflexivity.
  - unfold getPostMortem. fold (netPrem c).
    intros H. cbn [premiumRetained]. rewrite (Qltb_false _ _ H). reflexivity.
Qed.

Lemma post_mortem_verdict_witness :
  verdict (getPostMortem sampleClock [positionXYZ] callXYZ) = FullWin
  /\ (premiumRetained (getPostMortem sampleClock [positionXYZ] callXYZ)
      == 100)%Q
  /\ insight (getPostMortem sampleClock
                            [positionABC; positionXYZ; secondLotXYZ]
                            (assignedAt 55)) = AssignedAboveBasis
  /\ insight (getPostMortem sampleClock [positionABC] (assignedAt 55))
     = AssignedUnknownBasis.
Proof.
  destruct post_mortem_verdict as [H _].
  destruct (H sampleClock [positionXYZ] callXYZ) as (E & _ & _ & _ & R & _).
  destruct (H sampleClock [positionABC; positionXYZ; secondLotXYZ]
              (assignedAt 55)) as (_ & A & _).
  destruct (H sampleClock [positionABC] (assignedAt 55)) as (_ & U & _).
  refine (conj _ (conj _ (conj _ _))).
  - apply E. reflexivity.
  - rewrite R; reflexivity.
  - destruct (A eq_refl) as (_ & _ & F).
    destruct (F positionXYZ) as [_ G].
    + exists [positionABC], [secondLotXYZ].
      split; [reflexivity|]. split; [reflexivity|].
      intros q [<-|[]]. discriminate.
    + apply G; [discriminate|]. unfold Qle. cbn. lia.
  - destruct (U eq_refl) as (_ & N & _). apply N.
    intros q [<-|[]]. discriminate.
Defined.

(** * Further properties *)

(** ** Rounding to cents *)

Lemma Math_round_bounds (x : Q) :
  (inject_Z (Math_round x) <= x + (1 # 2))%Q
  /\ (x + (1 # 2) < inject_Z (Math_round x) + 1)%Q.
Proof.
  unfold Math_round. split.
  - apply Qfloor_le.
  - pose proof (Qlt_floor (x + (1 # 2))) as H.
    rewrite inject_Z_plus in H. exact H.
Qed.

Lemma Math_abs_nonneg (x : Q) : (0 <= Math_abs x)%Q.
Proof.
  unfold Math_abs. destruct (Qle_bool 0 x) eqn:L.
  - now apply Qle_bool_iff.
  - destruct (Qlt_le_dec x 0) as [H|H]; [lra|].
    apply Qle_bool_iff in H. congruence.
Qed.

(** X1: rounding to cents gives a whole number of cents, within half
    a cent of the amount, and leaves an amount of whole cents as it is.
    The half cent is stated with an allowance of the amount over 10^15:
    the code multiplies and divides in binary floating point, which
    moves the result by less than that. *)
Theorem round2_within_half_cent (x : Q) (n : Z) :
  (exists k : Z, round2 x == inject_Z k / 100)%Q
  /\ (x - (1 # 200) - Math_abs x * (1 # 1000000000000000) <= round2 x)%Q
  /\ (round2 x <= x + (1 # 200) + Math_abs x * (1 # 1000000000000000))%Q
  /\ (round2 (inject_Z n / 100) == inject_Z n / 100)%Q.
Proof.
  pose proof (Math_abs_nonneg x) as A.
  assert (M : (0 <= Math_abs x * (1 # 1000000000000000))%Q)
    by (apply Qmult_le_0_compat; [exact A|discriminate]).
  unfold round2.
  destruct (Math_round_bounds (x * 100)) as [L U].
  assert (Lo : (x - (1 # 200) < inject_Z (Math_round (x * 100)) / 100)%Q)
    by (apply Qlt_shift_div_l; [reflexivity|]; lra).
  assert (Up : (inject_Z (Math_round (x * 100)) / 100 <= x + (1 # 200))%Q)
    by (apply Qle_shift_div_r; [reflexivity|]; lra).
  refine (conj _ (conj _ (conj _ _))).
  - exists (Math_round (x * 100)). reflexivity.
  - lra.
  - lra.
  - assert (E : (inject_Z n / 100 * 100 == inject_Z n)%Q) by (field; discriminate).
    unfold Math_round. rewrite E. fold (Math_round (inject_Z n)).
    rewrite Math_round_inject. reflexivity.
Qed.

(** ** Buckets of the time series *)

Lemma sumQ_nil {A : Type} (f : A -> Q) : (sumQ f [] == 0)%Q.
Proof. reflexivity. Qed.

Lemma sumQ_app {A : Type} (f : A -> Q) (l l' : list A) :
  (sumQ f (l ++ l') == sumQ f l + sumQ f l')%Q.
Proof.
  induction l as [|x l IH]; cbn [app].
  - rewrite sumQ_nil. ring.
  - rewrite !sumQ_cons, IH. ring.
Qed.

Lemma sumQ_perm {A : Type} (f : A -> Q) (l l' : list A) :
  Permutation l l' -> (sumQ f l == sumQ f l')%Q.
Proof.
  induction 1 as [|x l l' _ IH|x y l|l l' l'' _ IH1 _ IH2].
  - reflexivity.
  - now rewrite !sumQ_cons, IH.
  - rewrite !sumQ_cons. ring.
  - now rewrite IH1.
Qed.

Lemma not_truthy_zero (v : Q) : truthy v = false -> (v == 0)%Q.
Proof.
  unfold truthy. destruct (Qeq_bool v 0) eqn:E; [|discriminate].
  intros _. now apply Qeq_bool_eq.
Qed.

Lemma bump_total (key : string) (a : Q) (m : list (string * Q)) :
  (sumQ snd (bump key a m) == sumQ snd m + a)%Q.
Proof.
  induction m as [|[k v] m IH]; cbn [bump].
  - rewrite sumQ_cons, !sumQ_nil. cbn [snd]. ring.
  - destruct (String.eqb k key).
    + rewrite !sumQ_cons. cbn [snd].
      destruct (truthy v) eqn:T; [ring|].
      rewrite (not_truthy_zero v T). ring.
    + rewrite !sumQ_cons, IH. ring.
Qed.

Lemma bump_keys (key : string) (a : Q) (m : list (string * Q)) :
  map fst (bump key a m)
  = if existsb (fun k => String.eqb k key) (map fst m) then map fst m
    else (map fst m ++ [key])%list.
Proof.
  induction m as [|[k v] m IH]; cbn [bump map existsb fst]; [reflexivity|].
  destruct (String.eqb k key) eqn:E; cbn [orb map fst]; [reflexivity|].
  rewrite IH. now destruct (existsb _ _).
Qed.

Lemma bump_NoDup (key : string) (a : Q) (m : list (string * Q)) :
  NoDup (map fst m) -> NoDup (map fst (bump key a m)).
Proof.
  intros H. rewrite bump_keys.
  destruct (existsb _ _) eqn:E; [assumption|].
  apply NoDup_app_remove_l with (l := []). cbn [app].
  apply Permutation_NoDup with (l := key :: map fst m).
  - apply Permutation_cons_append.
  - constructor; [|assumption].
    intros Hin. assert (T : existsb (fun k => String.eqb k key) (map fst m) = true).
    { apply existsb_exists. exists key. split; [assumption|apply String.eqb_refl]. }
    congruence.
Qed.

Section Bucketing.

Variable key : Call.t -> option string.
Variable step : list (string * Q) -> Call.t -> list (string * Q).
Hypothesis step_eq :
  forall m c, step m c = match key c with
                         | None => m
                         | Some k => bump k (netPrem c) m
                         end.

Lemma fold_step_total (l : list Call.t) (m : list (string * Q)) :
  (sumQ snd (fold_left step l m)
   == sumQ snd m
      + sumQ netPrem (filter (fun c => filed (key c)) l))%Q.
Proof.
  revert m. induction l as [|c l IH]; intros m; cbn [fold_left filter].
  - rewrite sumQ_nil. ring.
  - rewrite IH, step_eq. destruct (key c) as [k|]; cbn [filed].
    + rewrite bump_total, sumQ_cons. ring.
    + ring.
Qed.

Lemma fold_step_NoDup (l : list Call.t) (m : list (string * Q)) :
  NoDup (map fst m) -> NoDup (map fst (fold_left step l m)).
Proof.
  revert m. induction l as [|c l IH]; intros m H; cbn [fold_left]; [assumption|].
  apply IH. rewrite step_eq. destruct (key c); [now apply bump_NoDup|assumption].
Qed.

End Bucketing.

Lemma filter_filter {A : Type} (f g : A -> bool) (l : list A) :
  filter g (filter f l) = filter (fun x => f x && g x) l.
Proof.
  induction l as [|x l IH]; [reflexivity|]. cbn [filter].
  destruct (f x); cbn [filter andb]; rewrite IH; reflexivity.
Qed.

Lemma bucket_totals (calls : list Call.t) :
  (sumQ snd (monthsOf calls)
   == sumQ netPrem
        (filter (fun c => negb (isOpen c) && filed (monthKey c)) calls))%Q
  /\ (sumQ snd (weeksOf calls)
      == sumQ netPrem
           (filter (fun c => negb (isOpen c) && filed (weekKey c)) calls))%Q.
Proof.
  unfold monthsOf, weeksOf, closedCalls. split.
  - rewrite (fold_step_total monthKey monthStep) by reflexivity.
    rewrite filter_filter, sumQ_nil. ring.
  - rewrite (fold_step_total weekKey weekStep) by reflexivity.
    rewrite filter_filter, sumQ_nil. ring.
Qed.

(** X2: the monthly and the weekly buckets lose and invent nothing: the
    amounts of the buckets add up to the net premium of the non-open
    calls that are filed, which are the ones the two series do not
    skip.  The month key "valueOf" is set aside: it is the one
    seven-character name that the object holding the buckets inherits,
    so that [months[key] || 0] is not a number for it. *)
Theorem buckets_conserve_premium (calls : list Call.t) :
  (forall c, In c calls -> monthKey c <> Some "valueOf") ->
  (sumQ snd (monthsOf calls)
   == sumQ netPrem
        (filter (fun c => negb (isOpen c) && filed (monthKey c)) calls))%Q
  /\ (sumQ snd (weeksOf calls)
      == sumQ netPrem
           (filter (fun c => negb (isOpen c) && filed (weekKey c)) calls))%Q.
Proof.
  intros _. unfold monthsOf, weeksOf, closedCalls. split.
  - rewrite (fold_step_total monthKey monthStep) by reflexivity.
    rewrite filter_filter, sumQ_nil. ring.
  - rewrite (fold_step_total weekKey weekStep) by reflexivity.
    rewrite filter_filter, sumQ_nil. ring.
Qed.

Lemma buckets_conserve_premium_witness :
  (sumQ snd (monthsOf seriesCalls)
   == sumQ netPrem
        (filter (fun c => negb (isOpen c) && filed (monthKey c)) seriesCalls))%Q
  /\ (sumQ snd (weeksOf seriesCalls)
      == sumQ netPrem
           (filter (fun c => negb (isOpen c) && filed (weekKey c)) seriesCalls))%Q.
Proof.
  apply buckets_conserve_premium.
  intros c [<-|[<-|[<-|[]]]]; discriminate.
Defined.

(** X3: no month and no week is filed twice: the keys of the buckets are
    pairwise distinct. *)
Theorem bucket_keys_distinct (calls : list Call.t) :
  NoDup (map fst (monthsOf calls)) /\ NoDup (map fst (weeksOf calls)).
Proof.
  split.
  - apply (fold_step_NoDup monthKey monthStep); [reflexivity|constructor].
  - apply (fold_step_NoDup weekKey weekStep); [reflexivity|constructor].
Qed.

(** ** Sorted series and running totals *)

Lemma Math_round_comp (x y : Q) : (x == y)%Q -> Math_round x = Math_round y.
Proof. intros E. unfold Math_round. now rewrite E. Qed.

Lemma round2_comp (x y : Q) : (x == y)%Q -> round2 x = round2 y.
Proof.
  intros E. unfold round2. rewrite (Math_round_comp (x * 100) (y * 100)); [reflexivity|].
  now rewrite E.
Qed.

Section Series.

Variable localeCompare : string -> string -> Z.

Lemma insert_entry_perm (e : string * Q) (l : list (string * Q)) :
  Permutation (insert_entry localeCompare e l) (e :: l).
Proof.
  induction l as [|h t IH]; cbn [insert_entry]; [reflexivity|].
  destruct (_ <=? _)%Z; [reflexivity|].
  rewrite IH. apply perm_swap.
Qed.

Lemma sortEntries_perm (m : list (string * Q)) :
  Permutation (sortEntries localeCompare m) m.
Proof.
  unfold sortEntries. induction m as [|e m IH]; cbn [fold_right]; [reflexivity|].
  rewrite insert_entry_perm. now constructor.
Qed.

Lemma running_labels (relabel : string -> string) (cum : Q)
      (l : list (string * Q)) :
  map label (running relabel cum l) = map (fun e => relabel (fst e)) l.
Proof.
  revert cum. induction l as [|[k a] l IH]; intros cum; cbn; [reflexivity|].
  now rewrite IH.
Qed.

Lemma running_app (relabel : string -> string) (cum : Q)
      (l l' : list (string * Q)) :
  running relabel cum (l ++ l')
  = (running relabel cum l
     ++ running relabel (fold_left (fun s e => s + snd e)%Q l cum) l')%list.
Proof.
  revert cum. induction l as [|[k a] l IH]; intros cum; cbn; [reflexivity|].
  now rewrite IH.
Qed.

(** X4: in the output of a series the k-th bucket carries the rounded
    amount of the k-th sorted entry, and its cumulative value is the
    rounded sum of the unrounded amounts up to it: rounding happens at
    the output only and never feeds back into the running total. *)
Theorem running_cumulative (relabel : string -> string)
        (l : list (string * Q)) (k : nat) (b : Bucket) :
  nth_error (running relabel 0 l) k = Some b ->
  exists key a,
    nth_error l k = Some (key, a)
    /\ label b = relabel key /\ amount b = round2 a
    /\ cumulative b = round2 (sumQ snd (firstn (S k) l)).
Proof.
  assert (G : forall cum,
             nth_error (running relabel cum l) k = Some b ->
             exists key a,
               nth_error l k = Some (key, a)
               /\ label b = relabel key /\ amount b = round2 a
               /\ cumulative b = round2 (cum + sumQ snd (firstn (S k) l))).
  { revert k. induction l as [|[key a] l IH]; intros k cum H.
    - destruct k; discriminate.
    - destruct k as [|k]; cbn in H.
      + injection H as <-. exists key, a. cbn.
        repeat split. apply round2_comp. unfold sumQ. cbn. ring.
      + destruct (IH k _ H) as (key' & a' & N & L & A & C).
        exists key', a'. repeat split; try assumption.
        rewrite C. apply round2_comp.
        change (firstn (S (S k)) ((key, a) :: l))
          with ((key, a) :: firstn (S k) l).
        rewrite sumQ_cons. cbn [snd]. ring. }
  intros H. destruct (G 0%Q H) as (key & a & N & L & A & C).
  exists key, a. repeat split; try assumption.
  rewrite C. apply round2_comp. ring.
Qed.

Lemma series_last (relabel : string -> string) (m : list (string * Q))
      (pre : list Bucket) (b : Bucket) :
  running relabel 0 (sortEntries localeCompare m) = (pre ++ [b])%list ->
  cumulative b = round2 (sumQ snd m).
Proof.
  intros H.
  destruct (exists_last (l := sortEntries localeCompare m)) as (l0 & [k a] & E).
  { intros N. rewrite N in H. destruct pre; discriminate. }
  rewrite E, running_app in H. cbn [running] in H.
  apply app_inj_tail in H. destruct H as [_ <-]. cbn [cumulative].
  apply round2_comp.
  rewrite <- (sumQ_perm snd _ _ (sortEntries_perm m)), E, sumQ_app, sumQ_cons,
    sumQ_nil, sumQ_acc.
  cbn [snd]. ring.
Qed.

(** X5: whatever order [localeCompare] imposes, each series has exactly
    one bucket for every key that was filed, and the cumulative value of
    its last bucket is the rounded net premium of all calls filed (for
    the months, as long as no month key is the inherited name
    "valueOf"). *)
Theorem series_complete (calls : list Call.t) :
  Permutation (map label (premiumByMonth localeCompare calls))
              (map fst (monthsOf calls))
  /\ Permutation (map label (premiumByWeek localeCompare calls))
                 (map (fun e => slice_from 5 (fst e)) (weeksOf calls))
  /\ (forall pre b,
         (forall c, In c calls -> monthKey c <> Some "valueOf") ->
         premiumByMonth localeCompare calls = (pre ++ [b])%list ->
         cumulative b
         = round2 (sumQ netPrem
                     (filter (fun c => negb (isOpen c) && filed (monthKey c))
                             calls)))
  /\ (forall pre b,
         premiumByWeek localeCompare calls = (pre ++ [b])%list ->
         cumulative b
         = round2 (sumQ netPrem
                     (filter (fun c => negb (isOpen c) && filed (weekKey c))
                             calls))).
Proof.
  unfold premiumByMonth, premiumByWeek.
  destruct (bucket_totals calls) as [Tm Tw].
  refine (conj _ (conj _ (conj _ _))).
  - rewrite running_labels. apply (Permutation_map fst), sortEntries_perm.
  - rewrite running_labels. apply Permutation_map, sortEntries_perm.
  - intros pre b _ H. rewrite (series_last _ _ _ _ H). now apply round2_comp.
  - intros pre b H. rewrite (series_last _ _ _ _ H). now apply round2_comp.
Qed.

End Series.

Lemma running_cumulative_witness :
  exists key a,
    nth_error [("2024-01", 3%Q); ("2024-02", 4%Q)] 1 = Some (key, a)
    /\ label (mkBucket "2024-02" (round2 4) (round2 (0 + 3 + 4))) = key
    /\ amount (mkBucket "2024-02" (round2 4) (round2 (0 + 3 + 4))) = round2 a
    /\ cumulative (mkBucket "2024-02" (round2 4) (round2 (0 + 3 + 4)))
       = round2 (sumQ snd (firstn 2 [("2024-01", 3%Q); ("2024-02", 4%Q)])).
Proof.
  apply (running_cumulative (fun k => k) [("2024-01", 3%Q); ("2024-02", 4%Q)] 1
                            (mkBucket "2024-02" (round2 4) (round2 (0 + 3 + 4)))).
  reflexivity.
Defined.

(** ** Well-formed dates in the time series *)

Lemma slice_to_shape (s : string) (y m d : Z) :
  DateShape s y m d -> String.length (slice_to 7 s) = 7%nat.
Proof. intros []. reflexivity. Qed.

(** A call whose date is a calendar date is skipped by neither series. *)
Lemma dated_call_filed (c : Call.t) :
  isCalendarDate (orElse (Call.dateClosed c) (Call.dateOpened c)) = true ->
  monthKey c = Some (slice_to 7 (orElse (Call.dateClosed c) (Call.dateOpened c)))
  /\ filed (weekKey c) = true.
Proof.
  intros V. destruct (isCalendarDate_inv _ V) as (y & m & d & E & Vc).
  pose proof (civil_shape _ _ _ _ E) as Sh.
  split.
  - unfold monthKey. cbv zeta.
    rewrite nonEmpty_length, (slice_to_shape _ _ _ _ Sh). reflexivity.
  - unfold weekKey. cbv zeta. rewrite (split_shape _ _ _ _ Sh).
    cbn [component nth falsyNum]. apply validCivil_bounds in Vc.
    destruct y as [|y|y]; [lia|reflexivity|lia].
Qed.

(** X6: when every non-open call is dated with a calendar date (its
    close date, or its open date when it has no close date), no call is
    skipped: the monthly buckets and the weekly buckets both add up to
    the net premium of all non-open calls. *)
Theorem dated_series_total (calls : list Call.t) :
  (forall c, In c calls -> isOpen c = false ->
             isCalendarDate (orElse (Call.dateClosed c) (Call.dateOpened c))
             = true) ->
  (sumQ snd (monthsOf calls) == sumQ realized calls)%Q
  /\ (sumQ snd (weeksOf calls) == sumQ realized calls)%Q.
Proof.
  intros V. destruct (bucket_totals calls) as [Tm Tw].
  assert (F : forall (key : Call.t -> option string),
             (forall c, In c calls -> isOpen c = false -> filed (key c) = true) ->
             (sumQ netPrem (filter (fun c => negb (isOpen c) && filed (key c)) calls)
              == sumQ realized calls)%Q).
  { intros key K. clear Tm Tw V.
    induction calls as [|c calls IH]; [reflexivity|].
    cbn [filter]. rewrite (sumQ_cons realized).
    assert (IH' := IH (fun x Hx => K x (or_intror Hx))).
    unfold realized at 1. destruct (isOpen c) eqn:O; cbn [negb andb].
    - rewrite IH'. ring.
    - rewrite (K c (or_introl eq_refl) O), sumQ_cons, IH'. reflexivity. }
  split.
  - rewrite Tm. apply F. intros c Hc O. destruct (dated_call_filed c (V c Hc O)) as [-> _].
    reflexivity.
  - rewrite Tw. apply F. intros c Hc O. now destruct (dated_call_filed c (V c Hc O)).
Qed.

Lemma dated_series_total_witness :
  (sumQ snd (monthsOf seriesCalls) == sumQ realized seriesCalls)%Q
  /\ (sumQ snd (weeksOf seriesCalls) == sumQ realized seriesCalls)%Q.
Proof.
  apply dated_series_total.
  intros c [<-|[<-|[<-|[]]]] _; reflexivity.
Defined.

(** ** Day counts *)

(** X7: between calendar dates the day count does not depend on the
    clock, is zero from a date to itself, changes sign when the two
    dates are swapped, and adds up along a chain of dates. *)
Theorem daysBetween_calendar (clk clk' : Clock) (a b c : string) :
  isCalendarDate a = true -> isCalendarDate b = true ->
  isCalendarDate c = true ->
  exists n m,
    daysBetween clk a b = Some n /\ daysBetween clk b c = Some m
    /\ daysBetween clk' a b = Some n
    /\ daysBetween clk a c = Some (n + m)%Z
    /\ daysBetween clk b a = Some (- n)%Z
    /\ daysBetween clk a a = Some 0%Z.
Proof.
  intros Va Vb Vc.
  exists (dayOf b - dayOf a)%Z, (dayOf c - dayOf b)%Z.
  rewrite !daysBetween_valid by assumption.
  repeat split; f_equal; lia.
Qed.

Lemma daysBetween_calendar_witness :
  exists n m,
    daysBetween sampleClock "2024-01-10" "2024-01-25" = Some n
    /\ daysBetween sampleClock "2024-01-25" "2024-03-01" = Some m
    /\ daysBetween (mkClock "2030-01-01" 0) "2024-01-10" "2024-01-25" = Some n
    /\ daysBetween sampleClock "2024-01-10" "2024-03-01" = Some (n + m)%Z
    /\ daysBetween sampleClock "2024-01-25" "2024-01-10" = Some (- n)%Z
    /\ daysBetween sampleClock "2024-01-10" "2024-01-10" = Some 0%Z.
Proof.
  apply (daysBetween_calendar sampleClock (mkClock "2030-01-01" 0)
                              "2024-01-10" "2024-01-25" "2024-03-01");
    reflexivity.
Defined.

Lemma nearbyTrades_unparsed (clk : Clock) (calls : list Call.t) (c : Call.t) :
  parseLocalDate clk (closeOrToday clk c) = None ->
  nearbyTrades clk calls c = [].
Proof.
  intros H. unfold nearbyTrades. rewrite closeOrToday_eq.
  induction calls as [|o calls IH]; [reflexivity|]. cbn [filter].
  unfold daysBetween at 1. rewrite H.
  destruct (parseLocalDate clk (Call.dateOpened o));
    cbn [absLeNaN]; rewrite andb_false_r; exact IH.
Qed.

Lemma parseLocalDate_lacksParts (clk : Clock) (s : string) :
  lacksParts s = true -> parseLocalDate clk s = None.
Proof.
  unfold lacksParts. intros H. apply andb_true_iff in H. destruct H as [N L].
  destruct s as [|a r]; [discriminate|]. unfold parseLocalDate.
  set (parts := map Number (split_dash (String a r))).
  assert (D : component 2 parts = NaN).
  { unfold component. apply nth_overflow. unfold parts.
    rewrite length_map. apply Nat.ltb_lt in L. lia. }
  rewrite D. unfold newDate.
  destruct (component 0 parts); try reflexivity.
  destruct (sub1 (component 1 parts)); reflexivity.
Qed.

Lemma closeOrToday_dated (clk : Clock) (c : Call.t) :
  lacksParts (Call.dateClosed c) = true ->
  closeOrToday clk c = Call.dateClosed c.
Proof.
  unfold lacksParts, closeOrToday. intros H.
  destruct (Call.dateClosed c); [discriminate|reflexivity].
Qed.

(** X8: a date that is there but has fewer than three parts between
    dashes, such as 01/15/2025, makes the holding period NaN, and NaN
    compares false with every number: a call whose open date or close
    date is of that kind is classified Short-term, and a call whose
    close date is of that kind is never flagged for wash-sale risk. *)
Theorem unparsed_dates_tax (clk : Clock) (calls : list Call.t) (c : Call.t) :
  (lacksParts (Call.dateOpened c) = true
   \/ lacksParts (Call.dateClosed c) = true ->
   held (taxRow clk calls c) = None
   /\ treatment (taxRow clk calls c) = ShortTerm)
  /\ (lacksParts (Call.dateClosed c) = true ->
      washSaleRisk (taxRow clk calls c) = false).
Proof.
  split.
  - intros H.
    assert (E : daysBetween clk (Call.dateOpened c) (closeOrToday clk c) = None).
    { unfold daysBetween. destruct H as [H|H].
      - rewrite (parseLocalDate_lacksParts clk _ H).
        destruct (parseLocalDate clk (closeOrToday clk c)); reflexivity.
      - rewrite (closeOrToday_dated clk c H).
        now rewrite (parseLocalDate_lacksParts clk _ H). }
    unfold taxRow; cbn [held treatment]. rewrite closeOrToday_eq.
    rewrite E. split; reflexivity.
  - intros H. unfold taxRow; cbn [washSaleRisk].
    rewrite (nearbyTrades_unparsed clk calls c); [apply andb_false_r|].
    rewrite (closeOrToday_dated clk c H).
    exact (parseLocalDate_lacksParts clk _ H).
Qed.

Lemma unparsed_dates_tax_witness :
  treatment (taxRow sampleClock [callClosedOn 23 "01/15/2025"]
                    (callClosedOn 23 "01/15/2025")) = ShortTerm
  /\ washSaleRisk (taxRow sampleClock [callClosedOn 23 "01/15/2025"]
                          (callClosedOn 23 "01/15/2025")) = false.
Proof.
  destruct (unparsed_dates_tax sampleClock [callClosedOn 23 "01/15/2025"]
                               (callClosedOn 23 "01/15/2025")) as [T W].
  split.
  - apply T. right. reflexivity.
  - apply W. reflexivity.
Defined.

(** ** More on the strategy comparator *)

Lemma whenTruthy_some (v : option Q) (f : Q -> Q) (r : Q) :
  whenTruthy v f = Some r ->
  exists x, v = Some x /\ truthy x = true /\ r = f x.
Proof.
  unfold whenTruthy. destruct v as [x|]; [|discriminate].
  destruct (truthy x) eqn:T; [|discriminate].
  intros [= <-]. now exists x.
Qed.

(** X9: when alpha is a number it is the net premium plus the assignment
    proceeds minus the market value of the shares called away; without
    an assigned call it is the net premium. *)
Theorem alpha_value (positions : list Position.t) (calls : list Call.t)
        (livePrices : list (string * Q)) (ticker : string) (a : Q) :
  let r := comparison positions calls livePrices ticker in
  alpha r = Some a ->
  exists p, mktPrice r = Some p
            /\ (a == netPremium r + assignmentProceeds r - assignedShares r * p)%Q.
Proof.
  cbv zeta. rewrite alpha_eq, ccReturn_eq, buyHoldReturn_eq.
  set (r := comparison positions calls livePrices ticker).
  destruct (whenTruthy (whenTruthy (mktPrice r) _) (fun v => v - totalCost r)%Q)
    as [cc|] eqn:C; [|discriminate].
  destruct (whenTruthy (whenTruthy (mktPrice r) (fun v => totalShares r * v)%Q) _)
    as [bh|] eqn:B; [|discriminate].
  intros [= <-].
  apply whenTruthy_some in C. destruct C as (cv & C & _ & ->).
  apply whenTruthy_some in C. destruct C as (p & M & _ & ->).
  apply whenTruthy_some in B. destruct B as (bv & B & _ & ->).
  apply whenTruthy_some in B. destruct B as (p' & M' & _ & ->).
  rewrite M in M'. injection M' as <-.
  exists p. split; [exact M|].
  assert (S : (currentShares r == totalShares r - assignedShares r)%Q)
    by reflexivity.
  rewrite S. ring.
Qed.

Lemma alpha_value_witness :
  exists p,
    mktPrice (comparison [heldPosition] [expiredCall300] prices60 "XYZ") = Some p
    /\ (300
        == netPremium (comparison [heldPosition] [expiredCall300] prices60 "XYZ")
           + assignmentProceeds
               (comparison [heldPosition] [expiredCall300] prices60 "XYZ")
           - assignedShares
               (comparison [heldPosition] [expiredCall300] prices60 "XYZ") * p)%Q.
Proof.
  apply (alpha_value [heldPosition] [expiredCall300] prices60 "XYZ" 300%Q).
  reflexivity.
Defined.

(** X10: without a live price for the ticker the four price-dependent
    fields are null; with a price, as long as neither the price, the
    value of the original shares nor the value of the covered-call
    position is zero, the returns are value minus cost and alpha is
    their difference. *)
Theorem returns_by_price (positions : list Position.t) (calls : list Call.t)
        (livePrices : list (string * Q)) (ticker : string) :
  let r := comparison positions calls livePrices ticker in
  (lookup ticker livePrices = None ->
   mktPrice r = None /\ buyHoldReturn r = None /\ ccReturn r = None
   /\ alpha r = None)
  /\ (forall p,
        lookup ticker livePrices = Some p ->
        (~ p == 0)%Q ->
        (~ totalShares r * p == 0)%Q ->
        (~ currentShares r * p + assignmentProceeds r + netPremium r == 0)%Q ->
        buyHoldReturn r = Some (totalShares r * p - totalCost r)%Q
        /\ ccReturn r
           = Some (currentShares r * p + assignmentProceeds r + netPremium r
                   - totalCost r)%Q
        /\ alpha r
           = Some (currentShares r * p + assignmentProceeds r + netPremium r
                   - totalCost r - (totalShares r * p - totalCost r))%Q).
Proof.
  cbv zeta. split.
  - apply comparison_no_price.
  - intros p L Hp Hb Hc.
    destruct (comparison_formulas positions calls livePrices ticker p
                                  L Hp Hb Hc) as [B C].
    refine (conj B (conj C _)). now rewrite alpha_eq, C, B.
Qed.

Lemma returns_by_price_witness :
  mktPrice (comparison [heldPosition] [losingCall] [] "XYZ") = None
  /\ alpha (comparison [heldPosition] [losingCall] [] "XYZ") = None
  /\ exists bh,
       buyHoldReturn (comparison [heldPosition] [expiredCall300] prices60 "XYZ")
       = Some bh.
Proof.
  destruct (returns_by_price [heldPosition] [losingCall] [] "XYZ") as [N _].
  destruct (returns_by_price [heldPosition] [expiredCall300] prices60 "XYZ")
    as [_ F].
  destruct (N eq_refl) as [M [_ [_ A]]].
  refine (conj M (conj A _)).
  destruct (F 60%Q eq_refl) as [B _]; try (cbn; discriminate).
  eexists. exact B.
Defined.

(** X11: the premium counter is the realized net premium of the calls
    plus the close-cost overrides of the expired and the assigned
    calls, which the counter does not take off. *)
Theorem premium_counter_gap (calls : list Call.t) :
  (totalPremiumCollected calls
   == sumQ realized calls
      + sumQ (fun c => match Call.totalCloseCost c with
                       | Some t => t
                       | None => 0
                       end)
             (filter (fun c => match Call.status c with
                               | StExpired | StAssigned => true
                               | _ => false
                               end) calls))%Q.
Proof.
  rewrite totalPremiumCollected_sum.
  induction calls as [|c calls IH]; [reflexivity|].
  cbn [filter]. rewrite !sumQ_cons, IH.
  unfold collected, realized, isOpen, netPrem, closeCostOf.
  destruct (Call.status c); cbn [Status_eqb];
    rewrite ?sumQ_cons; destruct (Call.totalCloseCost c); ring.
Qed.

(** ** One comparison row per ticker *)

Lemma uniq_spec (seen l : list string) (s : string) :
  In s (uniq seen l) <-> In s l /\ ~ In s seen.
Proof.
  revert seen. induction l as [|x l IH]; intros seen; cbn [uniq].
  - cbn. tauto.
  - destruct (existsb (String.eqb x) seen) eqn:E.
    + apply existsb_exists in E. destruct E as (y & Hy & Exy).
      apply String.eqb_eq in Exy. subst y.
      rewrite IH. cbn [In]. split; [tauto|].
      intros [[<-|H] N]; [contradiction|tauto].
    + assert (N : ~ In x seen).
      { intros Hin. assert (existsb (String.eqb x) seen = true).
        { apply existsb_exists. exists x. split; [assumption|apply String.eqb_refl]. }
        congruence. }
      cbn [In]. rewrite IH. cbn [In]. split.
      * intros [<-|[H M]]; [tauto|]. split; [tauto|]. intros K. apply M. now right.
      * intros [[<-|H] M]; [now left|].
        destruct (string_dec x s) as [->|D]; [now left|].
        right. split; [assumption|]. intros [K|K]; [contradiction|contradiction].
Qed.

Lemma uniq_NoDup (seen l : list string) : NoDup (uniq seen l).
Proof.
  revert seen. induction l as [|x l IH]; intros seen; cbn [uniq]; [constructor|].
  destruct (existsb (String.eqb x) seen); [apply IH|].
  constructor; [|apply IH].
  rewrite uniq_spec. intros [_ N]. apply N. now left.
Qed.

Section Partition.

Context {A : Type} (g : A -> string) (f : A -> Q).

Lemma sum_by_key (ts : list string) (l : list A) :
  NoDup ts ->
  (sumQ (fun t => sumQ f (filter (fun x => String.eqb (g x) t) l)) ts
   == sumQ f (filter (fun x => existsb (String.eqb (g x)) ts) l))%Q.
Proof.
  induction 1 as [|t ts Nin ND IH].
  - cbn [existsb]. induction l as [|x l IHl]; cbn [filter]; [reflexivity|exact IHl].
  - rewrite sumQ_cons, IH. clear IH.
    induction l as [|x l IHl]; cbn [filter existsb].
    + rewrite !sumQ_nil. ring.
    + destruct (String.eqb (g x) t) eqn:E; cbn [orb].
      * apply String.eqb_eq in E.
        assert (X : existsb (String.eqb (g x)) ts = false).
        { destruct (existsb _ ts) eqn:X; [|reflexivity].
          apply existsb_exists in X. destruct X as (y & Hy & Ey).
          apply String.eqb_eq in Ey. subst. contradiction. }
        rewrite X, !sumQ_cons, <- IHl. ring.
      * destruct (existsb (String.eqb (g x)) ts);
          rewrite ?sumQ_cons, <- IHl; rewrite ?sumQ_cons; ring.
Qed.

Lemma sum_by_all_keys (l : list A) :
  (sumQ (fun t => sumQ f (filter (fun x => String.eqb (g x) t) l))
        (uniq [] (map g l))
   == sumQ f l)%Q.
Proof.
  rewrite sum_by_key by apply uniq_NoDup.
  replace (filter _ l) with l; [reflexivity|].
  symmetry. apply forallb_filter_id. apply forallb_forall. intros x Hx.
  apply existsb_exists. exists (g x). split; [|apply String.eqb_refl].
  apply uniq_spec. split; [now apply in_map|intros []].
Qed.

End Partition.

Lemma sumQ_map {A B : Type} (h : A -> B) (f : B -> Q) (l : list A) :
  (sumQ f (map h l) == sumQ (fun x => f (h x)) l)%Q.
Proof.
  induction l as [|x l IH]; [reflexivity|].
  cbn [map]. now rewrite !sumQ_cons, IH.
Qed.

(** X12: the comparator has exactly one row for every distinct
    upper-cased ticker among the positions, and the rows split the
    portfolio: their total costs add up to the capital deployed and
    their share counts to the shares held. *)
Theorem comparisons_partition (positions : list Position.t)
        (calls : list Call.t) (livePrices : list (string * Q)) :
  let rows := comparisons positions calls livePrices in
  NoDup (map cmp_ticker rows)
  /\ (forall t, In t (map cmp_ticker rows)
                <-> exists p, In p positions
                              /\ toUpperCase (Position.ticker p) = t)
  /\ (sumQ totalCost rows == totalCapitalDeployed positions)%Q
  /\ (sumQ totalShares rows == sumQ Position.shares positions)%Q.
Proof.
  cbv zeta. unfold comparisons.
  assert (T : map cmp_ticker
                  (map (comparison positions calls livePrices) (tickers positions))
              = tickers positions).
  { rewrite map_map. apply map_id. }
  rewrite T. unfold tickers.
  refine (conj _ (conj _ (conj _ _))).
  - apply uniq_NoDup.
  - intros t. rewrite uniq_spec, in_map_iff. split.
    + intros [(p & E & Hp) _]. now exists p.
    + intros (p & Hp & E). split; [now exists p|intros []].
  - rewrite sumQ_map.
    apply (sum_by_all_keys (fun p => toUpperCase (Position.ticker p))
             (fun p => Position.costBasis p * Position.shares p)%Q positions).
  - rewrite sumQ_map.
    apply (sum_by_all_keys (fun p => toUpperCase (Position.ticker p))
             Position.shares positions).
Qed.

(** ** More on the post-mortem *)

(** X13: for a call with a positive gross premium, premium retained is
    100 when closing cost nothing, at most 100 exactly when the close
    cost is not negative, and positive exactly when the net premium is;
    so a closed call is a Partial Win exactly when it retained a
    positive share of its premium. *)
Theorem premium_retained_range (clk : Clock) (positions : list Position.t)
        (c : Call.t) :
  (0 < grossPrem c)%Q ->
  let pm := getPostMortem clk positions c in
  ((closeCostOf c == 0)%Q -> (premiumRetained pm == 100)%Q)
  /\ ((0 <= closeCostOf c)%Q <-> (premiumRetained pm <= 100)%Q)
  /\ ((0 < netPrem c)%Q <-> (0 < premiumRetained pm)%Q)
  /\ (Call.status c = StClosed ->
      (verdict pm = PartialWin <-> (0 < premiumRetained pm)%Q)).
Proof.
  intros G. cbv zeta.
  assert (R : (premiumRetained (getPostMortem clk positions c)
               == netPrem c / grossPrem c * 100)%Q).
  { unfold getPostMortem. cbn [premiumRetained].
    apply Qltb_lt in G. rewrite G. reflexivity. }
  assert (Gn : ~ (grossPrem c == 0)%Q) by (intros E; rewrite E in G; discriminate G).
  assert (P : (0 < netPrem c)%Q <-> (0 < netPrem c / grossPrem c * 100)%Q).
  { split; intros H.
    - apply Qmult_lt_0_compat; [|reflexivity].
      apply Qlt_shift_div_l; [assumption|]. now rewrite Qmult_0_l.
    - assert (E : (netPrem c == netPrem c / grossPrem c * 100 * (grossPrem c / 100))%Q)
        by (field; assumption).
      rewrite E. apply Qmult_lt_0_compat; [assumption|].
      apply Qlt_shift_div_l; [reflexivity|]. now rewrite Qmult_0_l. }
  refine (conj _ (conj _ (conj _ _))).
  - intros Z. rewrite R. unfold netPrem. rewrite Z. field. assumption.
  - rewrite R. unfold netPrem. split; intros H.
    + assert (E : ((grossPrem c - closeCostOf c) / grossPrem c * 100
                   == 100 - closeCostOf c / grossPrem c * 100)%Q)
        by (field; assumption).
      rewrite E. assert (0 <= closeCostOf c / grossPrem c * 100)%Q; [|lra].
      apply Qmult_le_0_compat; [|discriminate].
      apply Qle_shift_div_l; [assumption|]. now rewrite Qmult_0_l.
    + assert (E : (closeCostOf c
                   == (100 - (grossPrem c - closeCostOf c) / grossPrem c * 100)
                      * (grossPrem c / 100))%Q) by (field; assumption).
      rewrite E. apply Qmult_le_0_compat; [lra|].
      apply Qle_shift_div_l; [reflexivity|]. rewrite Qmult_0_l.
      now apply Qlt_le_weak.
  - now rewrite R.
  - intros S. rewrite R, <- P. unfold getPostMortem. rewrite S.
    cbn [verdict fst]. fold (netPrem c).
    destruct (Qltb 0 (netPrem c)) eqn:L; cbn [fst].
    + apply Qltb_lt in L. tauto.
    + split; [discriminate|]. intros H. apply Qltb_lt in H. congruence.
Qed.

Lemma premium_retained_range_witness :
  (premiumRetained (getPostMortem sampleClock [positionXYZ] callXYZ) == 100)%Q.
Proof.
  destruct (premium_retained_range sampleClock [positionXYZ] callXYZ)
    as (H & _).
  - reflexivity.
  - apply H. reflexivity.
Defined.

(** ** Concentration *)

Lemma addToGroup_total (t tk : string) (v : Q) (m : list (string * Group)) :
  (sumQ (fun e => g_value (snd e)) (addToGroup t tk v m)
   == sumQ (fun e => g_value (snd e)) m + v)%Q.
Proof.
  induction m as [|[k g] m IH]; cbn [addToGroup].
  - rewrite sumQ_cons, !sumQ_nil. cbn. ring.
  - destruct (String.eqb k t); rewrite !sumQ_cons; [cbn; ring|].
    rewrite IH. ring.
Qed.

Lemma addToGroup_keys (t tk : string) (v : Q) (m : list (string * Group)) :
  map fst (addToGroup t tk v m)
  = if existsb (fun k => String.eqb k t) (map fst m) then map fst m
    else (map fst m ++ [t])%list.
Proof.
  induction m as [|[k g] m IH]; cbn [addToGroup map existsb fst]; [reflexivity|].
  destruct (String.eqb k t) eqn:E; cbn [orb map fst]; [reflexivity|].
  rewrite IH. now destruct (existsb _ _).
Qed.

Lemma existsb_eqb_In (t : string) (l : list string) :
  existsb (fun k => String.eqb k t) l = true <-> In t l.
Proof.
  rewrite existsb_exists. split.
  - intros (k & H & E). apply String.eqb_eq in E. now subst.
  - intros H. exists t. split; [assumption|apply String.eqb_refl].
Qed.

Lemma grouped_total (ps : list Position.t) (m : list (string * Group)) :
  (sumQ (fun e => g_value (snd e)) (fold_left groupStep ps m)
   == sumQ (fun e => g_value (snd e)) m
      + sumQ (fun p => Position.costBasis p * Position.shares p) ps)%Q.
Proof.
  revert m. induction ps as [|p ps IH]; intros m; cbn [fold_left].
  - rewrite sumQ_nil. ring.
  - rewrite IH. unfold groupStep. rewrite addToGroup_total, sumQ_cons. ring.
Qed.

Lemma grouped_keys (ps : list Position.t) (m : list (string * Group)) :
  NoDup (map fst m) ->
  NoDup (map fst (fold_left groupStep ps m))
  /\ forall k, In k (map fst (fold_left groupStep ps m))
               <-> In k (map fst m)
                   \/ exists p, In p ps /\ toUpperCase (Position.ticker p) = k.
Proof.
  revert m. induction ps as [|p ps IH]; intros m ND; cbn [fold_left].
  - split; [assumption|]. intros k. split; [now left|].
    intros [H|(p & [] & _)]. exact H.
  - assert (K : map fst (groupStep m p)
                = if existsb (fun k => String.eqb k (toUpperCase (Position.ticker p)))
                             (map fst m)
                  then map fst m
                  else (map fst m ++ [toUpperCase (Position.ticker p)])%list)
      by apply addToGroup_keys.
    assert (ND' : NoDup (map fst (groupStep m p))).
    { rewrite K. destruct (existsb _ _) eqn:E; [assumption|].
      apply Permutation_NoDup
        with (l := toUpperCase (Position.ticker p) :: map fst m).
      - apply Permutation_cons_append.
      - constructor; [|assumption]. intros Hin.
        apply existsb_eqb_In in Hin. congruence. }
    destruct (IH _ ND') as [N M]. split; [assumption|].
    intros k. rewrite M, K. cbn [In].
    destruct (existsb _ _) eqn:E.
    + apply existsb_eqb_In in E. split.
      * intros [H|(q & Hq & Eq)]; [now left|]. right. exists q. auto.
      * intros [H|(q & [<-|Hq] & Eq)]; [now left| |].
        -- left. now rewrite <- Eq.
        -- right. now exists q.
    + rewrite in_app_iff. cbn [In]. split.
      * intros [[H|[H|[]]]|(q & Hq & Eq)]; [now left| |].
        -- right. exists p. auto.
        -- right. exists q. auto.
      * intros [H|(q & [<-|Hq] & Eq)]; [now left; left| |].
        -- left. right. now left.
        -- right. now exists q.
Qed.

Lemma insert_index_perm {V : Type} (e : Z * V) (l : list (Z * V)) :
  Permutation (insert_index e l) (e :: l).
Proof.
  induction l as [|h t IH]; cbn [insert_index]; [reflexivity|].
  destruct (_ <=? _)%Z; [reflexivity|]. rewrite IH. apply perm_swap.
Qed.

Lemma Object_values_perm {V : Type} (m : list (string * V)) :
  Permutation (Object_values m) (map snd m).
Proof.
  unfold Object_values.
  assert (S : Permutation (fold_right insert_index [] (indexed m)) (indexed m)).
  { induction (indexed m) as [|e l IH]; cbn [fold_right]; [reflexivity|].
    rewrite insert_index_perm. now constructor. }
  rewrite S. clear S.
  induction m as [|[k v] m IH]; cbn [indexed filter map fst]; [reflexivity|].
  destruct (arrayIndex k); cbn [filed negb map snd app].
  - now constructor.
  - rewrite <- IH. symmetry. apply Permutation_middle.
Qed.

Lemma insert_share_perm (e : Share) (l : list Share) :
  Permutation (insert_share e l) (e :: l).
Proof.
  induction l as [|h t IH]; cbn [insert_share]; [reflexivity|].
  destruct (Qle_bool _ _); [reflexivity|]. rewrite IH. apply perm_swap.
Qed.

Lemma sort_shares_perm (l : list Share) :
  Permutation (fold_right insert_share [] l) l.
Proof.
  induction l as [|e l IH]; cbn [fold_right]; [reflexivity|].
  rewrite insert_share_perm. now constructor.
Qed.

(** After the sort the first share is the largest. *)
Lemma sort_shares_head (l : list Share) (first : Share) (rest : list Share) :
  fold_right insert_share [] l = first :: rest ->
  forall r, In r l -> (pct r <= pct first)%Q.
Proof.
  revert first rest. induction l as [|e l IH]; intros first rest; [discriminate|].
  cbn [fold_right].
  destruct (fold_right insert_share [] l) as [|h t] eqn:S.
  - assert (l = []).
    { destruct l as [|x l']; [reflexivity|].
      apply (f_equal (@List.length Share)) in S.
      pose proof (Permutation_length (sort_shares_perm (x :: l'))) as P.
      rewrite S in P. discriminate. }
    subst l. cbn. intros [= <- <-] r [<-|[]]. apply Qle_refl.
  - cbn [insert_share]. specialize (IH h t eq_refl).
    destruct (Qle_bool (pct h - pct e) 0) eqn:C; intros [= <- <-] r [<-|Hr].
    + apply Qle_refl.
    + apply Qle_bool_iff in C. specialize (IH r Hr). lra.
    + assert (~ (pct h - pct e <= 0)%Q)
        by (intros L; apply Qle_bool_iff in L; congruence).
      lra.
    + now apply IH.
Qed.

Lemma conc_positions_eq (ps : list Position.t) (total : Q) (calls : list Call.t) :
  conc_positions (concentration_of ps total calls)
  = fold_right insert_share []
      (map (withPct total) (Object_values (fold_left groupStep ps []))).
Proof. destruct ps; reflexivity. Qed.

Lemma conc_positions_perm (ps : list Position.t) (total : Q) (calls : list Call.t) :
  Permutation (conc_positions (concentration_of ps total calls))
              (map (fun e => withPct total (snd e)) (fold_left groupStep ps [])).
Proof.
  rewrite conc_positions_eq, sort_shares_perm, Object_values_perm, map_map.
  reflexivity.
Qed.

Lemma totalCapitalDeployed_sum (ps : list Position.t) :
  totalCapitalDeployed ps
  = sumQ (fun p => Position.costBasis p * Position.shares p)%Q ps.
Proof. reflexivity. Qed.

Lemma sumQ_div {A : Type} (f : A -> Q) (t : Q) (l : list A) :
  (sumQ (fun x => f x / t) l == sumQ f l / t)%Q.
Proof.
  induction l as [|x l IH].
  - rewrite !sumQ_nil. unfold Qdiv. ring.
  - rewrite !sumQ_cons, IH. unfold Qdiv. ring.
Qed.

(** X14: the rows of the concentration view split the capital deployed:
    their values add up to it, and their percentages add up to 1
    whenever the capital deployed is positive; when it is not, every
    percentage is 0. *)
Theorem concentration_shares (positions : list Position.t)
        (calls : list Call.t) :
  let rows := conc_positions (concentration positions calls) in
  (sumQ sh_value rows == totalCapitalDeployed positions)%Q
  /\ ((0 < totalCapitalDeployed positions)%Q -> (sumQ pct rows == 1)%Q)
  /\ (~ (0 < totalCapitalDeployed positions)%Q ->
      forall r, In r rows -> pct r = 0%Q).
Proof.
  cbv zeta. unfold concentration.
  set (total := totalCapitalDeployed positions).
  pose proof (conc_positions_perm positions total calls) as P.
  pose proof (grouped_total positions []) as G.
  rewrite sumQ_nil, <- totalCapitalDeployed_sum in G. fold total in G.
  refine (conj _ (conj _ _)).
  - rewrite (sumQ_perm _ _ _ P), sumQ_map. cbn [withPct sh_value].
    rewrite G. ring.
  - intros H. rewrite (sumQ_perm _ _ _ P), sumQ_map.
    unfold withPct. cbn [pct]. apply Qltb_lt in H as H'. rewrite H'.
    rewrite (sumQ_div (fun e => g_value (snd e))), G.
    field. intros E. rewrite E in H. discriminate H.
  - intros H r Hr. apply (Permutation_in _ P) in Hr.
    apply in_map_iff in Hr. destruct Hr as (e & <- & _).
    unfold withPct. cbn [pct].
    destruct (Qltb 0 total) eqn:L; [|reflexivity].
    apply Qltb_lt in L. contradiction.
Qed.

Lemma maxPct_eq (ps : list Position.t) (total : Q) (calls : list Call.t) :
  (maxPct (concentration_of ps total calls)
   == match conc_positions (concentration_of ps total calls) with
      | first :: _ => pct first
      | [] => 0
      end)%Q.
Proof.
  rewrite conc_positions_eq. destruct ps as [|p ps]; [reflexivity|].
  unfold concentration_of. cbn [maxPct].
  destruct (fold_right insert_share [] _) as [|first rest]; [reflexivity|].
  destruct (truthy (pct first)) eqn:T; [reflexivity|].
  symmetry. now apply not_truthy_zero.
Qed.

(** X15: [maxPct] is the largest percentage of the view: no row exceeds
    it, and when there are rows the first one attains it. *)
Theorem concentration_max (positions : list Position.t) (calls : list Call.t) :
  let c := concentration positions calls in
  (forall r, In r (conc_positions c) -> (pct r <= maxPct c)%Q)
  /\ (forall first rest, conc_positions c = first :: rest ->
                         (pct first == maxPct c)%Q).
Proof.
  cbv zeta. unfold concentration.
  set (total := totalCapitalDeployed positions).
  pose proof (maxPct_eq positions total calls) as M.
  split.
  - intros r Hr. rewrite M.
    destruct (conc_positions (concentration_of positions total calls))
      as [|first rest] eqn:E; [destruct Hr|].
    rewrite conc_positions_eq in E.
    apply (sort_shares_head _ _ _ E).
    apply (Permutation_in _ (sort_shares_perm _)). rewrite E. exact Hr.
  - intros first rest E. rewrite M, E. reflexivity.
Qed.

Lemma grouped_keys_perm (ps : list Position.t) :
  Permutation (map fst (fold_left groupStep ps [])) (tickers ps).
Proof.
  destruct (grouped_keys ps [] (NoDup_nil _)) as [ND M].
  apply NoDup_Permutation; [assumption|apply uniq_NoDup|].
  intros k. rewrite M. cbn [map In]. unfold tickers. rewrite uniq_spec.
  cbn [In]. split.
  - intros [[]|(p & Hp & E)]. split; [|tauto]. apply in_map_iff. now exists p.
  - intros [H _]. apply in_map_iff in H. destruct H as (p & E & Hp).
    right. now exists p.
Qed.

Lemma conc_positions_length (ps : list Position.t) (total : Q)
      (calls : list Call.t) :
  List.length (conc_positions (concentration_of ps total calls))
  = List.length (tickers ps).
Proof.
  rewrite (Permutation_length (conc_positions_perm ps total calls)).
  rewrite length_map, <- (Permutation_length (grouped_keys_perm ps)).
  now rewrite length_map.
Qed.

Lemma sumQ_bound {A : Type} (f : A -> Q) (M : Q) (l : list A) :
  (forall x, In x l -> (f x <= M)%Q) ->
  (sumQ f l <= inject_Z (Z.of_nat (List.length l)) * M)%Q.
Proof.
  induction l as [|x l IH]; intros H.
  - rewrite sumQ_nil. change (inject_Z (Z.of_nat (List.length (@nil A)))) with 0%Q.
    lra.
  - rewrite sumQ_cons. cbn [List.length]. rewrite Nat2Z.inj_succ.
    unfold Z.succ. rewrite inject_Z_plus.
    assert (f x <= M)%Q by (apply H; now left).
    assert (sumQ f l <= inject_Z (Z.of_nat (List.length l)) * M)%Q
      by (apply IH; intros; apply H; now right).
    change (inject_Z 1) with 1%Q. lra.
Qed.

Lemma warning_eq (ps : list Position.t) (total : Q) (calls : list Call.t) :
  warning (concentration_of ps total calls)
  = match conc_positions (concentration_of ps total calls) with
    | first :: _ =>
        if Qltb (6 # 10) (maxPct (concentration_of ps total calls))
        then Some (High, sh_ticker first)
        else if Qltb (4 # 10) (maxPct (concentration_of ps total calls))
             then Some (Medium, sh_ticker first)
             else None
    | [] => None
    end.
Proof. destruct ps; reflexivity. Qed.

Lemma totalUnique_eq (ps : list Position.t) (total : Q) (calls : list Call.t)
      (n : nat) :
  totalUnique (concentration_of ps total calls) = Some n ->
  ps <> [] /\ n = List.length (tickers ps).
Proof.
  destruct ps as [|p ps]; [discriminate|].
  cbn [concentration_of totalUnique]. intros [= <-]. split; [discriminate|reflexivity].
Qed.

(** X16: with a positive capital deployed, a portfolio of one ticker
    always carries the high concentration warning, and a portfolio of
    two tickers always carries a warning, since the larger of two
    percentages is at least one half. *)
Theorem few_tickers_warned (positions : list Position.t) (calls : list Call.t)
        (n : nat) :
  (0 < totalCapitalDeployed positions)%Q ->
  totalUnique (concentration positions calls) = Some n ->
  ((n <= 2)%nat ->
   exists level t, warning (concentration positions calls) = Some (level, t))
  /\ (n = 1%nat ->
      exists t, warning (concentration positions calls) = Some (High, t)).
Proof.
  intros Pos U. unfold concentration in *.
  set (total := totalCapitalDeployed positions) in *.
  destruct (totalUnique_eq _ _ _ _ U) as [NE ->].
  destruct (concentration_shares positions calls) as (_ & S & _).
  specialize (S Pos). cbv zeta in S. unfold concentration in S. fold total in S.
  destruct (concentration_max positions calls) as [Mx Mf].
  unfold concentration in Mx, Mf. fold total in Mx, Mf.
  pose proof (conc_positions_length positions total calls) as L.
  pose proof (sumQ_bound pct _ _ Mx) as B. rewrite S, L in B.
  rewrite warning_eq.
  destruct (conc_positions (concentration_of positions total calls))
    as [|first rest] eqn:E.
  { rewrite sumQ_nil in S. discriminate S. }
  set (M := maxPct (concentration_of positions total calls)) in *.
  split.
  - intros Hn.
    assert (N : (inject_Z (Z.of_nat (List.length (tickers positions))) <= 2)%Q).
    { change 2%Q with (inject_Z 2). rewrite <- Zle_Qle. lia. }
    assert (Hm : (4 # 10 < M)%Q).
    { destruct (Qlt_le_dec (4 # 10) M) as [H|H]; [exact H|exfalso].
      assert (0 <= inject_Z (Z.of_nat (List.length (tickers positions))))%Q
        by (change 0%Q with (inject_Z 0); rewrite <- Zle_Qle; lia).
      nra. }
    apply Qltb_lt in Hm. rewrite Hm.
    destruct (Qltb (6 # 10) M); eauto.
  - intros Hn. rewrite <- L in Hn. cbn [List.length] in Hn.
    destruct rest; [|discriminate].
    rewrite sumQ_cons, sumQ_nil in S.
    assert (Hm : (6 # 10 < M)%Q).
    { pose proof (Mf first [] eq_refl) as F. lra. }
    apply Qltb_lt in Hm. rewrite Hm. eauto.
Qed.

Lemma few_tickers_warned_witness :
  exists level t,
    warning (concentration mixedPositions [openCallOn 90 "xyz"])
    = Some (level, t).
Proof.
  destruct (few_tickers_warned mixedPositions [openCallOn 90 "xyz"] 2) as [H _].
  - reflexivity.
  - reflexivity.
  - apply H. apply le_n.
Defined.

Lemma filter_all_length {A : Type} (f : A -> bool) (l : list A) :
  List.length (filter f l) = List.length l <-> forall x, In x l -> f x = true.
Proof.
  induction l as [|x l IH]; cbn [filter List.length In].
  - split; [intros _ y []|reflexivity].
  - pose proof (filter_length_le f l) as B.
    destruct (f x) eqn:E; cbn [List.length].
    + split.
      * intros H y [<-|Hy]; [exact E|]. apply IH; [lia|exact Hy].
      * intros H. f_equal. apply IH. intros y Hy. apply H. now right.
    + split; [lia|]. intros H. specialize (H x (or_introl eq_refl)). congruence.
Qed.

(** X17: with at least one position, the covered count never exceeds
    the number of distinct tickers, the utilization is a fraction
    between 0 and 1, and it is 1 exactly when every ticker held has an
    open call written on it. *)
Theorem utilization_bounds (positions : list Position.t) (calls : list Call.t) :
  positions <> [] ->
  exists covered total u,
    coveredCount (concentration positions calls) = Some covered
    /\ totalUnique (concentration positions calls) = Some total
    /\ utilizationPct (concentration positions calls) = Some u
    /\ (covered <= total)%nat /\ (0 < total)%nat
    /\ (0 <= u)%Q /\ (u <= 1)%Q
    /\ ((u == 1)%Q <-> forall t, In t (tickers positions) ->
                                 hasOpenCall calls t = true).
Proof.
  intros NE. destruct positions as [|p ps]; [contradiction|].
  unfold concentration, concentration_of.
  set (ts := tickers (p :: ps)).
  set (k := List.length (filter (hasOpenCall calls) ts)).
  exists k, (List.length ts). eexists.
  cbn [coveredCount totalUnique utilizationPct].
  assert (P : (0 < List.length ts)%nat).
  { assert (In (toUpperCase (Position.ticker p)) ts).
    { unfold ts, tickers. apply uniq_spec. split; [now left|intros []]. }
    destruct ts; [contradiction|cbn; lia]. }
  assert (K : (k <= List.length ts)%nat) by apply filter_length_le.
  apply Nat.ltb_lt in P as P'. rewrite P'.
  assert (Tq : (0 < inject_Z (Z.of_nat (List.length ts)))%Q)
    by (change 0%Q with (inject_Z 0); rewrite <- Zlt_Qlt; lia).
  assert (Kq : (0 <= inject_Z (Z.of_nat k))%Q)
    by (change 0%Q with (inject_Z 0); rewrite <- Zle_Qle; lia).
  assert (KT : (inject_Z (Z.of_nat k) <= inject_Z (Z.of_nat (List.length ts)))%Q)
    by (rewrite <- Zle_Qle; lia).
  repeat (split; [reflexivity|]).
  split; [exact K|]. split; [exact P|].
  split; [apply Qle_shift_div_l; [exact Tq|rewrite Qmult_0_l; exact Kq]|].
  split; [apply Qle_shift_div_r; [exact Tq|rewrite Qmult_1_l; exact KT]|].
  rewrite <- (filter_all_length (hasOpenCall calls) ts). fold k.
  split.
  - intros E.
    assert (E' : (inject_Z (Z.of_nat k) == inject_Z (Z.of_nat (List.length ts)))%Q).
    { rewrite <- (Qmult_1_l (inject_Z (Z.of_nat (List.length ts)))), <- E.
      field. intros Z0. rewrite Z0 in Tq. discriminate Tq. }
    unfold Qeq in E'. cbn [inject_Z Qnum Qden] in E'.
    rewrite !Z.mul_1_r in E'. apply Nat2Z.inj in E'. exact E'.
  - intros E. rewrite E. field. intros Z0. rewrite Z0 in Tq. discriminate Tq.
Qed.

Lemma utilization_bounds_witness :
  exists covered total u,
    coveredCount (concentration mixedPositions [openCallOn 90 "xyz"]) = Some covered
    /\ totalUnique (concentration mixedPositions [openCallOn 90 "xyz"]) = Some total
    /\ utilizationPct (concentration mixedPositions [openCallOn 90 "xyz"]) = Some u
    /\ (covered <= total)%nat /\ (0 < total)%nat
    /\ (0 <= u)%Q /\ (u <= 1)%Q
    /\ ((u == 1)%Q <-> forall t, In t (tickers mixedPositions) ->
                                 hasOpenCall [openCallOn 90 "xyz"] t = true).
Proof.
  apply (utilization_bounds mixedPositions [openCallOn 90 "xyz"]).
  discriminate.
Defined.

(** ** Position rows *)

Lemma earned_sum (calls : list Call.t) (p : Position.t) :
  (earned calls p
   == sumQ netPrem (filter (fun c => negb (isOpen c)) (positionCalls calls p)))%Q.
Proof. reflexivity. Qed.

(** X18: for a position with shares, the effective basis is the price
    at which the shares and the premium earned together recover their
    cost, and it lies below the cost basis exactly when premium was
    earned; a position without shares shows its cost basis unchanged,
    and so does one that has no call closed, expired or assigned. *)
Theorem effective_basis (calls : list Call.t) (p : Position.t) :
  ((0 < Position.shares p)%Q ->
   (effectiveBasis calls p * Position.shares p + earned calls p
    == Position.costBasis p * Position.shares p)%Q
   /\ ((effectiveBasis calls p <= Position.costBasis p)%Q
       <-> (0 <= earned calls p)%Q))
  /\ (~ (0 < Position.shares p)%Q ->
      effectiveBasis calls p = Position.costBasis p)
  /\ ((forall c, In c calls -> Call.ticker c = Position.ticker p ->
                 isOpen c = true) ->
      (effectiveBasis calls p == Position.costBasis p)%Q).
Proof.
  unfold effectiveBasis.
  refine (conj _ (conj _ _)).
  - intros S. apply Qltb_lt in S as S'. rewrite S'.
    assert (Sn : ~ (Position.shares p == 0)%Q)
      by (intros E; rewrite E in S; discriminate S).
    split; [field; exact Sn|].
    set (cb := Position.costBasis p) in *. set (sh := Position.shares p) in *.
    set (e := earned calls p).
    assert (E : ((cb * sh - e) / sh == cb - e / sh)%Q) by (field; exact Sn).
    rewrite E. split; intros H.
    + assert (X : (e == e / sh * sh)%Q) by (field; exact Sn).
      rewrite X. apply Qmult_le_0_compat; [lra|now apply Qlt_le_weak].
    + assert (0 <= e / sh)%Q; [|lra].
      apply Qle_shift_div_l; [exact S|]. now rewrite Qmult_0_l.
  - intros S. destruct (Qltb 0 (Position.shares p)) eqn:L; [|reflexivity].
    apply Qltb_lt in L. contradiction.
  - intros H.
    assert (Z0 : (earned calls p == 0)%Q).
    { rewrite earned_sum. unfold positionCalls. rewrite filter_filter.
      replace (filter _ calls) with (@nil Call.t); [reflexivity|].
      symmetry. induction calls as [|c calls IH]; [reflexivity|].
      cbn [filter].
      destruct (String.eqb (Call.ticker c) (Position.ticker p)) eqn:T;
        cbn [andb].
      - apply String.eqb_eq in T. rewrite (H c (or_introl eq_refl) T).
        cbn [negb]. apply IH. intros x Hx. apply H. now right.
      - apply IH. intros x Hx. apply H. now right. }
    destruct (Qltb 0 (Position.shares p)) eqn:L; [|reflexivity].
    apply Qltb_lt in L. rewrite Z0. field.
    intros E. rewrite E in L. discriminate L.
Qed.

Lemma sumQ_split {A : Type} (f : A -> Q) (g : A -> bool) (l : list A) :
  (sumQ f l == sumQ f (filter g l) + sumQ f (filter (fun x => negb (g x)) l))%Q.
Proof.
  induction l as [|x l IH]; [reflexivity|]. cbn [filter].
  destruct (g x); cbn [negb]; rewrite !sumQ_cons, IH; ring.
Qed.

Lemma sumQ_minus {A : Type} (f g : A -> Q) (l : list A) :
  (sumQ f l - sumQ g l == sumQ (fun x => f x - g x) l)%Q.
Proof.
  induction l as [|x l IH]; [reflexivity|].
  rewrite !sumQ_cons, <- IH. ring.
Qed.

(** X19: when the calls on a position's ticker are all written the way
    the position writes it, the comparator's net premium for the ticker
    is the premium earned shown on the position plus the net premium of
    the calls that are still open: the comparator counts open calls, the
    position rows do not. *)
Theorem comparator_counts_open_calls (positions : list Position.t)
        (calls : list Call.t) (livePrices : list (string * Q)) (p : Position.t) :
  (forall c, In c calls ->
             toUpperCase (Call.ticker c) = toUpperCase (Position.ticker p) ->
             Call.ticker c = Position.ticker p) ->
  (netPremium (comparison positions calls livePrices
                          (toUpperCase (Position.ticker p)))
   == earned calls p + sumQ netPrem (filter isOpen (positionCalls calls p)))%Q.
Proof.
  intros H.
  assert (F : filter (fun c => String.eqb (toUpperCase (Call.ticker c))
                                          (toUpperCase (Position.ticker p))) calls
              = positionCalls calls p).
  { unfold positionCalls. apply filter_ext_in. intros c Hc.
    destruct (String.eqb (Call.ticker c) (Position.ticker p)) eqn:E.
    - apply String.eqb_eq in E. rewrite E. apply String.eqb_refl.
    - destruct (String.eqb (toUpperCase (Call.ticker c)) _) eqn:U; [|reflexivity].
      apply String.eqb_eq in U. apply (H c Hc) in U.
      apply String.eqb_neq in E. contradiction. }
  unfold comparison. cbn [netPremium]. rewrite F, sumQ_minus.
  rewrite earned_sum.
  rewrite (sumQ_split netPrem isOpen (positionCalls calls p)).
  unfold netPrem. ring.
Qed.

Lemma comparator_counts_open_calls_witness :
  (netPremium (comparison [heldPosition] [losingCall; openCallOn 91 "XYZ"] lowPrices
                          (toUpperCase (Position.ticker heldPosition)))
   == earned [losingCall; openCallOn 91 "XYZ"] heldPosition
      + sumQ netPrem
          (filter isOpen
                  (positionCalls [losingCall; openCallOn 91 "XYZ"] heldPosition)))%Q.
Proof.
  apply (comparator_counts_open_calls [heldPosition]).
  intros c [<-|[<-|[]]] _; reflexivity.
Defined.

(** ** Open calls *)

Lemma distance_lt (p s k : Q) :
  (0 < p)%Q -> ((s - p) / p * 100 < k)%Q <-> (s < p * (1 + k / 100))%Q.
Proof.
  intros P.
  assert (Pn : ~ (p == 0)%Q) by (intros E; rewrite E in P; discriminate P).
  assert (E : ((s - p) / p * 100 * (p / 100) == s - p)%Q) by (field; exact Pn).
  assert (C : (0 < p / 100)%Q).
  { apply Qlt_shift_div_l; [reflexivity|]. now rewrite Qmult_0_l. }
  split; intros H.
  - apply (Qmult_lt_r _ _ _ C) in H. rewrite E in H.
    assert (X : (k * (p / 100) == p * (k / 100))%Q) by (field; discriminate).
    lra.
  - apply (Qmult_lt_r _ _ (p / 100) C). rewrite E.
    assert (X : (k * (p / 100) == p * (k / 100))%Q) by (field; discriminate).
    lra.
Qed.

(** X20: the risk label of an open call reads the distance of the
    strike from the market price, in per cent of the price.  For a
    positive price and a non-zero strike it is in the money exactly
    when the strike is below the price, high for a distance from 0 to
    2, medium from 2 to 5 and low from 5 on.  The band edges 2 and 5
    are stated with a margin of 10^-9 on either side: the code computes
    the distance in binary floating point, and within that margin of an
    edge the label depends on its rounding.  Without a price, or with a
    price or strike of zero, the label is unknown. *)
Theorem risk_bands (mktPrice : option Q) (strike : Q) :
  (forall p, mktPrice = Some p -> (0 < p)%Q -> ~ (strike == 0)%Q ->
     let r := riskLevel (distancePct mktPrice strike) in
     let d := ((strike - p) / p * 100)%Q in
     let margin := (1 # 1000000000)%Q in
     (r = RiskItm <-> (strike < p)%Q)
     /\ ((0 <= d)%Q -> (d <= 2 - margin)%Q -> r = RiskHigh)
     /\ ((2 + margin <= d)%Q -> (d <= 5 - margin)%Q -> r = RiskMedium)
     /\ ((5 + margin <= d)%Q -> r = RiskLow)
     /\ (r = RiskHigh -> (0 <= d)%Q /\ (d < 2 + margin)%Q)
     /\ (r = RiskMedium -> (2 - margin < d)%Q /\ (d < 5 + margin)%Q)
     /\ (r = RiskLow -> (5 - margin < d)%Q))
  /\ (riskLevel (distancePct mktPrice strike) = RiskUnknown
      <-> mktPrice = None
          \/ (exists p, mktPrice = Some p /\ (p == 0)%Q)
          \/ (strike == 0)%Q).
Proof.
  split.
  - intros p -> P S. cbv zeta. unfold distancePct.
    assert (Pn : ~ (p == 0)%Q) by (intros E; rewrite E in P; discriminate P).
    rewrite (truthy_nonzero p Pn), (truthy_nonzero strike S). cbn [andb riskLevel].
    pose proof (distance_lt p strike 0 P) as D0.
    assert (E0 : (p * (1 + 0 / 100) == p)%Q) by (field; discriminate).
    rewrite E0 in D0.
    set (d := ((strike - p) / p * 100)%Q) in *.
    destruct (Qltb d 0) eqn:L0.
    { apply Qltb_lt in L0. pose proof (proj1 D0 L0).
      repeat split; intros; try discriminate; try assumption; lra. }
    assert (G0 : (0 <= d)%Q).
    { destruct (Qlt_le_dec d 0) as [H|H]; [|exact H].
      apply Qltb_lt in H. congruence. }
    assert (N0 : ~ (strike < p)%Q).
    { intros H. apply D0, Qltb_lt in H. congruence. }
    destruct (Qltb d 2) eqn:L2.
    { apply Qltb_lt in L2.
      repeat split; intros; try discriminate; try assumption; try lra;
        try contradiction. }
    assert (G2 : (2 <= d)%Q).
    { destruct (Qlt_le_dec d 2) as [H|H]; [|exact H].
      apply Qltb_lt in H. congruence. }
    destruct (Qltb d 5) eqn:L5.
    { apply Qltb_lt in L5.
      repeat split; intros; try discriminate; try assumption; try lra;
        try contradiction. }
    assert (G5 : (5 <= d)%Q).
    { destruct (Qlt_le_dec d 5) as [H|H]; [|exact H].
      apply Qltb_lt in H. congruence. }
    repeat split; intros; try discriminate; try lra; try contradiction.
  - unfold distancePct. destruct mktPrice as [p|].
    + destruct (truthy p) eqn:Tp; destruct (truthy strike) eqn:Ts;
        cbn [andb riskLevel].
      * split.
        -- destruct (Qltb _ 0); [discriminate|].
           destruct (Qltb _ 2); [discriminate|].
           destruct (Qltb _ 5); discriminate.
        -- unfold truthy in Tp, Ts. apply negb_true_iff in Tp, Ts.
           intros [H|[(q & [= <-] & H)|H]]; [discriminate| |];
             apply Qeq_eq_bool in H; congruence.
      * split; [intros _|reflexivity]. right. right. now apply not_truthy_zero.
      * split; [intros _|reflexivity]. right. left. exists p.
        split; [reflexivity|now apply not_truthy_zero].
      * split; [intros _|reflexivity]. right. right. now apply not_truthy_zero.
    + cbn. split; [now left|reflexivity].
Qed.

Lemma risk_bands_witness :
  riskLevel (distancePct (Some 100%Q) 103) = RiskMedium
  /\ riskLevel (distancePct (Some 100%Q) 99) = RiskItm.
Proof.
  destruct (risk_bands (Some 100%Q) 103) as [H _].
  destruct (H 100%Q eq_refl) as (_ & _ & M & _).
  - reflexivity.
  - discriminate.
  - destruct (risk_bands (Some 100%Q) 99) as [H' _].
    destruct (H' 100%Q eq_refl) as (I & _).
    + reflexivity.
    + discriminate.
    + split.
      * apply M; vm_compute; discriminate.
      * apply I. reflexivity.
Defined.

(** X21: an open call counts as expired exactly when its expiration is
    today or earlier, for calendar dates; an expiration that is there
    but has fewer than three parts between dashes, such as 06/21/2024,
    leaves the days to expiration NaN and never counts as expired. *)
Theorem open_call_expiry (clk : Clock) (c : Call.t) :
  (isCalendarDate (today clk) = true ->
   isCalendarDate (Call.expiration c) = true ->
   dte clk c = Some (dayOf (Call.expiration c) - dayOf (today clk))%Z
   /\ (expired clk c = true
       <-> (dayOf (Call.expiration c) <= dayOf (today clk))%Z))
  /\ (lacksParts (Call.expiration c) = true ->
      dte clk c = None /\ expired clk c = false).
Proof.
  unfold expired, dte. split.
  - intros Vt Ve. rewrite (daysBetween_valid clk _ _ Vt Ve). split; [reflexivity|].
    cbn [leNaN]. rewrite Z.leb_le. lia.
  - intros H. unfold daysBetween.
    rewrite (parseLocalDate_lacksParts clk _ H). split; reflexivity.
Qed.

Lemma open_call_expiry_witness :
  (dte sampleClock (openCallOn 92 "XYZ") = Some 20%Z
   /\ (expired sampleClock (openCallOn 92 "XYZ") = true
       <-> (dayOf (Call.expiration (openCallOn 92 "XYZ"))
            <= dayOf (today sampleClock))%Z))
  /\ expired sampleClock (Call.mk 93 "XYZ" 60 1 1 "2024-05-20" "06/21/2024"
                                  StOpen "" None None None) = false.
Proof.
  split.
  - apply (proj1 (open_call_expiry sampleClock (openCallOn 92 "XYZ")));
      reflexivity.
  - apply (proj2 (open_call_expiry sampleClock
                    (Call.mk 93 "XYZ" 60 1 1 "2024-05-20" "06/21/2024"
                             StOpen "" None None None))).
    reflexivity.
Defined.

(** ** Identifiers of the snapshot *)

Section FourLists.

Context {A : Type} (n : A) (a b c d : list A).

Lemma perm_ins1 : Permutation ((a ++ [n]) ++ b ++ c ++ d) (n :: a ++ b ++ c ++ d).
Proof.
  rewrite <- app_assoc. cbn [app]. symmetry. apply Permutation_middle.
Qed.

Lemma perm_ins2 : Permutation (a ++ (b ++ [n]) ++ c ++ d) (n :: a ++ b ++ c ++ d).
Proof.
  rewrite <- (app_assoc b). cbn [app]. symmetry.
  rewrite (app_assoc a b (n :: c ++ d)), (app_assoc a b (c ++ d)).
  apply Permutation_middle.
Qed.

Lemma perm_ins3 : Permutation (a ++ b ++ (c ++ [n]) ++ d) (n :: a ++ b ++ c ++ d).
Proof.
  rewrite <- (app_assoc c). cbn [app]. symmetry.
  rewrite (app_assoc a b (c ++ n :: d)), (app_assoc a b (c ++ d)).
  rewrite (app_assoc (a ++ b) c (n :: d)), (app_assoc (a ++ b) c d).
  apply Permutation_middle.
Qed.

Lemma perm_ins4 : Permutation (a ++ b ++ c ++ d ++ [n]) (n :: a ++ b ++ c ++ d).
Proof.
  rewrite !app_assoc. symmetry. apply Permutation_cons_append.
Qed.

Context (x a' c' d' : list A).

Lemma perm_rem1 :
  Permutation a (a' ++ x) ->
  Permutation (a ++ b ++ c ++ d) ((a' ++ b ++ c ++ d) ++ x).
Proof.
  intros P. rewrite P.
  rewrite <- (app_assoc a' x), <- (app_assoc a' (b ++ c ++ d) x).
  apply Permutation_app_head, Permutation_app_comm.
Qed.

Lemma perm_rem3 :
  Permutation c (c' ++ x) ->
  Permutation (a ++ b ++ c ++ d) ((a ++ b ++ c' ++ d) ++ x).
Proof.
  intros P. rewrite P.
  replace ((a ++ b ++ c' ++ d) ++ x)%list with (a ++ b ++ c' ++ d ++ x)%list
    by (now rewrite <- !app_assoc).
  rewrite <- (app_assoc c' x d). do 3 apply Permutation_app_head.
  apply Permutation_app_comm.
Qed.

Lemma perm_rem4 :
  Permutation d (d' ++ x) ->
  Permutation (a ++ b ++ c ++ d) ((a ++ b ++ c ++ d') ++ x).
Proof. intros P. rewrite P, <- !app_assoc. reflexivity. Qed.

End FourLists.

Section MutatorFacts.

Context {W E : Type}.
Local Abbreviation Data := (Snapshot.t W E).

Lemma fresh_add (d d' : Data) :
  Permutation (allIds d') (Snapshot.nextId d :: allIds d) ->
  Snapshot.nextId d' = (Snapshot.nextId d + 1)%Z ->
  idsFresh d -> idsFresh d'.
Proof.
  intros P N [ND B]. split.
  - apply (Permutation_NoDup (Permutation_sym P)).
    constructor; [|assumption]. intros H. apply B in H. lia.
  - intros i Hi. apply (Permutation_in _ P) in Hi. rewrite N.
    destruct Hi as [<-|Hi]; [lia|]. apply B in Hi. lia.
Qed.

Lemma fresh_sub (d d' : Data) (extra : list Z) :
  Permutation (allIds d) (allIds d' ++ extra) ->
  Snapshot.nextId d' = Snapshot.nextId d ->
  idsFresh d -> idsFresh d'.
Proof.
  intros P N [ND B]. split.
  - apply (Permutation_NoDup P) in ND. now apply NoDup_app_remove_r in ND.
  - intros i Hi. rewrite N. apply B.
    apply (Permutation_in _ (Permutation_sym P)). apply in_or_app. now left.
Qed.

Lemma filter_split_perm {A : Type} (f : A -> bool) (l : list A) :
  Permutation l (filter f l ++ filter (fun x => negb (f x)) l).
Proof.
  induction l as [|x l IH]; [reflexivity|]. cbn [filter].
  destruct (f x); cbn [negb app].
  - now constructor.
  - rewrite <- Permutation_middle. now constructor.
Qed.

Lemma map_filter_split {A : Type} (g : A -> Z) (f : A -> bool) (l : list A) :
  Permutation (map g l)
              (map g (filter f l) ++ map g (filter (fun x => negb (f x)) l)).
Proof. rewrite <- map_app. apply Permutation_map, filter_split_perm. Qed.

Lemma map_update_ids {A : Type} (getId : A -> Z) (id : Z) (u : A -> A)
      (l : list A) :
  (forall x, getId (u x) = getId x) ->
  map getId (map (fun x => if (getId x =? id)%Z then u x else x) l)
  = map getId l.
Proof.
  intros H. rewrite map_map. apply map_ext. intros x.
  destruct (getId x =? id)%Z; [apply H|reflexivity].
Qed.

(** X22: the mutators keep identifiers distinct and below the counter:
    a record that is added takes the counter as its id and moves the
    counter on, a removal and a close leave the other ids alone, and an
    update that does not write the id keeps every id. *)
Theorem ids_stay_fresh (data : Data) :
  idsFresh data ->
  (forall pos, idsFresh (addPosition data pos))
  /\ (forall call, idsFresh (addCall data call))
  /\ (forall call, idsFresh (addPastCall data call))
  /\ (forall item, idsFresh (addWatchlistItem data item))
  /\ (forall event, idsFresh (addEvent data event))
  /\ (forall id, idsFresh (removePosition data id))
  /\ (forall id, idsFresh (removeWatchlistItem data id))
  /\ (forall id, idsFresh (removeEvent data id))
  /\ (forall clk id action price, idsFresh (closeCall clk data id action price))
  /\ (forall id updates, (forall p, Position.id (updates p) = Position.id p) ->
                         idsFresh (updatePosition data id updates))
  /\ (forall id updates, (forall c, Call.id (updates c) = Call.id c) ->
                         idsFresh (updateCall data id updates)).
Proof.
  intros F.
  refine (conj _ (conj _ (conj _ (conj _ (conj _ (conj _ (conj _ (conj _
            (conj _ (conj _ _)))))))))).
  - intros pos. apply (fresh_add data); [|reflexivity|assumption].
    unfold allIds, addPosition. cbn [Snapshot.positions Snapshot.calls
                                      Snapshot.watchlist Snapshot.events].
    rewrite map_app. apply perm_ins1.
  - intros call. apply (fresh_add data); [|reflexivity|assumption].
    unfold allIds, addCall. cbn [Snapshot.positions Snapshot.calls
                                  Snapshot.watchlist Snapshot.events].
    rewrite map_app. apply perm_ins2.
  - intros call. apply (fresh_add data); [|reflexivity|assumption].
    unfold allIds, addPastCall. cbn [Snapshot.positions Snapshot.calls
                                      Snapshot.watchlist Snapshot.events].
    rewrite map_app. apply perm_ins2.
  - intros item. apply (fresh_add data); [|reflexivity|assumption].
    unfold allIds, addWatchlistItem. cbn [Snapshot.positions Snapshot.calls
                                           Snapshot.watchlist Snapshot.events].
    rewrite map_app. apply perm_ins3.
  - intros event. apply (fresh_add data); [|reflexivity|assumption].
    unfold allIds, addEvent. cbn [Snapshot.positions Snapshot.calls
                                   Snapshot.watchlist Snapshot.events].
    rewrite map_app. apply perm_ins4.
  - intros id. eapply (fresh_sub data); [|reflexivity|assumption].
    unfold allIds, removePosition. cbn [Snapshot.positions Snapshot.calls
                                         Snapshot.watchlist Snapshot.events].
    apply perm_rem1, map_filter_split.
  - intros id. eapply (fresh_sub data); [|reflexivity|assumption].
    unfold allIds, removeWatchlistItem. cbn [Snapshot.positions Snapshot.calls
                                              Snapshot.watchlist Snapshot.events].
    apply perm_rem3, map_filter_split.
  - intros id. eapply (fresh_sub data); [|reflexivity|assumption].
    unfold allIds, removeEvent. cbn [Snapshot.positions Snapshot.calls
                                      Snapshot.watchlist Snapshot.events].
    apply perm_rem4, map_filter_split.
  - intros clk id action price.
    apply (fresh_sub data _ []); [|reflexivity|assumption].
    unfold allIds, closeCall. cbn [Snapshot.positions Snapshot.calls
                                    Snapshot.watchlist Snapshot.events].
    rewrite (map_update_ids Call.id) by reflexivity.
    now rewrite app_nil_r.
  - intros id updates H.
    apply (fresh_sub data _ []); [|reflexivity|assumption].
    unfold allIds, updatePosition. cbn [Snapshot.positions Snapshot.calls
                                         Snapshot.watchlist Snapshot.events].
    rewrite (map_update_ids Position.id) by assumption.
    now rewrite app_nil_r.
  - intros id updates H.
    apply (fresh_sub data _ []); [|reflexivity|assumption].
    unfold allIds, updateCall. cbn [Snapshot.positions Snapshot.calls
                                     Snapshot.watchlist Snapshot.events].
    rewrite (map_update_ids Call.id) by assumption.
    now rewrite app_nil_r.
Qed.

Lemma calls_ids_NoDup (data : Data) :
  idsFresh data -> NoDup (map Call.id (Snapshot.calls data)).
Proof.
  intros [ND _]. unfold allIds in ND.
  apply NoDup_app_remove_l in ND. now apply NoDup_app_remove_r in ND.
Qed.

Lemma call_id_below (data : Data) (c : Call.t) :
  idsFresh data -> In c (Snapshot.calls data) ->
  (Call.id c < Snapshot.nextId data)%Z.
Proof.
  intros [_ B] Hin. apply B. unfold allIds.
  apply in_or_app. right. apply in_or_app. left. now apply in_map.
Qed.

Lemma same_id_same_call (l : list Call.t) (x c : Call.t) :
  NoDup (map Call.id l) -> In x l -> In c l -> Call.id x = Call.id c -> x = c.
Proof.
  induction l as [|a l IH]; intros ND Hx Hc Ei; [destruct Hx|].
  cbn [map] in ND. inversion ND as [|? ? Ha ND']; subst.
  destruct Hx as [->|Hx], Hc as [->|Hc]; try reflexivity.
  - exfalso. apply Ha. rewrite Ei. now apply in_map.
  - exfalso. apply Ha. rewrite <- Ei. now apply in_map.
  - now apply IH.
Qed.

Lemma update_absent (id : Z) (u : Call.t -> Call.t) (l : list Call.t) :
  ~ In id (map Call.id l) ->
  map (fun x => if (Call.id x =? id)%Z then u x else x) l = l.
Proof.
  induction l as [|a l IH]; intros H; [reflexivity|]. cbn [map] in *.
  destruct (Z.eqb_spec (Call.id a) id) as [Ei|_].
  - exfalso. apply H. now left.
  - f_equal. apply IH. intros Hin. apply H. now right.
Qed.

Lemma sumQ_update (g : Call.t -> Q) (u : Call.t -> Call.t) (c : Call.t)
      (l : list Call.t) :
  NoDup (map Call.id l) -> In c l ->
  (sumQ g (map (fun x => if (Call.id x =? Call.id c)%Z then u x else x) l)
   == sumQ g l - g c + g (u c))%Q.
Proof.
  induction l as [|a l IH]; intros ND Hin; [destruct Hin|].
  cbn [map] in ND. inversion ND as [|? ? Ha ND']; subst.
  cbn [map]. rewrite !sumQ_cons. destruct Hin as [->|Hin].
  - rewrite Z.eqb_refl, update_absent by assumption. ring.
  - destruct (Z.eqb_spec (Call.id a) (Call.id c)) as [Ei|_].
    + exfalso. apply Ha. rewrite Ei. now apply in_map.
    + rewrite IH by assumption. ring.
Qed.

Lemma orZero_orZero (x : option Q) : orZero (Some (orZero x)) = orZero x.
Proof.
  destruct x as [v|]; cbn [orZero]; [|reflexivity].
  destruct (truthy v) eqn:T; [now rewrite T|reflexivity].
Qed.

(** X23: closing an open call whose id no other call has moves the
    premium counter by that call alone: by its gross premium when it
    expires or is assigned, by gross premium less the cost of the
    buy-back (the override, else price x contracts x 100) when it is
    bought to close. *)
Theorem close_realizes_premium (clk : Clock) (data : Data) (c : Call.t)
        (action : Status) (closePrice : option Q) :
  NoDup (map Call.id (Snapshot.calls data)) ->
  In c (Snapshot.calls data) ->
  Call.status c = StOpen ->
  (totalPremiumCollected
     (Snapshot.calls (closeCall clk data (Call.id c) action closePrice))
   == totalPremiumCollected (Snapshot.calls data)
      + match action with
        | StOpen => 0
        | StClosed =>
            grossPrem c
            - match Call.totalCloseCost c with
              | Some t => t
              | None => orZero closePrice * Call.contracts c * 100
              end
        | _ => grossPrem c
        end)%Q.
Proof.
  intros ND Hin Op. rewrite !totalPremiumCollected_sum.
  unfold closeCall. cbn [Snapshot.calls].
  rewrite (sumQ_update collected _ c) by assumption.
  assert (C0 : collected c = 0%Q) by (unfold collected; now rewrite Op).
  rewrite C0.
  assert (G : grossPrem (Call_closed action (today clk) (orZero closePrice) c)
              = grossPrem c) by reflexivity.
  unfold collected, netPrem. rewrite G.
  unfold closeCostOf, Call_closed.
  cbn [Call.status Call.totalCloseCost Call.closePrice Call.contracts].
  rewrite orZero_orZero.
  destruct action; destruct (Call.totalCloseCost c); ring.
Qed.

(** X24: a roll saves two snapshots, both built from the snapshot of the
    render. The first holds the old call closed and does not hold the
    new one; the second holds the new call beside the old call as it
    was, still open, so its premium counter is the one before the
    roll. *)
Theorem roll_saves_apart (clk : Clock) (data : Data) (c newCall : Call.t)
        (closePrice : option Q) :
  idsFresh data ->
  In c (Snapshot.calls data) ->
  Call.status c = StOpen ->
  exists closed added,
    onRoll clk data (Call.id c) closePrice newCall = [closed; added]
    /\ (forall x, In x (Snapshot.calls closed) ->
                  Call.id x <> Snapshot.nextId data)
    /\ (forall x, In x (Snapshot.calls closed) -> Call.id x = Call.id c ->
                  Call.status x = StClosed)
    /\ (forall x, In x (Snapshot.calls added) -> Call.id x = Call.id c ->
                  x = c)
    /\ (exists x, In x (Snapshot.calls added)
                  /\ Call.id x = Snapshot.nextId data)
    /\ (totalPremiumCollected (Snapshot.calls added)
        == totalPremiumCollected (Snapshot.calls data))%Q
    /\ In (Call_closed StClosed (today clk) (orZero closePrice) c)
          (Snapshot.calls closed)
    /\ In c (Snapshot.calls added).
Proof.
  intros F Hin Op.
  exists (closeCall clk data (Call.id c) StClosed closePrice),
         (addCall data newCall).
  refine (conj eq_refl (conj _ (conj _ (conj _ (conj _ (conj _ (conj _ _))))))).
  - intros x Hx Ei. unfold closeCall in Hx. cbn [Snapshot.calls] in Hx.
    apply in_map_iff in Hx. destruct Hx as [y [Hy Iy]].
    pose proof (call_id_below data y F Iy) as B.
    destruct (Call.id y =? Call.id c)%Z; subst x; cbn in Ei; lia.
  - intros x Hx Ei. unfold closeCall in Hx. cbn [Snapshot.calls] in Hx.
    apply in_map_iff in Hx. destruct Hx as [y [Hy Iy]].
    destruct (Z.eqb_spec (Call.id y) (Call.id c)) as [Ey|Ny]; subst x.
    + reflexivity.
    + contradiction.
  - intros x Hx Ei. unfold addCall in Hx. cbn [Snapshot.calls] in Hx.
    apply in_app_or in Hx. destruct Hx as [Hx|[<-|[]]].
    + exact (same_id_same_call _ x c (calls_ids_NoDup data F) Hx Hin Ei).
    + pose proof (call_id_below data c F Hin) as B. cbn in Ei. lia.
  - eexists. split.
    + unfold addCall. cbn [Snapshot.calls]. apply in_or_app. right.
      left. reflexivity.
    + reflexivity.
  - unfold addCall. cbn [Snapshot.calls].
    rewrite !totalPremiumCollected_sum, sumQ_app, sumQ_cons, sumQ_nil.
    unfold collected at 2. cbn [Call_withStatus Call.status]. ring.
  - unfold closeCall. cbn [Snapshot.calls]. apply in_map_iff.
    exists c. split; [|exact Hin]. now rewrite Z.eqb_refl.
  - unfold addCall. cbn [Snapshot.calls]. apply in_or_app. now left.
Qed.

End MutatorFacts.

Lemma sampleData_fresh : idsFresh sampleData.
Proof.
  split.
  - unfold allIds. cbn. repeat constructor; cbn; intuition discriminate.
  - unfold allIds. cbn. intros i H. intuition lia.
Qed.

Lemma ids_stay_fresh_witness :
  idsFresh sampleData /\ idsFresh (addCall sampleData rolledCall).
Proof.
  split; [exact sampleData_fresh|].
  exact (proj1 (proj2 (ids_stay_fresh sampleData sampleData_fresh)) rolledCall).
Defined.

Lemma close_realizes_premium_witness :
  (totalPremiumCollected
     (Snapshot.calls
        (closeCall sampleClock sampleData 2 StClosed (Some (1 # 2))))
   == 0 + (100 - 50))%Q.
Proof.
  assert (H := close_realizes_premium sampleClock sampleData
                 (openCallOn 2 "XYZ") StClosed (Some (1 # 2))).
  cbn [Call.id openCallOn] in H. rewrite H.
  - reflexivity.
  - cbn. repeat constructor. intros [].
  - left. reflexivity.
  - reflexivity.
Defined.

Lemma roll_saves_apart_witness :
  exists closed added,
    onRoll sampleClock sampleData 2 (Some (1 # 2)) rolledCall = [closed; added]
    /\ (totalPremiumCollected (Snapshot.calls added) == 0)%Q.
Proof.
  destruct (roll_saves_apart sampleClock sampleData (openCallOn 2 "XYZ")
              rolledCall (Some (1 # 2)) sampleData_fresh
              (or_introl eq_refl) eq_refl)
    as [closed [added [E [_ [_ [_ [_ [T _]]]]]]]].
  exists closed, added. split; [exact E|]. rewrite T. reflexivity.
Defined.

(** ** The storage endpoint *)

Section Storage.

Context {D : Type}.

Lemma acceptedCode_length (v : Value) (code : string) :
  acceptedCode v = Some code ->
  v = Str code /\ (2 <= String.length code <= 50)%nat.
Proof.
  destruct v as [s|b]; cbn [acceptedCode]; [|discriminate].
  destruct (negb (nonEmpty s)) eqn:N; cbn [orb]; [discriminate|].
  destruct (String.length s <? 2)%nat eqn:L2; cbn [orb]; [discriminate|].
  destruct (50 <? String.length s)%nat eqn:L50; [discriminate|].
  intros [= <-]. apply Nat.ltb_ge in L2, L50. auto.
Qed.

Lemma acceptedCode_Str (s : string) :
  (2 <= String.length s <= 50)%nat -> acceptedCode (Str s) = Some s.
Proof.
  intros [L2 L50]. cbn [acceptedCode].
  destruct s as [|a r]; [cbn in L2; lia|]. cbn [nonEmpty negb orb].
  apply Nat.ltb_ge in L2, L50. now rewrite L2, L50.
Qed.

Lemma acceptedCode_refused (s : string) :
  (String.length s < 2 \/ 50 < String.length s)%nat ->
  acceptedCode (Str s) = None.
Proof.
  intros H. cbn [acceptedCode].
  destruct (negb (nonEmpty s)); cbn [orb]; [reflexivity|].
  destruct (Nat.ltb_spec (String.length s) 2); cbn [orb]; [reflexivity|].
  destruct (Nat.ltb_spec 50 (String.length s)); [reflexivity|lia].
Qed.

(** X25: what a POST stores under a code, a GET reads back under every
    code that differs from it only in case and in white space around
    it, and a GET under a code of another key is answered as before the
    POST. *)
Theorem store_round_trip (kv : string -> option D) (post get : Request D)
        (c1 c2 : string) (v : Value) (data : D) :
  method post = POST ->
  acceptedCode (requestCode post) = Some c1 ->
  body post = Fields v (Some data) ->
  method get = GET ->
  acceptedCode (requestCode get) = Some c2 ->
  exists kv',
    handler true kv post = (mkResponse 200 OkTrue, kv')
    /\ (trim (toLowerCase c1) = trim (toLowerCase c2) ->
        handler true kv' get = (mkResponse 200 (Data (Some data)), kv'))
    /\ (trim (toLowerCase c1) <> trim (toLowerCase c2) ->
        handler true kv' get = (fst (handler true kv get), kv')).
Proof.
  intros Mp Cp Bp Mg Cg.
  exists (kv_set (storageKey c1) data kv).
  refine (conj _ (conj _ _)).
  - unfold handler. now rewrite Cp, Mp, Bp.
  - intros K. unfold handler. rewrite Cg, Mg.
    unfold kv_set, storageKey. rewrite K, String.eqb_refl. reflexivity.
  - intros K. unfold handler. rewrite Cg, Mg. cbn [fst].
    unfold kv_set, storageKey.
    destruct (String.eqb_spec ("cc:" ++ trim (toLowerCase c2))
                              ("cc:" ++ trim (toLowerCase c1))) as [Eq|_].
    + exfalso. apply K. cbn in Eq. now injection Eq.
    + reflexivity.
Qed.

(** X26: the handler answers 200, 400, 405 or 500; it leaves the store
    as it was unless it answers [{ ok: true }], which only a POST with
    data gets, and then the store differs in the key of the code alone;
    405 goes to other methods only, and nothing is answered 200 while
    the store fails. *)
Theorem handler_outcomes (up : bool) (kv : string -> option D)
        (req : Request D) :
  let r := fst (handler up kv req) in
  let kv' := snd (handler up kv req) in
  (res_status r = 200 \/ res_status r = 400 \/ res_status r = 405
   \/ res_status r = 500)%Z
  /\ (res_json r <> OkTrue -> kv' = kv)
  /\ (res_json r = OkTrue ->
      method req = POST
      /\ exists code v data,
           requestCode req = Str code /\ body req = Fields v (Some data)
           /\ kv' = kv_set (storageKey code) data kv)
  /\ (res_status r = 405%Z -> method req = OtherMethod)
  /\ (up = false -> res_status r <> 200%Z).
Proof.
  unfold handler.
  destruct (acceptedCode (requestCode req)) as [code|] eqn:A.
  - apply acceptedCode_length in A. destruct A as [A _].
    destruct (method req) eqn:M.
    + destruct up; cbn; repeat split; auto; try discriminate.
    + destruct (body req) as [|v [data|]] eqn:B.
      * cbn. repeat split; auto; try discriminate.
      * destruct up; cbn.
        -- refine (conj _ (conj _ (conj _ (conj _ _)))); auto;
             try discriminate.
           ++ intros H. now contradiction H.
           ++ intros _. split; [reflexivity|]. now exists code, v, data.
        -- repeat split; auto; try discriminate.
      * cbn. repeat split; auto; try discriminate.
    + cbn. repeat split; auto; try discriminate.
  - cbn. repeat split; auto; try discriminate.
Qed.

(** X27: a code in the query string that is not empty is the code of the
    request, whatever the body carries: when its length is outside 2 to
    50 the answer is 400 for every method, and a POST under a good
    query code with no body at all is answered 500, not 400. *)
Theorem query_code_first (up : bool) (kv : string -> option D)
        (req : Request D) (q : string) :
  query_code req = Str q ->
  q <> "" ->
  requestCode req = Str q
  /\ ((String.length q < 2 \/ 50 < String.length q)%nat ->
      handler up kv req
      = (mkResponse 400 (Error "Invalid household code"), kv))
  /\ ((2 <= String.length q <= 50)%nat -> method req = POST ->
      body req = NoBody ->
      handler up kv req
      = (mkResponse 500 (Error "Failed to save data"), kv)).
Proof.
  intros Q N.
  assert (R : requestCode req = Str q).
  { unfold requestCode, orValue. rewrite Q. cbn [valueTruthy].
    destruct q; [contradiction|reflexivity]. }
  refine (conj R (conj _ _)).
  - intros L. unfold handler. now rewrite R, acceptedCode_refused.
  - intros L M B. unfold handler. now rewrite R, acceptedCode_Str, M, B.
Qed.

End Storage.

Lemma store_round_trip_witness :
  exists kv',
    handler true (fun _ => None)
            (mkRequest POST undefined (Fields (Str " Smith") (Some 7%Z)))
    = (mkResponse 200 OkTrue, kv')
    /\ handler true kv' (mkRequest GET (Str "smith ") NoBody)
       = (mkResponse 200 (Data (Some 7%Z)), kv').
Proof.
  destruct (store_round_trip (fun _ => None)
              (mkRequest POST undefined (Fields (Str " Smith") (Some 7%Z)))
              (mkRequest GET (Str "smith ") NoBody)
              " Smith" "smith " (Str " Smith") 7%Z
              eq_refl eq_refl eq_refl eq_refl eq_refl)
    as [kv' [P [G _]]].
  exists kv'. split; [exact P|]. apply G. reflexivity.
Defined.

Lemma handler_outcomes_witness :
  snd (handler false (fun _ => Some 1%Z)
               (mkRequest POST (Str "smith") (Fields undefined (Some 2%Z))))
      "cc:smith"
  = Some 1%Z.
Proof.
  destruct (handler_outcomes false (fun _ => Some 1%Z)
              (mkRequest POST (Str "smith") (Fields undefined (Some 2%Z))))
    as [_ [K _]].
  rewrite K; [reflexivity|]. cbn. discriminate.
Defined.

Lemma query_code_first_witness :
  handler true (fun _ => @None Z)
          (mkRequest GET (Str "a") (Fields (Str "smith") None))
  = (mkResponse 400 (Error "Invalid household code"), fun _ => None).
Proof.
  apply (query_code_first true (fun _ => @None Z)
           (mkRequest GET (Str "a") (Fields (Str "smith") None)) "a").
  - reflexivity.
  - discriminate.
  - left. cbn. lia.
Defined.

(** ** The household code between client and endpoint *)

Lemma codeChar_lower (a : ascii) : codeChar a = true -> lower_ascii a = a.
Proof.
  destruct a as [[] [] [] [] [] [] [] []]; cbn; intros H;
    try reflexivity; discriminate.
Qed.

Lemma codeChar_not_space (a : ascii) : codeChar a = true -> isSpace a = false.
Proof.
  destruct a as [[] [] [] [] [] [] [] []]; cbn; intros H;
    try reflexivity; discriminate.
Qed.

Lemma toLowerCase_kept (s : string) :
  toLowerCase (keepCodeChars s) = keepCodeChars s.
Proof.
  induction s as [|a r IH]; [reflexivity|]. cbn [keepCodeChars].
  destruct (codeChar a) eqn:C; [|exact IH].
  cbn [toLowerCase]. now rewrite IH, codeChar_lower.
Qed.

Lemma trimStart_kept (s : string) :
  trimStart (keepCodeChars s) = keepCodeChars s.
Proof.
  induction s as [|a r IH]; [reflexivity|]. cbn [keepCodeChars].
  destruct (codeChar a) eqn:C; [|exact IH].
  cbn [trimStart]. now rewrite codeChar_not_space.
Qed.

Lemma trimEnd_kept (s : string) :
  trimEnd (keepCodeChars s) = keepCodeChars s.
Proof.
  induction s as [|a r IH]; [reflexivity|]. cbn [keepCodeChars].
  destruct (codeChar a) eqn:C; [|exact IH].
  cbn [trimEnd]. rewrite IH, codeChar_not_space by assumption.
  now destruct (keepCodeChars r).
Qed.

Lemma trim_kept (s : string) : trim (keepCodeChars s) = keepCodeChars s.
Proof. unfold trim. now rewrite trimStart_kept, trimEnd_kept. Qed.

Lemma handleJoin_kept (value code : string) :
  handleJoin (onCodeChange value) = Some code ->
  code = onCodeChange value /\ (2 <= String.length code)%nat.
Proof.
  unfold handleJoin, onCodeChange. rewrite trim_kept, toLowerCase_kept.
  destruct (Nat.ltb_spec (String.length (keepCodeChars (toLowerCase value))) 2);
    [discriminate|].
  intros [= <-]. auto.
Qed.

(** X28: the code the join screen sets is the text of the box as the
    input filter left it, and the endpoint files it under that very
    text. With at most 50 characters, what a save stores the next load
    reads back; with more, which the join screen lets through, every
    save and every load is refused with 400 and the load finds
    nothing. *)
Theorem joined_code_storage {D : Type} (kv : string -> option D)
        (value code : string) (newData : D) :
  handleJoin (onCodeChange value) = Some code ->
  code = onCodeChange value
  /\ storageKey code = "cc:" ++ code
  /\ ((String.length code <= 50)%nat ->
      exists kv',
        handler true kv (saveRequest code newData)
        = (mkResponse 200 OkTrue, kv')
        /\ loaded (fst (handler true kv' (loadRequest code))) = Some newData)
  /\ ((50 < String.length code)%nat ->
      forall up,
        handler up kv (saveRequest code newData)
        = (mkResponse 400 (Error "Invalid household code"), kv)
        /\ res_status (fst (handler up kv (loadRequest code))) = 400%Z
        /\ loaded (fst (handler up kv (loadRequest code))) = None).
Proof.
  intros J. destruct (handleJoin_kept _ _ J) as [E L2].
  assert (K : storageKey code = "cc:" ++ code).
  { unfold storageKey. rewrite E. unfold onCodeChange.
    now rewrite toLowerCase_kept, trim_kept. }
  assert (N : nonEmpty code = true).
  { destruct code; [cbn in L2; lia|reflexivity]. }
  assert (Rs : requestCode (saveRequest code newData) = Str code)
    by reflexivity.
  assert (Rl : requestCode (@loadRequest D code) = Str code).
  { unfold requestCode, loadRequest, orValue. cbn [query_code valueTruthy].
    now rewrite N. }
  refine (conj E (conj K (conj _ _))).
  - intros L50. exists (kv_set (storageKey code) newData kv). split.
    + unfold handler. rewrite Rs, acceptedCode_Str by lia. reflexivity.
    + unfold handler. rewrite Rl, acceptedCode_Str by lia.
      cbn [loadRequest method fst loaded res_json]. unfold kv_set.
      now rewrite String.eqb_refl.
  - intros L50 up. unfold handler.
    rewrite Rs, Rl, acceptedCode_refused by lia. auto.
Qed.

Lemma joined_code_storage_witness :
  storageKey "smith-family" = "cc:smith-family".
Proof.
  refine (proj1 (proj2 (joined_code_storage (fun _ => @None Z)
                          "Smith-Family!" "smith-family" 0%Z _))).
  reflexivity.
Defined.

(** ** The write-call calculator *)

Lemma suggestedStrike_bounds (p f : Q) :
  (p * f <= suggestedStrike p f)%Q
  /\ (suggestedStrike p f < p * f + (1 # 2))%Q.
Proof.
  unfold suggestedStrike, Math_ceil.
  pose proof (Qle_ceiling (p * f * 2)) as U.
  pose proof (Qceiling_lt (p * f * 2)) as L.
  set (n := Qceiling (p * f * 2)) in *.
  replace (n - 1)%Z with (n + - 1)%Z in L by lia.
  rewrite inject_Z_plus in L.
  change (inject_Z (- 1)) with (- (1))%Q in L.
  split.
  - apply Qle_shift_div_l; [reflexivity|]. exact U.
  - apply Qlt_shift_div_r; [reflexivity|]. lra.
Qed.

Lemma suggestedStrike_mono (p f g : Q) :
  (0 <= p)%Q -> (f <= g)%Q -> (suggestedStrike p f <= suggestedStrike p g)%Q.
Proof.
  intros P FG. unfold suggestedStrike, Math_ceil.
  apply Qle_shift_div_l; [reflexivity|].
  unfold Qdiv. rewrite <- Qmult_assoc.
  setoid_replace (/ 2 * 2)%Q with 1%Q by reflexivity. rewrite Qmult_1_r.
  rewrite <- Zle_Qle. apply Qceiling_resp_le. nra.
Qed.

(** X29: for a price above zero, and up to 10^12, the calculator
    suggests three strikes.  Each is a multiple of one half, not below
    the price times 1.08, 1.04 and 1.01, and less than half a dollar
    above it; they are ordered conservative, moderate, aggressive from
    the top and all lie above the price.  The products are stated with
    an allowance of one part in 10^15: the code multiplies in binary
    floating point before it rounds up, so that a product on or next to
    a half dollar can land on either side of it.  No strike is
    suggested for a price that is zero or below. *)
Theorem suggested_strikes (currentPrice : Q) :
  ((0 < currentPrice)%Q -> (currentPrice <= 1000000000000)%Q ->
   let lo := (1 - (1 # 1000000000000000))%Q in
   let hi := (1 + (1 # 1000000000000000))%Q in
   exists conservative moderate aggressive,
     suggestedStrikes currentPrice
     = [("Conservative", conservative); ("Moderate", moderate);
        ("Aggressive", aggressive)]
     /\ (currentPrice * (108 # 100) * lo <= conservative
         < currentPrice * (108 # 100) * hi + (1 # 2))%Q
     /\ (currentPrice * (104 # 100) * lo <= moderate
         < currentPrice * (104 # 100) * hi + (1 # 2))%Q
     /\ (currentPrice * (101 # 100) * lo <= aggressive
         < currentPrice * (101 # 100) * hi + (1 # 2))%Q
     /\ (currentPrice < aggressive)%Q
     /\ (aggressive <= moderate)%Q
     /\ (moderate <= conservative)%Q
     /\ (exists k : Z, conservative == inject_Z k / 2)%Q
     /\ (exists k : Z, moderate == inject_Z k / 2)%Q
     /\ (exists k : Z, aggressive == inject_Z k / 2)%Q)
  /\ ((currentPrice <= 0)%Q -> suggestedStrikes currentPrice = []).
Proof.
  split.
  - intros P _. cbv zeta. unfold suggestedStrikes.
    rewrite (proj2 (Qltb_lt 0 currentPrice) P).
    do 3 eexists. split; [reflexivity|].
    pose proof (suggestedStrike_bounds currentPrice (108 # 100)) as [C1 C2].
    pose proof (suggestedStrike_bounds currentPrice (104 # 100)) as [M1 M2].
    pose proof (suggestedStrike_bounds currentPrice (101 # 100)) as [A1 A2].
    refine (conj _ (conj _ (conj _ (conj _ (conj _ (conj _
              (conj _ (conj _ _)))))))).
    + split; nra.
    + split; nra.
    + split; nra.
    + apply Qlt_le_trans with (2 := A1). nra.
    + apply suggestedStrike_mono; [now apply Qlt_le_weak|].
      unfold Qle; cbn; lia.
    + apply suggestedStrike_mono; [now apply Qlt_le_weak|].
      unfold Qle; cbn; lia.
    + eexists. reflexivity.
    + eexists. reflexivity.
    + eexists. reflexivity.
  - intros P. unfold suggestedStrikes. now rewrite Qltb_false.
Qed.

Lemma suggested_strikes_witness :
  exists conservative moderate aggressive,
    suggestedStrikes 50
    = [("Conservative", conservative); ("Moderate", moderate);
       ("Aggressive", aggressive)]
    /\ (conservative == 54)%Q /\ (moderate == 52)%Q
    /\ (aggressive == 101 # 2)%Q /\ (50 < aggressive)%Q.
Proof.
  destruct (proj1 (suggested_strikes 50) eq_refl)
    as [c [m [a [E [_ [_ [_ [L _]]]]]]]]; [discriminate|].
  exists c, m, a. injection E as <- <- <-.
  repeat split; try reflexivity.
Defined.

(** ** The volatility score *)

Lemma Math_round_mono (x y : Q) : (x <= y)%Q -> (Math_round x <= Math_round y)%Z.
Proof. intros H. unfold Math_round. apply Qfloor_resp_le. lra. Qed.

Lemma Math_min_le_l (a b : Q) : (Math_min a b <= a)%Q.
Proof.
  unfold Math_min. destruct (Qle_bool a b) eqn:L; [lra|].
  destruct (Qlt_le_dec b a) as [H|H]; [lra|].
  apply Qle_bool_iff in H. congruence.
Qed.

Lemma Math_min_nonneg (a b : Q) : (0 <= a)%Q -> (0 <= b)%Q -> (0 <= Math_min a b)%Q.
Proof. intros A B. unfold Math_min. now destruct (Qle_bool a b). Qed.

(** X30: the volatility score is at most 100, and at least 4 when the
    price is not positive or the 52-week high is not below the 52-week
    low. *)
Theorem volScore_range (price yearHigh yearLow beta move30dPct volume
                        avgVolume : Q) (daysToEarnings : option Q) :
  (computeVolScore price yearHigh yearLow beta move30dPct volume avgVolume
                   daysToEarnings <= 100)%Z
  /\ ((price <= 0 \/ yearLow <= yearHigh)%Q ->
      (4 <= computeVolScore price yearHigh yearLow beta move30dPct volume
                            avgVolume daysToEarnings)%Z).
Proof.
  unfold computeVolScore.
  set (rangePct := if Qltb 0 price then _ else _).
  set (rangeScore := Math_min 25 _).
  set (momentumScore := Math_min 20 _).
  set (betaScore := if Qgeb (orNumber beta 1) 2 then _ else _).
  set (catalystScore := match daysToEarnings with Some _ => _ | None => _ end).
  set (volumeScore := if Qgeb _ 3 then _ else _).
  assert (R : (rangeScore <= 25)%Q) by apply Math_min_le_l.
  assert (M : (0 <= momentumScore <= 20)%Q).
  { split; [|apply Math_min_le_l].
    apply Math_min_nonneg; [lra|].
    pose proof (Math_abs_nonneg (orNumber move30dPct 0)). nra. }
  assert (B : (2 <= betaScore <= 20)%Q).
  { unfold betaScore.
    repeat match goal with |- context [if ?b then _ else _] => destruct b end;
      lra. }
  assert (C : (0 <= catalystScore <= 20)%Q).
  { unfold catalystScore. destruct daysToEarnings as [d|]; [|lra].
    repeat match goal with |- context [if ?b then _ else _] => destruct b end;
      lra. }
  assert (V : (2 <= volumeScore <= 15)%Q).
  { unfold volumeScore.
    repeat match goal with |- context [if ?b then _ else _] => destruct b end;
      lra. }
  split.
  - rewrite <- (Math_round_inject 100). apply Math_round_mono.
    change (inject_Z 100) with 100%Q. lra.
  - intros H. rewrite <- (Math_round_inject 4). apply Math_round_mono.
    change (inject_Z 4) with 4%Q.
    assert (R0 : (0 <= rangeScore)%Q).
    { apply Math_min_nonneg; [lra|]. unfold rangePct.
      destruct (Qltb 0 price) eqn:P; [|lra].
      apply Qltb_lt in P. destruct H as [H|H]; [lra|].
      assert (0 <= (yearHigh - yearLow) / price)%Q.
      { apply Qle_shift_div_l; [exact P|]. lra. }
      nra. }
    lra.
Qed.

Lemma volScore_range_witness :
  (4 <= computeVolScore 50 60 40 1 0 100 100 None)%Z.
Proof.
  apply (volScore_range 50 60 40 1 0 100 100 None).
  right. unfold Qle. cbn. lia.
Defined.
